(** * X-Ray decision capture: stats, stratified sampling, step ingestion

    A shallow embedding of the decision-capture engine of the X-Ray SDK:

    - [xray/models.py]       the [Decision], [Evidence] and [Step] inputs;
    - [xray/sampler.py]      [DecisionSampler.compute_stats] and
                             [DecisionSampler.sample];
    - [xray/config.py]       the storage limits;
    - [api/routes/ingest.py] the [record_step] handler, run against a
                             model of the ORM session it talks to
                             ([api/db/models.py], [api/db/database.py]);
    - [api/routes/query.py]  the [get_step_decisions] and [query_steps]
                             handlers, reading the same database, with
                             [ORDER BY] taken by its contract.

    Python integers are [Z]; [dict]s whose order is irrelevant are
    [gmap]s, the insertion-ordered [defaultdict] of the sampler is an
    association list; the global generator of the [random] module and
    the database session are threaded explicitly through a state and
    exception monad. *)

From Stdlib Require Import ZArith QArith Lia.
From stdpp Require Import gmap strings list fin_maps sorting pretty.

Local Open Scope string_scope.
Local Open Scope list_scope.
Local Open Scope Z_scope.

(** ** Data model ([xray/models.py]) *)

(** [decision_type: Literal["accepted", "rejected", "pending"]] *)
Inductive DecisionType := accepted | rejected | pending.

Global Instance DecisionType_eq_dec : EqDecision DecisionType.
Proof. solve_decision. Defined.

(** [class Decision(BaseModel)].  [metadata] is a [dict[str, Any]]; the
    engine reads one entry of it, ["sequence"], which the data model
    types as an integer, so the embedding keeps integer-valued entries.
    [score] is a float the engine never inspects; [timestamp] is a
    point in time, counted in seconds. *)
Record Decision := mkDecision {
  candidate_id : string;
  decision_type : DecisionType;
  reason : option string;
  score : option Q;
  metadata : option (gmap string Z);
  timestamp : option Z
}.

(** [class Evidence(BaseModel)]; [data] is an opaque payload. *)
Record Evidence := mkEvidence {
  evidence_type : string;
  data : string;
  ev_timestamp : option Z
}.

(** [class Step(BaseModel)], restricted to the fields [record_step]
    reads; the free-form [input], [output] and [config] documents are
    carried as opaque payloads. *)
Record Step := mkStep {
  name : string;
  input : option string;
  output : option string;
  config : option string;
  decisions : option (list Decision);
  evidence : option (list Evidence);
  reasoning : option string
}.

(** ** Python idioms *)

(** [s or "unknown"] on a [str | None]: [None] and the empty string are
    both falsy. *)
Definition str_or (s : option string) (dflt : string) : string :=
  match s with
  | Some EmptyString => dflt
  | Some s' => s'
  | None => dflt
  end.

(** [d.reason or "unknown"], the bucket of a rejection. *)
Definition reason_key (d : Decision) : string := str_or (reason d) "unknown".

(** [sum(1 for d in decisions if p(d))] *)
Definition sum_ones (p : Decision → bool) (ds : list Decision) : Z :=
  foldl (λ acc d, if p d then acc + 1 else acc) 0 ds.

Definition is_type (t : DecisionType) (d : Decision) : bool :=
  bool_decide (decision_type d = t).

(** [len(xs)] *)
Definition len {A} (xs : list A) : Z := Z.of_nat (length xs).

(** ** Floats

    A Python [float] is an IEEE 754 double, and every double is a
    rational number: a float is kept as the rational it is. *)

(** [p / q] rounded to the nearest integer, a tie to the even one
    ([q > 0]). *)
Definition round_half_even (p q : Z) : Z :=
  let n := p / q in
  let r := p mod q in
  if decide (2 * r < q) then n
  else if decide (q < 2 * r) then n + 1
  else if Z.even n then n else n + 1.

(** The [e] with [2 ^ e <= a / b < 2 ^ (e + 1)], for [a, b > 0]. *)
Definition binade (a b : Z) : Z :=
  let e0 := Z.log2 a - Z.log2 b in
  if decide (0 ≤ e0)
  then (if decide (2 ^ e0 * b ≤ a) then e0 else e0 - 1)
  else (if decide (b ≤ 2 ^ (- e0) * a) then e0 else e0 - 1).

(** [a / b] on two [int]s, [b] not zero: the double nearest to the
    quotient, a tie going to the double with the even significand.
    The doubles of the binade of the quotient are the multiples of
    [2 ^ (e - 52)], [e] being the binade's exponent and at least
    [-1022] (below, the doubles are subnormal).  (Python raises
    [OverflowError] for a quotient of [2 ^ 1024] or more; the
    quotients taken here are between 0 and 1.) *)
Definition true_div (a b : Z) : Q :=
  if decide (a = 0) then 0%Q
  else
    let e := Z.max (binade (Z.abs a) (Z.abs b)) (-1022) in
    let shift := 52 - e in
    let s := Z.sgn a * Z.sgn b in
    if decide (0 ≤ shift)
    then Qred (Qmake (s * round_half_even (Z.abs a * 2 ^ shift) (Z.abs b))
                 (Z.to_pos (2 ^ shift)))
    else Qred (inject_Z (s * round_half_even (Z.abs a) (Z.abs b * 2 ^ (- shift))
                         * 2 ^ (- shift))).

(** ** Stats ([DecisionSampler.compute_stats]) *)

(** [class StatsDict(TypedDict)].  [rejection_rate] is a float. *)
Record StatsDict := mkStats {
  input_count : Z;
  output_count : Z;
  rejection_rate : Q;
  rejection_reasons : gmap string Z
}.

(** The body of the loop that fills [reasons]:
    [if d.decision_type == "rejected":
         r = d.reason or "unknown"; reasons[r] = reasons.get(r, 0) + 1] *)
Definition count_reason (reasons : gmap string Z) (d : Decision) : gmap string Z :=
  if is_type rejected d
  then let r := reason_key d in <[r := default 0 (reasons !! r) + 1]> reasons
  else reasons.

Definition compute_stats (ds : list Decision) : StatsDict :=
  match ds with
  | [] => {| input_count := 0; output_count := 0;
             rejection_rate := 0%Q; rejection_reasons := ∅ |}
  | _ =>
    let total := len ds in
    let n_accepted := sum_ones (is_type accepted) ds in
    let n_rejected := sum_ones (is_type rejected) ds in
    let reasons := foldl count_reason ∅ ds in
    {| input_count := total;
       output_count := n_accepted;
       rejection_rate :=
         if decide (total = 0) then 0%Q
         else true_div n_rejected total;
       rejection_reasons := reasons |}
  end.

(** How many decisions of [ds] have type [t]; and how many are rejected
    with bucket [r]. *)
Definition count_type (t : DecisionType) (ds : list Decision) : Z :=
  len (filter (λ d, decision_type d = t) ds).

Definition rejected_as (r : string) (d : Decision) : Prop :=
  decision_type d = rejected ∧ reason_key d = r.

Global Instance rejected_as_dec r d : base.Decision (rejected_as r d).
Proof. unfold rejected_as. apply _. Defined.

Definition count_reason_of (r : string) (ds : list Decision) : Z :=
  len (filter (rejected_as r) ds).

(** The same in the words of the specification, read off the [reason]
    field: a rejection that states the reason [r] counts under [r];
    one that states none ([None], or the empty string) counts under
    ["unknown"]. *)
Definition counted_under (r : string) (d : Decision) : Prop :=
  decision_type d = rejected
  ∧ ((reason d = Some r ∧ r ≠ "")
     ∨ (r = "unknown" ∧ (reason d = None ∨ reason d = Some ""))).

Global Instance counted_under_dec r d : base.Decision (counted_under r d).
Proof. unfold counted_under. apply _. Defined.

Definition count_under (r : string) (ds : list Decision) : Z :=
  len (filter (counted_under r) ds).

(** ** Exceptions and state *)

(** The exceptions that can leave the code below. *)
Inductive exn :=
  | ValueError
  | IntegrityError
  | HTTPException (status_code : Z) (detail : string).

Inductive result (A : Type) :=
  | Ok (a : A)
  | Raise (e : exn).
Arguments Ok {A} a.
Arguments Raise {A} e.

(** Computations over a state [S] that return or raise. *)
Definition M (S A : Type) : Type := S → result A * S.

Definition ret {S A} (a : A) : M S A := λ s, (Ok a, s).

Definition raise {S A} (e : exn) : M S A := λ s, (Raise e, s).

Definition bind {S A B} (m : M S A) (k : A → M S B) : M S B :=
  λ s, match m s with
       | (Ok a, s') => k a s'
       | (Raise e, s') => (Raise e, s')
       end.

Definition get {S} : M S S := λ s, (Ok s, s).

Definition put {S} (s : S) : M S unit := λ _, (Ok tt, s).

Global Instance M_ret {S} : MRet (M S) := λ A, ret.
Global Instance M_bind {S} : MBind (M S) := λ A B k m, bind m k.

(** A [for] loop whose body updates the local variables [b]. *)
Fixpoint for_each {S A B} (xs : list A) (body : B → A → M S B) (b : B) : M S B :=
  match xs with
  | [] => ret b
  | x :: xs' => b' ← body b x; for_each xs' body b'
  end.

(** ** The [random] module

    [random.sample(population, k)] is a library function.  It raises
    [ValueError] unless [0 <= k <= len(population)], and otherwise
    returns the elements at [k] distinct positions of the population;
    which positions depends on the population's length, on [k] and on
    the state of the module's global generator, which the call may
    change.  [random.seed(a)] resets that state. *)
Class RandomSource := {
  rng : Type;
  choose : nat → nat → rng → list nat * rng;
  seed_state : Z → rng;
  choose_length n k g : (k ≤ n)%nat → length (choose n k g).1 = k;
  choose_NoDup n k g : (k ≤ n)%nat → NoDup (choose n k g).1;
  choose_bound n k g i : (k ≤ n)%nat → i ∈ (choose n k g).1 → (i < n)%nat
}.

Section Sampler.
Context `{RandomSource}.

Definition random_sample {A} (population : list A) (k : Z) : M rng (list A) :=
  λ g,
    if decide (0 ≤ k ≤ len population)
    then let '(positions, g') := choose (length population) (Z.to_nat k) g in
         (Ok (omap (λ i, population !! i) positions), g')
    else (Raise ValueError, g).

Definition random_seed (a : Z) : M rng unit := put (seed_state a).

(** ** The sampler ([xray/sampler.py]) *)

(** [DecisionSampler.__init__(self, threshold=500, per_reason=50)] *)
Record DecisionSampler := mkSampler {
  threshold : Z;
  per_reason : Z
}.

(** [by_reason[key].append(d)] on a [defaultdict(list)]: a new key goes
    to the end of the dictionary, an old one keeps its place. *)
Fixpoint dict_append (key : string) (d : Decision)
    (by_reason : list (string * list Decision)) : list (string * list Decision) :=
  match by_reason with
  | [] => [(key, [d])]
  | (k, items) :: rest =>
    if decide (k = key) then (k, items ++ [d]) :: rest
    else (k, items) :: dict_append key d rest
  end.

(** The local variables of the partition loop. *)
Record Buckets := mkBuckets {
  b_accepted : list Decision;
  b_by_reason : list (string * list Decision);
  b_pending : list Decision
}.

Definition partition_step (b : Buckets) (d : Decision) : Buckets :=
  match decision_type d with
  | accepted =>
    mkBuckets (b_accepted b ++ [d]) (b_by_reason b) (b_pending b)
  | rejected =>
    mkBuckets (b_accepted b) (dict_append (reason_key d) d (b_by_reason b)) (b_pending b)
  | pending =>
    mkBuckets (b_accepted b) (b_by_reason b) (b_pending b ++ [d])
  end.

(** The body of the loop over [by_reason.items()]. *)
Definition sample_group (self : DecisionSampler) (sampled_rejected : list Decision)
    (entry : string * list Decision) : M rng (list Decision) :=
  let items := entry.2 in
  if decide (len items ≤ per_reason self)
  then ret (sampled_rejected ++ items)
  else drawn ← random_sample items (per_reason self);
       ret (sampled_rejected ++ drawn).

(** [d.metadata.get("sequence", 0) if d.metadata else 0] *)
Definition sequence_key (d : Decision) : Z :=
  match metadata d with
  | Some md => if decide (md = ∅) then 0 else default 0 (md !! "sequence")
  | None => 0
  end.

(** [list.sort(key=...)] is a stable sort.  Stable insertion, from the
    back of the list, computes the same list. *)
Fixpoint insert_by {A} (key : A → Z) (x : A) (l : list A) : list A :=
  match l with
  | [] => [x]
  | y :: l' => if decide (key x ≤ key y) then x :: y :: l'
               else y :: insert_by key x l'
  end.

Definition sort_by {A} (key : A → Z) (l : list A) : list A :=
  foldr (insert_by key) [] l.

Definition sample (self : DecisionSampler) (ds : list Decision)
    : M rng (list Decision * bool) :=
  if decide (len ds ≤ threshold self) then ret (ds, false)
  else
    let b := foldl partition_step (mkBuckets [] [] []) ds in
    sampled_rejected ← for_each (b_by_reason b) (sample_group self) [];
    let result := b_accepted b ++ sampled_rejected ++ b_pending b in
    ret (sort_by sequence_key result, true).

End Sampler.

(** ** The sampler on list objects

    A Python list is a mutable object, and [sample] is handed a
    reference to the caller's list.  Here the lists of the process
    live in a heap, by address; [sample_obj] is [sample] with every
    list it creates, reads, appends to or sorts in place made
    explicit. *)

Section SamplerObjects.
Context `{RandomSource}.

Record Heap := mkHeap {
  lists : list (list Decision);
  generator : rng
}.

(** [[]] or [list(xs)]: a new list object. *)
Definition new_list (xs : list Decision) : M Heap nat :=
  λ h, (Ok (length (lists h)), mkHeap (lists h ++ [xs]) (generator h)).

(** Looking at a list object. *)
Definition read_list (l : nat) : M Heap (list Decision) :=
  λ h, (Ok (default [] (lists h !! l)), h).

(** Changing a list object in place. *)
Definition update_list (l : nat) (f : list Decision → list Decision) : M Heap unit :=
  λ h, (Ok tt, mkHeap (alter f l (lists h)) (generator h)).

(** [l.append(d)], [l.extend(ys)], [l.sort(key=key)] *)
Definition list_append (l : nat) (d : Decision) : M Heap unit :=
  update_list l (λ xs, xs ++ [d]).

Definition list_extend (l : nat) (ys : list Decision) : M Heap unit :=
  update_list l (λ xs, xs ++ ys).

Definition list_sort (l : nat) (key : Decision → Z) : M Heap unit :=
  update_list l (sort_by key).

(** A call into the [random] module. *)
Definition draw {A} (m : M rng A) : M Heap A :=
  λ h, let '(r, g) := m (generator h) in (r, mkHeap (lists h) g).

(** [by_reason] maps a reason to a list object. *)
Fixpoint dict_find (key : string) (by_reason : list (string * nat)) : option nat :=
  match by_reason with
  | [] => None
  | (k, items) :: rest => if decide (k = key) then Some items else dict_find key rest
  end.

(** [by_reason[key].append(d)] on the [defaultdict(list)] *)
Definition bucket_append (key : string) (d : Decision)
    (by_reason : list (string * nat)) : M Heap (list (string * nat)) :=
  match dict_find key by_reason with
  | Some items => list_append items d;; mret by_reason
  | None =>
    items ← new_list [];
    list_append items d;;
    mret (by_reason ++ [(key, items)])
  end.

(** The body of the partition loop. *)
Definition partition_obj (accepted_ pending_ : nat)
    (by_reason : list (string * nat)) (d : Decision) : M Heap (list (string * nat)) :=
  match decision_type d with
  | accepted => list_append accepted_ d;; mret by_reason
  | rejected => bucket_append (reason_key d) d by_reason
  | pending => list_append pending_ d;; mret by_reason
  end.

(** The body of the loop over [by_reason.items()]. *)
Definition sample_group_obj (self : DecisionSampler) (sampled_rejected : nat)
    (_ : unit) (entry : string * nat) : M Heap unit :=
  items ← read_list entry.2;
  if decide (len items ≤ per_reason self)
  then list_extend sampled_rejected items
  else drawn ← draw (random_sample items (per_reason self));
       list_extend sampled_rejected drawn.

Definition sample_obj (self : DecisionSampler) (decisions_ : nat)
    : M Heap (nat * bool) :=
  ds ← read_list decisions_;
  if decide (len ds ≤ threshold self) then mret (decisions_, false)
  else
    accepted_ ← new_list [];
    pending_ ← new_list [];
    by_reason ← for_each ds (partition_obj accepted_ pending_) [];
    sampled_rejected ← new_list [];
    for_each by_reason (sample_group_obj self sampled_rejected) tt;;
    a ← read_list accepted_;
    s ← read_list sampled_rejected;
    p ← read_list pending_;
    result ← new_list (a ++ s ++ p);
    list_sort result sequence_key;;
    mret (result, true).

End SamplerObjects.

(** ** Configuration ([xray/config.py]) *)

Definition MAX_DECISIONS_PER_STEP : Z := 100000.
Definition MAX_EVIDENCE_PER_STEP : Z := 1000.

(** ** ORM rows ([api/db/models.py])

    Primary keys are [default=_uuid] columns: the ORM fills them in
    when the row is inserted, so the [id] of an object that has been
    constructed but not flushed yet reads [None].  [uuid4] values are
    drawn from a supply of fresh identifiers. *)

Definition uuid := nat.

Module Db.

Module Run.
Record t := mk {
  id : uuid;
  pipeline_type : string;
  status : string
}.
End Run.

Module Step.
Record t := mk {
  id : option uuid;
  run_id : uuid;
  step_name : string;
  sequence_order : Z;
  input_data : option string;
  output_data : option string;
  config : option string;
  reasoning : option string;
  stats : option StatsDict;
  started_at : Z;
  completed_at : option Z
}.
End Step.

Module Decision.
Record t := mk {
  id : option uuid;
  step_id : option uuid;
  candidate_id : string;
  decision_type : DecisionType;
  reason : option string;
  score : option Q;
  sequence_order : Z;
  meta_data : option (gmap string Z);
  created_at : Z
}.
End Decision.

Module Evidence.
Record t := mk {
  id : option uuid;
  decision_id : option uuid;
  evidence_type : string;
  data : string;
  created_at : Z
}.
End Evidence.

Inductive obj :=
  | ORun (r : Run.t)
  | OStep (s : Step.t)
  | ODecision (d : Decision.t)
  | OEvidence (e : Evidence.t).

Definition obj_id (o : obj) : option uuid :=
  match o with
  | ORun r => Some (Run.id r)
  | OStep s => Step.id s
  | ODecision d => Decision.id d
  | OEvidence e => Evidence.id e
  end.

(** The [default=_uuid] of the primary key, applied on insert. *)
Definition with_id (o : obj) (n : uuid) : obj :=
  match o with
  | ORun r => ORun r
  | OStep s =>
    OStep (Step.mk (Some n) (Step.run_id s) (Step.step_name s)
             (Step.sequence_order s) (Step.input_data s) (Step.output_data s)
             (Step.config s) (Step.reasoning s) (Step.stats s)
             (Step.started_at s) (Step.completed_at s))
  | ODecision d =>
    ODecision (Decision.mk (Some n) (Decision.step_id d) (Decision.candidate_id d)
                 (Decision.decision_type d) (Decision.reason d) (Decision.score d)
                 (Decision.sequence_order d) (Decision.meta_data d)
                 (Decision.created_at d))
  | OEvidence e =>
    OEvidence (Evidence.mk (Some n) (Evidence.decision_id e)
                 (Evidence.evidence_type e) (Evidence.data e)
                 (Evidence.created_at e))
  end.

(** The [nullable=False] foreign keys. *)
Definition not_null (o : obj) : bool :=
  match o with
  | ORun _ | OStep _ => true
  | ODecision d => bool_decide (is_Some (Decision.step_id d))
  | OEvidence e => bool_decide (is_Some (Evidence.decision_id e))
  end.

(** Inserting one pending object. *)
Definition insert_object (acc : list obj * uuid) (o : obj) : list obj * uuid :=
  match obj_id o with
  | Some _ => (acc.1 ++ [o], acc.2)
  | None => (acc.1 ++ [with_id o acc.2], S acc.2)
  end.

End Db.

(** ** The wall clock

    [datetime.utcnow()] reads the wall clock, and what it reads is not
    the program's to decide: a clock is the sequence of the readings
    that the calls are going to return, with the number of calls that
    have been made.  Nothing is assumed of the readings: two calls may
    read the same instant, or a later, or an earlier one. *)
Record Clock := mkClock {
  readings : nat → Z;
  taken : nat
}.

(** What the next call returns, and the clock after that call. *)
Definition reading (c : Clock) : Z := readings c (taken c).

Definition tick (c : Clock) : Clock := mkClock (readings c) (S (taken c)).

(** [t or datetime.utcnow()] on the clock: the value, and the clock
    afterwards; the clock is read only when there is no [t]. *)
Definition stamp (c : Clock) (t : option Z) : Z * Clock :=
  match t with
  | Some t' => (t', c)
  | None => (reading c, tick c)
  end.

(** ** The request handler's world ([api/db/database.py], FastAPI) *)

Section Ingest.
Context `{RandomSource}.

(** What a request can read and change: the generator of the [random]
    module, the committed database, the objects held by the request's
    [AsyncSession] (a Python variable bound to an ORM object is its
    position in [session]), how many of them are committed, the supply
    of fresh identifiers and the clock. *)
Record World := mkWorld {
  random_state : rng;
  database : list Db.obj;
  session : list Db.obj;
  committed_upto : nat;
  uuid_supply : uuid;
  clock : Clock
}.

Definition lift_random {A} (m : M rng A) : M World A :=
  λ w, let '(r, g) := m (random_state w) in
       (r, mkWorld g (database w) (session w) (committed_upto w)
             (uuid_supply w) (clock w)).

(** [datetime.utcnow()]: every call takes a reading of its own. *)
Definition utcnow : M World Z :=
  w ← get;
  put (mkWorld (random_state w) (database w) (session w) (committed_upto w)
         (uuid_supply w) (tick (clock w)));;
  mret (reading (clock w)).

(** [db.add(o)]; the result stands for the Python reference to [o]. *)
Definition db_add (o : Db.obj) : M World nat :=
  w ← get;
  put (mkWorld (random_state w) (database w) (session w ++ [o])
         (committed_upto w) (uuid_supply w) (clock w));;
  mret (length (session w)).

(** [await db.flush()]: pending objects are inserted, which assigns
    their primary keys; a [NULL] in a [nullable=False] column makes the
    insert fail. *)
Definition db_flush : M World unit :=
  w ← get;
  let '(objs, next) := foldl Db.insert_object ([], uuid_supply w) (session w) in
  if forallb Db.not_null objs
  then put (mkWorld (random_state w) (database w) objs
              (committed_upto w) next (clock w))
  else raise IntegrityError.

(** [await db.commit()]: flush, then make the transaction durable. *)
Definition db_commit : M World unit :=
  db_flush;;
  w ← get;
  put (mkWorld (random_state w)
         (database w ++ drop (committed_upto w) (session w))
         (session w) (length (session w)) (uuid_supply w) (clock w)).

(** [obj.id], read through the reference. *)
Definition attr_id (ref : nat) : M World (option uuid) :=
  w ← get; mret (o ← session w !! ref; Db.obj_id o).

(** [(await db.execute(select(Run).where(Run.id == run_id))).scalar_one_or_none()] *)
Definition is_run (run_id : uuid) (o : Db.obj) : bool :=
  match o with
  | Db.ORun r => bool_decide (Db.Run.id r = run_id)
  | _ => false
  end.

Definition select_run (run_id : uuid) : M World (option Db.obj) :=
  w ← get; mret (List.find (is_run run_id) (database w)).

(** [select(func.count(Step.id)).where(Step.run_id == run_id)] *)
Definition is_step_of (run_id : uuid) (o : Db.obj) : bool :=
  match o with
  | Db.OStep s => bool_decide (Db.Step.run_id s = run_id)
  | _ => false
  end.

Definition count_steps (run_id : uuid) : M World Z :=
  w ← get; mret (len (List.filter (is_step_of run_id) (database w ++ session w))).

(** [get_db]: a session per request, closed (and with it every
    uncommitted change dropped) when the handler returns or raises. *)
Definition with_session {A} (handler : M World A) : M World A :=
  λ w,
    let '(r, w') := handler (mkWorld (random_state w) (database w) [] 0
                               (uuid_supply w) (clock w)) in
    (r, mkWorld (random_state w') (database w') [] 0 (uuid_supply w') (clock w')).

(** ** Recording a step ([api/routes/ingest.py]) *)

Record SamplingSummary := mkSummary {
  total : Z;
  kept : Z;
  sampled : bool
}.

Record RecordStepResponse := mkResponse {
  step_id : option uuid;
  stats : option StatsDict;
  sampling_summary : option SamplingSummary
}.

(** [_sampler = DecisionSampler()] *)
Definition _sampler : DecisionSampler := mkSampler 500 50.

(** Truth value of a [list | None]. *)
Definition truthy {A} (xs : option (list A)) : bool :=
  match xs with
  | Some (_ :: _) => true
  | _ => false
  end.

(** [md.setdefault(key, v)] *)
Definition setdefault (md : gmap string Z) (key : string) (v : Z) : gmap string Z :=
  match md !! key with
  | Some _ => md
  | None => <[key := v]> md
  end.

(** The body of the loop over [enumerate(sdk_decisions)]:
    [md = dict(d.metadata or {}); md.setdefault("sequence", idx)] and a
    copy of [d] that carries [md]. *)
Definition normalize_one (idx : nat) (d : Decision) : Decision :=
  let md := setdefault (default ∅ (metadata d)) "sequence" (Z.of_nat idx) in
  mkDecision (candidate_id d) (decision_type d) (reason d) (score d)
    (Some md) (timestamp d).

Definition normalize (sdk_decisions : list Decision) : list Decision :=
  imap normalize_one sdk_decisions.

(** [DecisionInput(candidate_id=d.candidate_id, ...)] *)
Definition copy_decision (d : Decision) : Decision :=
  mkDecision (candidate_id d) (decision_type d) (reason d) (score d)
    (metadata d) (timestamp d).

(** [t or datetime.utcnow()] *)
Definition or_utcnow (t : option Z) : M World Z :=
  match t with
  | Some t' => mret t'
  | None => utcnow
  end.

(** The body of the loop over [enumerate(decisions_to_store)]. *)
Definition store_decision (step : nat) (created_decisions : list nat)
    (entry : nat * Decision) : M World (list nat) :=
  let '(idx, d) := entry in
  step_id ← attr_id step;
  created_at ← or_utcnow (timestamp d);
  decision ← db_add (Db.ODecision
    (Db.Decision.mk None step_id (candidate_id d) (decision_type d) (reason d)
       (score d) (Z.of_nat idx) (metadata d) created_at));
  mret (created_decisions ++ [decision]).

(** The body of the loop over [zip(step_input.evidence, created_decisions)]. *)
Definition store_evidence (_ : unit) (entry : Evidence * nat) : M World unit :=
  let '(ev, decision) := entry in
  decision_id ← attr_id decision;
  created_at ← or_utcnow (ev_timestamp ev);
  db_add (Db.OEvidence
    (Db.Evidence.mk None decision_id (evidence_type ev) (data ev) created_at));;
  mret tt.

Definition too_many (what : string) (n limit : Z) : exn :=
  HTTPException 413
    ("Too many " +:+ what +:+ ": " +:+ pretty n +:+
     " exceeds maximum of " +:+ pretty limit).

(** [record_step], block by block.  First the storage guardrails. *)
Definition check_limits (step_input : Step) : M World unit :=
  if truthy (decisions step_input)
     && bool_decide (len (default [] (decisions step_input)) > MAX_DECISIONS_PER_STEP)
  then raise (too_many "decisions" (len (default [] (decisions step_input)))
                MAX_DECISIONS_PER_STEP)
  else
  if truthy (evidence step_input)
     && bool_decide (len (default [] (evidence step_input)) > MAX_EVIDENCE_PER_STEP)
  then raise (too_many "evidence items" (len (default [] (evidence step_input)))
                MAX_EVIDENCE_PER_STEP)
  else mret tt.

(** [if sdk_decisions: ... else: sampled_sdk_decisions, was_sampled = [], False]:
    the stats of the normalized submission, then its sample. *)
Definition stats_and_sample (sdk_decisions : option (list Decision))
    : M World (option StatsDict * list Decision * bool) :=
  if truthy sdk_decisions then
    let normalized := normalize (default [] sdk_decisions) in
    let computed_stats := compute_stats normalized in
    '(sampled_sdk_decisions, was_sampled) ← lift_random (sample _sampler normalized);
    mret (Some computed_stats, sampled_sdk_decisions, was_sampled)
  else mret (None, [], false).

(** The second [if sdk_decisions:] block: the rows of the kept
    decisions and the sampling summary. *)
Definition store_decisions (step : nat) (sdk_decisions : option (list Decision))
    (sampled_sdk_decisions : list Decision) (was_sampled : bool)
    : M World (list nat * option SamplingSummary) :=
  if truthy sdk_decisions then
    let original_count := len (default [] sdk_decisions) in
    let decisions_to_store := copy_decision <$> sampled_sdk_decisions in
    let sampling_summary :=
      mkSummary original_count (len decisions_to_store) was_sampled in
    created_decisions ←
      for_each (imap pair decisions_to_store) (store_decision step) [];
    mret (created_decisions, Some sampling_summary)
  else mret ([], None).

(** The [if step_input.evidence:] block. *)
Definition attach_evidence (step_input : Step) (created_decisions : list nat)
    : M World unit :=
  if truthy (evidence step_input) then
    let evidence_ := default [] (evidence step_input) in
    match created_decisions with
    | [] => raise (HTTPException 400
                     "Evidence provided but no decisions to attach to")
    | _ =>
      if decide (len evidence_ > len created_decisions)
      then raise (HTTPException 400
             "Evidence count exceeds decisions; provide one evidence per decision")
      else for_each (zip evidence_ created_decisions) store_evidence tt
    end
  else mret tt.

Definition record_step (run_id : uuid) (step_input : Step) : M World RecordStepResponse :=
  check_limits step_input;;
  run ← select_run run_id;
  match run with
  | None => raise (HTTPException 404 ("Run " +:+ pretty run_id +:+ " not found"))
  | Some _ =>
    seq ← count_steps run_id;
    '(stats, sampled_sdk_decisions, was_sampled) ←
      stats_and_sample (decisions step_input);
    started_at ← utcnow;
    completed_at ← utcnow;
    step ← db_add (Db.OStep
      (Db.Step.mk None run_id (name step_input) seq (input step_input)
         (output step_input) (config step_input) (reasoning step_input)
         stats started_at (Some completed_at)));
    db_flush;;
    '(created_decisions, sampling_summary) ←
      store_decisions step (decisions step_input) sampled_sdk_decisions was_sampled;
    attach_evidence step_input created_decisions;;
    db_commit;;
    step_id ← attr_id step;
    mret (mkResponse step_id stats sampling_summary)
  end.

(** The route: [record_step] under the [get_db] dependency. *)
Definition post_step (run_id : uuid) (step_input : Step) : M World RecordStepResponse :=
  with_session (record_step run_id step_input).

End Ingest.

(** ** Vocabulary of the statements *)

(** [by_reason.get(key, [])] *)
Fixpoint dict_get (key : string) (by_reason : list (string * list Decision))
    : list Decision :=
  match by_reason with
  | [] => []
  | (k, items) :: rest => if decide (k = key) then items else dict_get key rest
  end.

(** The buckets the partition loop of [sample] ends with. *)
Definition partition_of (ds : list Decision) : Buckets :=
  foldl partition_step (mkBuckets [] [] []) ds.

(** [sel] is what the sampling loop may keep of one group: part of
    the group, of the capped size, and the whole group when it is not
    over the cap. *)
Definition kept_of (self : DecisionSampler) (items sel : list Decision) : Prop :=
  sel ⊆+ items
  ∧ len sel = Z.min (len items) (per_reason self)
  ∧ (len items ≤ per_reason self → sel = items).

(** Ascending order of the sequence keys, with and without ties. *)
Definition ascending (ds : list Decision) : Prop :=
  StronglySorted Z.le (sequence_key <$> ds).

Definition strictly_ascending (ds : list Decision) : Prop :=
  StronglySorted Z.lt (sequence_key <$> ds).

(** The ["sequence"] entry a decision arrives with, if any. *)
Definition caller_sequence (d : Decision) : option Z :=
  md ← metadata d; md !! "sequence".

Section ObjectVocabulary.
Context `{RandomSource}.

(** The dictionary of list objects, with the lists it refers to. *)
Definition resolve (h : Heap) (by_reason : list (string * nat))
    : list (string * list Decision) :=
  (λ entry, (entry.1, default [] (lists h !! entry.2))) <$> by_reason.

(** The list objects below address [n] are in [h'] what they are in [h]. *)
Definition preserves (n : nat) (h h' : Heap) : Prop :=
  ∀ l, (l < n)%nat → lists h' !! l = lists h !! l.

(** The objects of the partition loop, all created since the heap
    had [n] lists, hold the buckets [b]. *)
Definition buckets_at (n accepted_ pending_ : nat)
    (by_reason : list (string * nat)) (h : Heap) (b : Buckets) : Prop :=
  (n ≤ accepted_ < length (lists h))%nat
  ∧ (n ≤ pending_ < length (lists h))%nat
  ∧ accepted_ ≠ pending_
  ∧ NoDup by_reason.*2
  ∧ Forall (λ r, (n ≤ r < length (lists h))%nat ∧ r ≠ accepted_ ∧ r ≠ pending_)
      by_reason.*2
  ∧ lists h !! accepted_ = Some (b_accepted b)
  ∧ lists h !! pending_ = Some (b_pending b)
  ∧ resolve h by_reason = b_by_reason b.

End ObjectVocabulary.

Section IngestVocabulary.
Context `{RandomSource}.

(** The world with other objects in the session. *)
Definition with_objects (w : World) (objs : list Db.obj) : World :=
  mkWorld (random_state w) (database w) objs (committed_upto w)
    (uuid_supply w) (clock w).

(** The world with another clock. *)
Definition with_clock (w : World) (c : Clock) : World :=
  mkWorld (random_state w) (database w) (session w) (committed_upto w)
    (uuid_supply w) c.

(** The [created_at] values of rows that are built one after the
    other, given the timestamps their inputs come with: a row whose
    input has a timestamp takes it, a row whose input has none takes a
    reading of the clock; and the clock after the last row. *)
Fixpoint created_ats (c : Clock) (ts : list (option Z)) : list Z :=
  match ts with
  | [] => []
  | t :: ts' => (stamp c t).1 :: created_ats (stamp c t).2 ts'
  end.

Fixpoint clock_after (c : Clock) (ts : list (option Z)) : Clock :=
  match ts with
  | [] => c
  | t :: ts' => clock_after (stamp c t).2 ts'
  end.

(** The row [record_step] builds for the kept decision [entry.2] at
    position [entry.1], and the row it builds for an evidence item. *)
Definition decision_row (step_id : option uuid) (created_at : Z)
    (entry : nat * Decision) : Db.obj :=
  Db.ODecision
    (Db.Decision.mk None step_id (candidate_id entry.2) (decision_type entry.2)
       (reason entry.2) (score entry.2) (Z.of_nat entry.1) (metadata entry.2)
       created_at).

Definition evidence_row (decision_id : option uuid) (created_at : Z)
    (ev : Evidence) : Db.obj :=
  Db.OEvidence
    (Db.Evidence.mk None decision_id (evidence_type ev) (data ev) created_at).

(** The evidence rows built, from the clock [c] on, for evidence that
    finds no [id] to refer to. *)
Definition evidence_rows (c : Clock) (evidence_ : list Evidence) : list Db.obj :=
  zip_with (evidence_row None) (created_ats c (ev_timestamp <$> evidence_))
    evidence_.

(** What a reference reads as [.id] in a session. *)
Definition id_at (objs : list Db.obj) (ref : nat) : option uuid :=
  o ← objs !! ref; Db.obj_id o.

(** What becomes of a pending object when it is inserted: it gets a
    primary key unless it has one. *)
Definition inserted (o o' : Db.obj) : Prop :=
  match Db.obj_id o with
  | Some _ => o' = o
  | None => ∃ i, o' = Db.with_id o i
  end.

(** The stats [record_step] computes: those of the whole normalized
    submission. *)
Definition expected_stats (step_input : Step) : option StatsDict :=
  if truthy (decisions step_input)
  then Some (compute_stats (normalize (default [] (decisions step_input))))
  else None.

(** What the sampler keeps of a submission, whether it sampled, and
    the state it leaves the generator in. *)
Definition kept_decisions (step_input : Step) (g : rng)
    : list Decision * bool * rng :=
  if truthy (decisions step_input) then
    match sample _sampler (normalize (default [] (decisions step_input))) g with
    | (Ok (kept, was_sampled), g') => (kept, was_sampled, g')
    | (Raise _, g') => ([], false, g')
    end
  else ([], false, g).

Definition expected_summary (step_input : Step) (g : rng)
    : option SamplingSummary :=
  if truthy (decisions step_input)
  then Some (mkSummary (len (default [] (decisions step_input)))
               (len (kept_decisions step_input g).1.1)
               (kept_decisions step_input g).1.2)
  else None.

(** The row of the step, started and completed at two readings of
    the clock, and the rows of its kept decisions, built from the
    clock [c] on. *)
Definition step_row (run_id : uuid) (step_input : Step) (seq : Z)
    (id : option uuid) (started_at completed_at : Z) : Db.obj :=
  Db.OStep
    (Db.Step.mk id run_id (name step_input) seq (input step_input)
       (output step_input) (config step_input) (reasoning step_input)
       (expected_stats step_input) started_at (Some completed_at)).

Definition decision_rows (step_input : Step) (g : rng) (step_id : option uuid)
    (c : Clock) : list Db.obj :=
  zip_with (decision_row step_id)
    (created_ats c (timestamp <$> (kept_decisions step_input g).1.1))
    (imap pair (copy_decision <$> (kept_decisions step_input g).1.1)).

(** The world [record_step] has reached when it turns to the
    evidence: the step is flushed, the decision rows are pending; the
    clock was read twice for the step and once for every kept decision
    without a timestamp. *)
Definition stored_world (run_id : uuid) (step_input : Step) (w : World) : World :=
  let n := uuid_supply w in
  let seq := len (List.filter (is_step_of run_id) (database w)) in
  mkWorld (kept_decisions step_input (random_state w)).2
    (database w)
    (step_row run_id step_input seq (Some n)
       (reading (clock w)) (reading (tick (clock w)))
     :: decision_rows step_input (random_state w) (Some n) (tick (tick (clock w))))
    0 (S n)
    (clock_after (tick (tick (clock w)))
       (timestamp <$> (kept_decisions step_input (random_state w)).1.1)).

(** The world a request starts from and leaves behind: no session. *)
Definition close_session (w : World) : World :=
  mkWorld (random_state w) (database w) [] 0 (uuid_supply w) (clock w).

(** The rest of [record_step] from there. *)
Definition finish_step (step_input : Step) (g : rng) : M World RecordStepResponse :=
  attach_evidence step_input
    (seq 1 (length (kept_decisions step_input g).1.1));;
  db_commit;;
  step_id ← attr_id 0%nat;
  mret (mkResponse step_id (expected_stats step_input)
          (expected_summary step_input g)).

End IngestVocabulary.

(** ** A generator and some inputs to run the code on *)

(** A generator within the contract of [random.sample]: the state is
    a counter, the positions drawn are a window of [k] consecutive
    positions whose start moves with the counter, and every draw
    advances the counter. *)
#[program] Definition WindowSource : RandomSource := {|
  rng := nat;
  choose n k g := (seq (g mod (n - k + 1))%nat k, S g);
  seed_state a := Z.abs_nat a
|}.
Next Obligation. intros. cbn. by rewrite length_seq. Qed.
Next Obligation. intros. cbn. apply NoDup_seq. Qed.
Next Obligation.
  intros n k g i Hk Hi. cbn in Hi. apply elem_of_seq in Hi.
  assert (g mod (n - k + 1) < n - k + 1)%nat by (apply Nat.mod_upper_bound; lia).
  lia.
Qed.

(** A decision with the given candidate, type, reason and, when there
    is one, ["sequence"] entry. *)
Definition decision_of (c : string) (t : DecisionType) (r : option string)
    (sequence : option Z) : Decision :=
  mkDecision c t r None ((λ n, {["sequence" := n]}) <$> sequence) None.

(** Four decisions, three of them rejected for the same reason. *)
Definition four_decisions : list Decision :=
  [ decision_of "a" rejected (Some "price") (Some 0);
    decision_of "b" accepted None (Some 1);
    decision_of "c" rejected (Some "price") (Some 2);
    decision_of "d" rejected (Some "price") (Some 3) ].



(** A submission whose only decision arrives with a sequence value. *)
Definition one_sequenced : list Decision :=
  [ decision_of "x" accepted None (Some 5) ].

(** A database with one run, seen from a fresh request; a step with
    one decision and one evidence item for it; a step with more
    evidence items than the limit allows; and a step of decisions
    only. *)
Definition one_run_world : @World WindowSource :=
  mkWorld (0%nat : @rng WindowSource)
    [Db.ORun (Db.Run.mk 7%nat "competitor_selection" "running")]
    [] 0 100%nat (mkClock (λ n, Z.of_nat n + 1700000000) 0).

Definition step_with_evidence : Step :=
  mkStep "llm_filter" None None None
    (Some [decision_of "a" accepted None None])
    (Some [mkEvidence "llm_output" "raw" None]) None.

Definition step_over_limit : Step :=
  mkStep "llm_filter" None None None
    (Some [decision_of "a" accepted None None])
    (Some (replicate 1001 (mkEvidence "llm_output" "raw" None))) None.

Definition step_of_decisions : Step :=
  mkStep "filter" None None None (Some four_decisions) None None.

(** A step that comes with evidence and without decisions. *)
Definition step_of_evidence : Step :=
  mkStep "llm_filter" None None None None
    (Some [mkEvidence "llm_output" "raw" None]) None.

(** A heap whose only list object is the list of the four decisions. *)
Definition heap_of_four : @Heap WindowSource :=
  @mkHeap WindowSource [four_decisions] (0%nat : @rng WindowSource).

(** The sum of the counts of a [rejection_reasons] dictionary. *)
Definition reasons_total (reasons : gmap string Z) : Z :=
  map_fold (λ _ c acc, c + acc) 0 reasons.

(** The row a kept decision is stored as: [id] is its primary key,
    [step_id] the step it belongs to, [idx] its position among the
    kept decisions. *)
Definition stored_decision (id : uuid) (step_id : uuid) (created_at : Z)
    (idx : nat) (d : Decision) : Db.obj :=
  Db.ODecision
    (Db.Decision.mk (Some id) (Some step_id) (candidate_id d) (decision_type d)
       (reason d) (score d) (Z.of_nat idx) (metadata d) created_at).

(** ** Reading back ([api/routes/query.py]) *)

(** [ORDER BY key]: the rows come back in an order in which the key
    does not decrease; which of two rows with the same key comes
    first is the database engine's choice. *)
Class QueryEngine := {
  order_by : ∀ {A : Type}, (A → Z) → list A → list A;
  order_by_Permutation : ∀ {A : Type} (key : A → Z) (l : list A),
    order_by key l ≡ₚ l;
  order_by_sorted : ∀ {A : Type} (key : A → Z) (l : list A),
    StronglySorted Z.le (key <$> order_by key l)
}.

(** The string a [decision_type] is stored as. *)
Definition type_name (t : DecisionType) : string :=
  match t with
  | accepted => "accepted"
  | rejected => "rejected"
  | pending => "pending"
  end.

(** Truth value of a [str | None] and of a [float | None]. *)
Definition str_truthy (s : option string) : bool :=
  match s with
  | Some EmptyString => false
  | Some _ => true
  | None => false
  end.

Definition float_truthy (x : option Q) : bool :=
  match x with
  | Some q => negb (Qeq_bool q 0)
  | None => false
  end.

(** [and_] of the collected conditions. *)
Definition and_ {A} (conds : list (A → bool)) (x : A) : bool :=
  forallb (λ c, c x) conds.

(** The tables. *)
Definition runs_table (db : list Db.obj) : list Db.Run.t :=
  omap (λ o, match o with Db.ORun r => Some r | _ => None end) db.

Definition steps_table (db : list Db.obj) : list Db.Step.t :=
  omap (λ o, match o with Db.OStep s => Some s | _ => None end) db.

Definition decisions_table (db : list Db.obj) : list Db.Decision.t :=
  omap (λ o, match o with Db.ODecision d => Some d | _ => None end) db.

(** [class DecisionOut(BaseModel)] *)
Module DecisionOut.
Record t := mk {
  id : option uuid;
  candidate_id : string;
  decision_type : string;
  reason : option string;
  score : option Q;
  sequence_order : Z;
  metadata : option (gmap string Z);
  created_at : Z
}.
End DecisionOut.

(** [class StepDecisionListResponse(BaseModel)] *)
Module StepDecisionListResponse.
Record t := mk {
  step_id : uuid;
  step_name : string;
  decisions : list DecisionOut.t;
  total : Z;
  page : Z;
  page_size : Z
}.
End StepDecisionListResponse.

(** [class StepQueryRequest(BaseModel)] *)
Module StepQueryRequest.
Record t := mk {
  pipeline_type : option string;
  step_name : option string;
  min_rejection_rate : option Q;
  max_rejection_rate : option Q;
  date_from : option Z;
  date_to : option Z;
  limit : Z;
  offset : Z
}.
End StepQueryRequest.

(** [class StepQueryItem(BaseModel)] *)
Module StepQueryItem.
Record t := mk {
  id : option uuid;
  run_id : uuid;
  name : string;
  stats : option StatsDict;
  reasoning : option string;
  started_at : Z
}.
End StepQueryItem.

(** [class StepQueryResponse(BaseModel)] *)
Module StepQueryResponse.
Record t := mk {
  steps : list StepQueryItem.t;
  count : Z
}.
End StepQueryResponse.

(** The [DecisionOut(...)] of a row. *)
Definition decision_out (d : Db.Decision.t) : DecisionOut.t :=
  DecisionOut.mk (Db.Decision.id d) (Db.Decision.candidate_id d)
    (type_name (Db.Decision.decision_type d)) (Db.Decision.reason d)
    (Db.Decision.score d) (Db.Decision.sequence_order d)
    (Db.Decision.meta_data d) (Db.Decision.created_at d).

(** The [StepQueryItem(...)] of a row. *)
Definition step_query_item (s : Db.Step.t) : StepQueryItem.t :=
  StepQueryItem.mk (Db.Step.id s) (Db.Step.run_id s) (Db.Step.step_name s)
    (Db.Step.stats s) (Db.Step.reasoning s) (Db.Step.started_at s).

(** The conditions [get_step_decisions] collects: a filter that is
    absent or the empty string adds none. *)
Definition decision_conds (decision_type reason : option string)
    : list (Db.Decision.t → bool) :=
  (if str_truthy decision_type
   then [λ d, bool_decide (Some (type_name (Db.Decision.decision_type d))
                           = decision_type)]
   else [])
  ++ (if str_truthy reason
      then [λ d, bool_decide (Db.Decision.reason d = reason)]
      else []).

(** [.offset(offset).limit(limit)].  What a negative offset or limit
    does is the database engine's affair; the statements below are
    about offsets and limits that are not negative. *)
Definition offset_limit {A} (offset limit : Z) (rows : list A) : list A :=
  take (Z.to_nat limit) (drop (Z.to_nat offset) rows).

(** The conditions [query_steps] collects, on a step joined with its
    run. *)
Definition step_conds (request : StepQueryRequest.t)
    : list (Db.Step.t * Db.Run.t → bool) :=
  (if str_truthy (StepQueryRequest.pipeline_type request)
   then [λ sr, bool_decide (Some (Db.Run.pipeline_type sr.2)
                            = StepQueryRequest.pipeline_type request)]
   else [])
  ++ (if str_truthy (StepQueryRequest.step_name request)
      then [λ sr, bool_decide (Some (Db.Step.step_name sr.1)
                               = StepQueryRequest.step_name request)]
      else [])
  ++ match StepQueryRequest.date_from request with
     | Some t => [λ sr, bool_decide (t ≤ Db.Step.started_at sr.1)]
     | None => []
     end
  ++ match StepQueryRequest.date_to request with
     | Some t => [λ sr, bool_decide (Db.Step.started_at sr.1 ≤ t)]
     | None => []
     end.

(** [select(Step).join(Run)]: every step with the run it belongs to. *)
Definition join_run (db : list Db.obj) : list (Db.Step.t * Db.Run.t) :=
  omap (λ s, r ← List.find (λ r, bool_decide (Db.Run.id r = Db.Step.run_id s))
                   (runs_table db);
             Some (s, r))
    (steps_table db).

(** [(step.stats or {}).get("rejection_rate", 0)] *)
Definition stats_rate (stats : option StatsDict) : Q :=
  match stats with
  | Some st => rejection_rate st
  | None => 0
  end.

(** The two tests of the loop of [query_steps] on a rate: [true] when
    the step is kept. *)
Definition rate_within (lo hi : option Q) (rate : Q) : bool :=
  negb (float_truthy lo && negb (Qle_bool (default 0%Q lo) rate))
  && negb (float_truthy hi && negb (Qle_bool rate (default 0%Q hi))).

Section Query.
Context `{RandomSource} `{QueryEngine}.

(** [select(Step).where(and_(Step.id == step_id, Step.run_id == run_id))] *)
Definition select_step (step_id run_id : uuid) : M World (option Db.Step.t) :=
  w ← get;
  mret (List.find (λ s, bool_decide (Db.Step.id s = Some step_id)
                        && bool_decide (Db.Step.run_id s = run_id))
          (steps_table (database w))).

(** [get_step_decisions]; [page] and [page_size] are declared with
    [ge=1], so the handler is entered with both at least 1. *)
Definition get_step_decisions (run_id step_id : uuid)
    (decision_type reason : option string) (page page_size : Z)
    : M World StepDecisionListResponse.t :=
  step ← select_step step_id run_id;
  match step with
  | None =>
    raise (HTTPException 404
             ("Step " +:+ pretty step_id +:+ " not found in run "
              +:+ pretty run_id))
  | Some step =>
    w ← get;
    let conds := decision_conds decision_type reason in
    let query :=
      List.filter (λ d, bool_decide (Db.Decision.step_id d = Some step_id)
                        && and_ conds d)
        (decisions_table (database w)) in
    let total := len query in
    let offset := (page - 1) * page_size in
    let decisions :=
      offset_limit offset page_size
        (order_by Db.Decision.sequence_order query) in
    mret (StepDecisionListResponse.mk step_id (Db.Step.step_name step)
            (decision_out <$> decisions) total page page_size)
  end.

(** [query_steps] *)
Definition query_steps (request : StepQueryRequest.t)
    : M World StepQueryResponse.t :=
  w ← get;
  let conds := step_conds request in
  let query := List.filter (and_ conds) (join_run (database w)) in
  let steps :=
    offset_limit (StepQueryRequest.offset request)
      (StepQueryRequest.limit request)
      (order_by (λ sr, - Db.Step.started_at sr.1) query) in
  let filtered :=
    List.filter
      (λ step, rate_within (StepQueryRequest.min_rejection_rate request)
                 (StepQueryRequest.max_rejection_rate request)
                 (stats_rate (Db.Step.stats step)))
      (fst <$> steps) in
  mret (StepQueryResponse.mk (step_query_item <$> filtered) (len filtered)).

(** The two routes behind [get_db]. *)
Definition get_decisions (run_id step_id : uuid)
    (decision_type reason : option string) (page page_size : Z)
    : M World StepDecisionListResponse.t :=
  with_session
    (get_step_decisions run_id step_id decision_type reason page page_size).

Definition post_query_steps (request : StepQueryRequest.t)
    : M World StepQueryResponse.t :=
  with_session (query_steps request).

(** The decisions of a page of a step, and of the pages [1] to [n]. *)
Definition page_of (run_id step_id : uuid) (decision_type reason : option string)
    (page_size : Z) (w : World) (page : nat) : list DecisionOut.t :=
  match (get_decisions run_id step_id decision_type reason
           (Z.of_nat page) page_size w).1 with
  | Ok resp => StepDecisionListResponse.decisions resp
  | Raise _ => []
  end.

Definition pages_upto (run_id step_id : uuid) (decision_type reason : option string)
    (page_size : Z) (w : World) (n : nat) : list DecisionOut.t :=
  concat (page_of run_id step_id decision_type reason page_size w <$> seq 1 n).

(** The decision rows of a step that a filter selects. *)
Definition matching (step_id : uuid) (decision_type reason : option string)
    (w : World) : list Db.Decision.t :=
  List.filter (λ d, bool_decide (Db.Decision.step_id d = Some step_id)
                    && and_ (decision_conds decision_type reason) d)
    (decisions_table (database w)).

(** No row of the database has the identifier [n], and no decision
    row points to a step [n]. *)
Definition unused (n : uuid) (w : World) : Prop :=
  Forall (λ o, Db.obj_id o ≠ Some n
               ∧ match o with
                 | Db.ODecision d => Db.Decision.step_id d ≠ Some n
                 | _ => True
                 end)
    (database w).

End Query.

(** What [get_step_decisions] reads back of a kept decision: [id] is
    the primary key of its row, [idx] its position among the kept
    decisions, [created_at] the time its row was given. *)
Definition read_back (id : uuid) (created_at : Z) (idx : nat) (d : Decision)
    : DecisionOut.t :=
  DecisionOut.mk (Some id) (candidate_id d) (type_name (decision_type d))
    (reason d) (score d) (Z.of_nat idx) (metadata d) created_at.

(** The request of [query_steps] with other bounds on the rejection
    rate. *)
Definition with_bounds (request : StepQueryRequest.t) (lo hi : option Q)
    : StepQueryRequest.t :=
  StepQueryRequest.mk (StepQueryRequest.pipeline_type request)
    (StepQueryRequest.step_name request) lo hi
    (StepQueryRequest.date_from request) (StepQueryRequest.date_to request)
    (StepQueryRequest.limit request) (StepQueryRequest.offset request).

(** An engine within the contract of [ORDER BY]: rows with the same
    key stay in the order of the table. *)
#[program] Definition StableEngine : QueryEngine := {|
  order_by A key l := sort_by key l
|}.
Next Obligation.
  intros A key l. induction l as [|x l IH]; [done|].
  cbn [sort_by foldr]. fold (sort_by key l).
  trans (x :: sort_by key l); [|by constructor].
  generalize (sort_by key l). clear. intros l.
  induction l as [|y l IH]; cbn [insert_by]; [done|].
  case_decide; [done|]. rewrite IH. apply Permutation_swap.
Qed.
Next Obligation.
  intros A key l. induction l as [|x l IH]; [constructor|].
  cbn [sort_by foldr]. fold (sort_by key l).
  revert IH. generalize (sort_by key l). clear. intros l.
  induction l as [|y l IH]; cbn [insert_by fmap list_fmap]; intros Hs.
  - repeat constructor.
  - apply StronglySorted_inv in Hs as [Hl Hy]. case_decide as Hxy.
    + cbn [fmap list_fmap]. constructor; [by constructor|].
      constructor; [done|]. eapply Forall_impl; [exact Hy|].
      intros z Hz. cbn beta in Hz. lia.
    + cbn [fmap list_fmap]. constructor; [by apply IH|].
      apply Forall_forall. intros k Hk.
      apply list_elem_of_fmap in Hk as (z & -> & Hz).
      assert (z ∈ x :: l) as [->|Hzl]%elem_of_cons; [|lia|].
      { revert Hz. clear. induction l as [|y l IH]; cbn [insert_by].
        - done.
        - case_decide; [done|]. rewrite !elem_of_cons.
          intros [->|Hz]; [by right; left|].
          apply IH in Hz. apply elem_of_cons in Hz as [->|Hz]; auto. }
      rewrite Forall_forall in Hy. apply Hy. by apply list_elem_of_fmap_2.
Qed.

(** A request for the steps of every run, at most [limit] of them,
    with bounds on the rejection rate. *)
Definition steps_request (lo hi : option Q) (limit : Z) : StepQueryRequest.t :=
  StepQueryRequest.mk None None lo hi None None limit 0.

(** The world after the four decisions were recorded as a step of its
    run, and the row of that step. *)
Definition recorded_world : @World WindowSource :=
  (@post_step WindowSource 7%nat step_of_decisions one_run_world).2.

Definition recorded_step : Db.Step.t :=
  Db.Step.mk (Some 100%nat) 7%nat "filter" 0 None None None None
    (expected_stats step_of_decisions) 1700000000 (Some 1700000001).

(** * Properties *)

(** ** Counting *)

Lemma len_nil {A} : len (@nil A) = 0.
Proof. reflexivity. Qed.

Lemma len_cons {A} (x : A) xs : len (x :: xs) = len xs + 1.
Proof. unfold len. cbn [length]. lia. Qed.

Lemma len_app {A} (xs ys : list A) : len (xs ++ ys) = len xs + len ys.
Proof. unfold len. rewrite length_app. lia. Qed.

Lemma len_nonneg {A} (xs : list A) : 0 ≤ len xs.
Proof. unfold len. lia. Qed.

Lemma is_type_true t d : is_type t d = true ↔ decision_type d = t.
Proof. unfold is_type. apply bool_decide_eq_true. Qed.

Lemma sum_ones_from t acc ds :
  foldl (λ acc d, if is_type t d then acc + 1 else acc) acc ds
  = acc + count_type t ds.
Proof.
  revert acc. induction ds as [|d ds IH]; intros acc; cbn [foldl].
  - unfold count_type, len. cbn. lia.
  - rewrite IH. unfold count_type. rewrite filter_cons.
    unfold is_type. destruct (decide (decision_type d = t)) as [Ht|Ht].
    + rewrite bool_decide_eq_true_2 by done. rewrite len_cons. lia.
    + rewrite bool_decide_eq_false_2 by done. lia.
Qed.

Lemma sum_ones_count t ds : sum_ones (is_type t) ds = count_type t ds.
Proof. unfold sum_ones. rewrite sum_ones_from. lia. Qed.

(** Every decision has exactly one of the three types. *)
Lemma count_type_total ds :
  count_type accepted ds + count_type rejected ds + count_type pending ds = len ds.
Proof.
  unfold count_type. induction ds as [|d ds IH]; [done|].
  rewrite !filter_cons, len_cons.
  destruct (decision_type d); repeat case_decide; try congruence;
    rewrite ?len_cons; lia.
Qed.

Lemma count_reason_of_nonneg r ds : 0 ≤ count_reason_of r ds.
Proof. apply len_nonneg. Qed.

Lemma count_reason_of_cons r d ds :
  count_reason_of r (d :: ds)
  = (if decide (rejected_as r d) then 1 else 0) + count_reason_of r ds.
Proof.
  unfold count_reason_of. rewrite filter_cons.
  case_decide; rewrite ?len_cons; lia.
Qed.

(** The [reasons] dictionary after the loop, started from [m]. *)
Lemma foldl_count_reason ds : ∀ (m : gmap string Z) r,
  foldl count_reason m ds !! r =
    match m !! r with
    | Some c => Some (c + count_reason_of r ds)
    | None => if decide (count_reason_of r ds = 0) then None
              else Some (count_reason_of r ds)
    end.
Proof.
  induction ds as [|d ds IH]; intros m r; cbn [foldl].
  - unfold count_reason_of, len. cbn.
    destruct (m !! r); [f_equal; lia | done].
  - rewrite IH, count_reason_of_cons. unfold count_reason.
    pose proof (count_reason_of_nonneg r ds) as Hnn.
    destruct (is_type rejected d) eqn:Hty.
    + apply is_type_true in Hty. cbn zeta.
      destruct (decide (reason_key d = r)) as [<-|Hne].
      * rewrite lookup_insert_eq.
        rewrite (decide_True (P := rejected_as _ d)) by done.
        destruct (m !! reason_key d); cbv [default from_option id].
        -- f_equal. lia.
        -- case_decide; [lia | f_equal; lia].
      * rewrite lookup_insert_ne by done.
        rewrite (decide_False (P := rejected_as r d)) by (intros [_ ?]; done).
        destruct (m !! r); [f_equal; lia|].
        repeat case_decide; try lia; f_equal; lia.
    + rewrite (decide_False (P := rejected_as r d)).
      2:{ intros [Hd _]. apply is_type_true in Hd. congruence. }
      destruct (m !! r); [f_equal; lia|].
      repeat case_decide; try lia; f_equal; lia.
Qed.

Lemma compute_stats_input_count ds : input_count (compute_stats ds) = len ds.
Proof. by destruct ds. Qed.

Lemma compute_stats_output_count ds :
  output_count (compute_stats ds) = count_type accepted ds.
Proof.
  destruct ds; [done|]. cbn [compute_stats output_count].
  apply sum_ones_count.
Qed.

Lemma compute_stats_reasons ds r :
  rejection_reasons (compute_stats ds) !! r =
    if decide (count_reason_of r ds = 0) then None
    else Some (count_reason_of r ds).
Proof.
  destruct ds as [|d ds]; [done|].
  cbn [compute_stats rejection_reasons].
  by rewrite foldl_count_reason, lookup_empty.
Qed.

Lemma compute_stats_rate ds :
  rejection_rate (compute_stats ds) =
    if decide (len ds = 0) then 0%Q
    else true_div (count_type rejected ds) (len ds).
Proof.
  destruct ds as [|d ds]; [done|].
  cbn [compute_stats rejection_rate].
  by rewrite sum_ones_count.
Qed.

(** *** The bucket of a rejection, on its [reason] field *)

Lemma rejected_as_counted_under r d : rejected_as r d ↔ counted_under r d.
Proof.
  unfold rejected_as, counted_under, reason_key, str_or.
  destruct (reason d) as [[|c s]|]; split; intros [Hty Hr];
    (split; [done|]).
  - right. split; [done|]. by right.
  - destruct Hr as [[[= <-] Hne]|[-> _]]; done.
  - left. subst r. done.
  - destruct Hr as [[[= <-] _]|[_ [?|?]]]; done.
  - right. split; [done|]. by left.
  - destruct Hr as [[? _]|[-> _]]; done.
Qed.

Lemma filter_counted_under r (ds : list Decision) :
  filter (counted_under r) ds = filter (rejected_as r) ds.
Proof. apply list_filter_iff. intros d. symmetry. apply rejected_as_counted_under. Qed.

Lemma count_under_reason_of r (ds : list Decision) : count_under r ds = count_reason_of r ds.
Proof. unfold count_under, count_reason_of. by rewrite filter_counted_under. Qed.

(** *** Division *)

Lemma round_half_even_range p q :
  0 < q → p / q ≤ round_half_even p q ≤ p / q + 1.
Proof. intros Hq. unfold round_half_even. repeat case_match; lia. Qed.

Lemma round_half_even_exact p q :
  0 < q → p mod q = 0 → round_half_even p q = p / q.
Proof.
  intros Hq Hmod. unfold round_half_even. rewrite Hmod.
  by rewrite decide_True by lia.
Qed.

Lemma round_half_even_le p q N :
  0 < q → p ≤ N * q → round_half_even p q ≤ N.
Proof.
  intros Hq Hp. pose proof (Z.div_mod p q ltac:(lia)) as Hdm.
  pose proof (Z.mod_pos_bound p q Hq) as Hr.
  unfold round_half_even. repeat case_match; nia.
Qed.

(** The rounded quotient is within a half of the quotient. *)
Lemma round_half_even_near p q :
  0 < q → - q ≤ 2 * (round_half_even p q * q - p) ≤ q.
Proof.
  intros Hq. pose proof (Z.div_mod p q ltac:(lia)) as Hdm.
  pose proof (Z.mod_pos_bound p q Hq) as Hr.
  unfold round_half_even. repeat case_match; nia.
Qed.

Lemma binade_unit a b :
  0 < a → a ≤ b → binade a b ≤ 0 ∧ (a < b → binade a b ≤ -1).
Proof.
  intros Ha Hab. pose proof (Z.log2_le_mono a b Hab) as Hlog.
  unfold binade. case_decide as He0.
  - assert (Z.log2 a - Z.log2 b = 0) as -> by lia.
    change (2 ^ 0) with 1. case_decide; lia.
  - case_decide; lia.
Qed.

(** A quotient between 0 and 1 is rounded to a multiple of
    [2 ^ - shift], with [shift] at least 53 unless the quotient is 1. *)
Lemma true_div_unit a b :
  0 < a → a ≤ b →
  ∃ shift, 52 ≤ shift ∧ (a < b → 53 ≤ shift)
    ∧ true_div a b
      = Qred (Qmake (round_half_even (a * 2 ^ shift) b) (Z.to_pos (2 ^ shift))).
Proof.
  intros Ha Hab. destruct (binade_unit a b Ha Hab) as [He0 He1].
  unfold true_div. rewrite decide_False by lia.
  rewrite !Z.abs_eq by lia.
  rewrite (Z.sgn_pos a), (Z.sgn_pos b) by lia.
  set (e := Z.max (binade a b) (-1022)).
  exists (52 - e). rewrite decide_True by lia.
  split_and!; [lia | lia |]. by rewrite Z.mul_1_l.
Qed.

Lemma true_div_range a b :
  0 ≤ a → a ≤ b → 0 < b → (0 <= true_div a b)%Q ∧ (true_div a b <= 1)%Q.
Proof.
  intros Ha Hab Hb. destruct (decide (a = 0)) as [->|Hne].
  { unfold true_div. by rewrite decide_True by done. }
  destruct (true_div_unit a b) as (shift & Hs & _ & ->); [lia..|].
  rewrite !Qred_correct.
  assert (0 < 2 ^ shift) as Hpow by (apply Z.pow_pos_nonneg; lia).
  pose proof (round_half_even_range (a * 2 ^ shift) b Hb) as [Hlo _].
  pose proof (round_half_even_le (a * 2 ^ shift) b (2 ^ shift) Hb ltac:(nia)) as Hhi.
  assert (0 ≤ a * 2 ^ shift / b) by (apply Z.div_pos; nia).
  unfold Qle. cbn [Qnum Qden]. rewrite Z2Pos.id by done. lia.
Qed.

(** The double is within [2 ^ -54] of the quotient ... *)
Lemma true_div_near a b :
  0 ≤ a → a ≤ b → 0 < b →
  (inject_Z a / inject_Z b - (1 # 18014398509481984) <= true_div a b)%Q
  ∧ (true_div a b <= inject_Z a / inject_Z b + (1 # 18014398509481984))%Q.
Proof.
  intros Ha Hab Hb.
  assert (inject_Z a / inject_Z b == a # Z.to_pos b)%Q as ->.
  { rewrite (Qmake_Qdiv a (Z.to_pos b)). by rewrite Z2Pos.id. }
  destruct (decide (a = 0)) as [->|Hne].
  { unfold true_div. rewrite decide_True by done.
    unfold Qle, Qminus, Qplus, Qopp. cbn. lia. }
  destruct (true_div_unit a b) as (shift & Hs & Hs1 & ->); [lia..|].
  rewrite !Qred_correct.
  assert (0 < 2 ^ shift) as Hpow by (apply Z.pow_pos_nonneg; lia).
  pose proof (round_half_even_near (a * 2 ^ shift) b Hb) as Hnear.
  set (m := round_half_even (a * 2 ^ shift) b) in *.
  assert (a = b ∨ 2 ^ 53 ≤ 2 ^ shift) as Hcase.
  { destruct (decide (a = b)) as [|Hlt]; [by left|right].
    apply Z.pow_le_mono_r; lia. }
  assert (a = b → m * b = a * 2 ^ shift) as Hexact.
  { intros Heq. unfold m.
    assert ((a * 2 ^ shift) mod b = 0) as Hmod
      by (rewrite Heq, Z.mul_comm; apply Z.mod_mul; lia).
    rewrite round_half_even_exact by done.
    pose proof (Z.div_mod (a * 2 ^ shift) b ltac:(lia)). nia. }
  unfold Qle, Qminus, Qplus, Qopp. cbn [Qnum Qden].
  rewrite !Pos2Z.inj_mul, !Z2Pos.id by done.
  change (Z.pos 18014398509481984) with (2 ^ 54).
  change (2 ^ 53) with 9007199254740992 in Hcase.
  change (2 ^ 54) with 18014398509481984.
  set (s := 2 ^ shift) in *. clearbody s m.
  split; destruct Hcase as [Heq|Hbig]; try (specialize (Hexact Heq)); nia.
Qed.

(** ... and it is the quotient when the quotient has no more than 53
    binary places. *)
Lemma true_div_exact a b :
  0 ≤ a → a ≤ b → 0 < b → (b | a * 2 ^ 53) →
  (true_div a b == inject_Z a / inject_Z b)%Q.
Proof.
  intros Ha Hab Hb Hdiv.
  assert (inject_Z a / inject_Z b == a # Z.to_pos b)%Q as ->.
  { rewrite (Qmake_Qdiv a (Z.to_pos b)). by rewrite Z2Pos.id. }
  destruct (decide (a = 0)) as [->|Hne].
  { unfold true_div. by rewrite decide_True by done. }
  destruct (true_div_unit a b) as (shift & Hs & Hs1 & ->); [lia..|].
  rewrite Qred_correct.
  assert (0 < 2 ^ shift) as Hpow by (apply Z.pow_pos_nonneg; lia).
  assert ((a * 2 ^ shift) mod b = 0) as Hmod.
  { destruct (decide (a = b)) as [->|Hlt].
    - rewrite Z.mul_comm. apply Z.mod_mul. lia.
    - apply Z.mod_divide; [lia|].
      replace shift with (53 + (shift - 53)) by lia.
      rewrite Z.pow_add_r by lia. rewrite Z.mul_assoc.
      by apply Z.divide_mul_l. }
  rewrite round_half_even_exact by done.
  pose proof (Z.div_mod (a * 2 ^ shift) b ltac:(lia)) as Hdm.
  unfold Qeq. cbn [Qnum Qden]. rewrite !Z2Pos.id by done. nia.
Qed.

(** A rejection whose reason is the empty string is counted under
    ["unknown"], with the one that has no reason. *)
Example compute_stats_empty_reason :
  let s := compute_stats [mkDecision "a" rejected (Some "") None None None;
                          mkDecision "b" rejected None None None None;
                          mkDecision "c" rejected (Some "price") None None None] in
  rejection_reasons s !! "unknown" = Some 2
  ∧ rejection_reasons s !! "price" = Some 1
  ∧ rejection_reasons s !! "" = None
  ∧ rejection_rate s = 1%Q.
Proof. vm_compute. done. Qed.

(** One rejection in three: the double [0.3333333333333333]. *)
Example true_div_third :
  true_div 1 3 = (6004799503160661 # 18014398509481984)%Q.
Proof. vm_compute. reflexivity. Qed.

Lemma count_rejected_bounds ds : 0 ≤ count_type rejected ds ≤ len ds.
Proof.
  pose proof (count_type_total ds).
  pose proof (len_nonneg (filter (λ d, decision_type d = accepted) ds)).
  pose proof (len_nonneg (filter (λ d, decision_type d = rejected) ds)).
  pose proof (len_nonneg (filter (λ d, decision_type d = pending) ds)).
  unfold count_type in *. lia.
Qed.

(** C4: [compute_stats] returns the number of decisions as
    [input_count], the number of accepted ones as [output_count], and
    as [rejection_rate] the quotient of the number of rejected ones by
    [input_count], as Python divides: the double nearest to the
    quotient, which is within [2 ^ -54] of it and is the quotient
    itself when that has no more than 53 binary places; the rate is
    [0] when there is no decision (so that the empty list yields the
    all-zero stats and no division happens).  [rejection_reasons] maps
    each reason to the number of rejected decisions that state it,
    ["unknown"] to the number of those that state none on top of
    those that state ["unknown"], and has no other entry; a reason
    that is the empty string counts as none. *)
Theorem compute_stats_fields (ds : list Decision) :
  let s := compute_stats ds in
  input_count s = len ds
  ∧ output_count s = count_type accepted ds
  ∧ rejection_rate s =
      (if decide (input_count s = 0) then 0%Q
       else true_div (count_type rejected ds) (input_count s))
  ∧ (input_count s ≠ 0 →
     (inject_Z (count_type rejected ds) / inject_Z (input_count s)
        - (1 # 18014398509481984) <= rejection_rate s)%Q
     ∧ (rejection_rate s
          <= inject_Z (count_type rejected ds) / inject_Z (input_count s)
             + (1 # 18014398509481984))%Q)
  ∧ (input_count s ≠ 0 →
     (input_count s | count_type rejected ds * 2 ^ 53) →
     (rejection_rate s
        == inject_Z (count_type rejected ds) / inject_Z (input_count s))%Q)
  ∧ (∀ r, rejection_reasons s !! r =
            if decide (count_under r ds = 0) then None
            else Some (count_under r ds))
  ∧ (∀ r, r ≠ "" → r ≠ "unknown" →
       count_under r ds
       = len (filter (λ d, decision_type d = rejected ∧ reason d = Some r) ds))
  ∧ count_under "unknown" ds
    = len (filter (λ d, decision_type d = rejected
                        ∧ (reason d = None ∨ reason d = Some ""
                           ∨ reason d = Some "unknown")) ds)
  ∧ count_under "" ds = 0
  ∧ compute_stats [] = mkStats 0 0 0%Q ∅.
Proof.
  cbn zeta. rewrite compute_stats_input_count, compute_stats_output_count.
  pose proof (count_rejected_bounds ds) as Hrej.
  pose proof (len_nonneg ds) as Hlen.
  split_and!; [done | done | apply compute_stats_rate | | | | | | | done].
  - intros Hne. rewrite compute_stats_rate, decide_False by done.
    apply true_div_near; lia.
  - intros Hne Hdiv. rewrite compute_stats_rate, decide_False by done.
    apply true_div_exact; [lia | lia | lia | done].
  - intros r. rewrite compute_stats_reasons.
    by rewrite count_under_reason_of.
  - intros r Hr Hu. unfold count_under. f_equal. f_equal.
    apply list_filter_iff. intros d. unfold counted_under.
    intuition congruence.
  - unfold count_under. f_equal. f_equal.
    apply list_filter_iff. intros d. unfold counted_under.
    intuition congruence.
  - clear Hrej Hlen. unfold count_under.
    induction ds as [|d ds IH]; [done|].
    rewrite filter_cons, decide_False; [exact IH|].
    unfold counted_under. intros [_ [[_ ?]|[? _]]]; done.
Qed.

(** In the stats of any list, [output_count] and the
    numbers of rejected and of pending decisions add up to
    [input_count]. *)
Lemma compute_stats_totals (ds : list Decision) :
  output_count (compute_stats ds) + count_type rejected ds + count_type pending ds
  = input_count (compute_stats ds).
Proof.
  rewrite compute_stats_output_count, compute_stats_input_count.
  apply count_type_total.
Qed.

(** ** Stable sorting by a key *)

Section SortBy.
Context {A : Type} (key : A → Z).

Lemma insert_by_Permutation x l : insert_by key x l ≡ₚ x :: l.
Proof.
  induction l as [|y l IH]; cbn [insert_by]; [done|].
  case_decide; [done|]. rewrite IH. apply Permutation_swap.
Qed.

Lemma sort_by_Permutation l : sort_by key l ≡ₚ l.
Proof.
  induction l as [|x l IH]; [done|]. cbn [sort_by foldr].
  rewrite insert_by_Permutation. by constructor.
Qed.

Lemma sort_by_length l : length (sort_by key l) = length l.
Proof. apply Permutation_length, sort_by_Permutation. Qed.

Lemma insert_by_sorted x l :
  StronglySorted Z.le (key <$> l) →
  StronglySorted Z.le (key <$> insert_by key x l).
Proof.
  induction l as [|y l IH]; cbn [insert_by fmap list_fmap]; intros Hs.
  - repeat constructor.
  - apply StronglySorted_inv in Hs as [Hl Hy]. case_decide as Hxy.
    + cbn [fmap list_fmap]. constructor; [by constructor|].
      constructor; [done|]. eapply Forall_impl; [exact Hy|].
      intros z Hz. cbn beta in Hz. lia.
    + cbn [fmap list_fmap]. constructor; [by apply IH|].
      rewrite insert_by_Permutation. cbn [fmap list_fmap].
      constructor; [lia | done].
Qed.

Lemma sort_by_sorted l : StronglySorted Z.le (key <$> sort_by key l).
Proof.
  induction l as [|x l IH]; [constructor|].
  cbn [sort_by foldr]. by apply insert_by_sorted.
Qed.

(** Stability: the elements with a given key keep their order. *)
Lemma insert_by_stable k x l :
  filter (λ y, key y = k) (insert_by key x l) = filter (λ y, key y = k) (x :: l).
Proof.
  induction l as [|y l IH]; cbn [insert_by]; [done|].
  case_decide as Hxy; [done|].
  rewrite filter_cons, IH, !filter_cons.
  repeat case_decide; try done; lia.
Qed.

Lemma sort_by_stable k l :
  filter (λ y, key y = k) (sort_by key l) = filter (λ y, key y = k) l.
Proof.
  induction l as [|x l IH]; [done|]. cbn [sort_by foldr].
  rewrite insert_by_stable, !filter_cons. fold (sort_by key l). by rewrite IH.
Qed.

(** A list that is already in order is left as it is. *)
Lemma sort_by_sorted_id l :
  StronglySorted Z.le (key <$> l) → sort_by key l = l.
Proof.
  induction l as [|x l IH]; [done|]. cbn [fmap list_fmap].
  intros [Hl Hx]%StronglySorted_inv. cbn [sort_by foldr].
  fold (sort_by key l). rewrite (IH Hl).
  destruct l as [|y l]; [done|]. cbn [insert_by].
  apply Forall_cons in Hx as [Hxy _]. by rewrite decide_True.
Qed.

(** Two lists in order of their keys that hold, for every key, the
    same elements in the same order are the same list: there is one
    stable sort, and [sort_by] is it. *)
Lemma stable_sorted_unique l1 : ∀ l2,
  StronglySorted Z.le (key <$> l1) →
  StronglySorted Z.le (key <$> l2) →
  (∀ k, filter (λ y, key y = k) l1 = filter (λ y, key y = k) l2) →
  l1 = l2.
Proof.
  induction l1 as [|x l1 IH]; intros l2 Hs1 Hs2 Hsame.
  - destruct l2 as [|y l2]; [done|].
    specialize (Hsame (key y)). by rewrite filter_cons, decide_True in Hsame.
  - destruct l2 as [|y l2].
    { specialize (Hsame (key x)). by rewrite filter_cons, decide_True in Hsame. }
    cbn [fmap list_fmap] in Hs1, Hs2.
    apply StronglySorted_inv in Hs1 as [Hs1 Hx], Hs2 as [Hs2 Hy].
    rewrite Forall_forall in Hx, Hy.
    assert (key x = key y) as Hxy.
    { destruct (decide (key x = key y)) as [|Hne]; [done|]. exfalso.
      assert (x ∈ l2) as Hx2.
      { assert (x ∈ filter (λ z, key z = key x) (y :: l2)) as Hin
          by (rewrite <- Hsame, filter_cons, decide_True by done;
              apply list_elem_of_here).
        apply list_elem_of_filter in Hin as [_ [->|Hin]%elem_of_cons]; done. }
      assert (y ∈ l1) as Hy1.
      { assert (y ∈ filter (λ z, key z = key y) (x :: l1)) as Hin
          by (rewrite Hsame, filter_cons, decide_True by done;
              apply list_elem_of_here).
        apply list_elem_of_filter in Hin as [_ [->|Hin]%elem_of_cons]; done. }
      pose proof (Hx (key y) (list_elem_of_fmap_2 key _ _ Hy1)).
      pose proof (Hy (key x) (list_elem_of_fmap_2 key _ _ Hx2)). lia. }
    pose proof (Hsame (key x)) as Hhead.
    rewrite !filter_cons, !decide_True in Hhead by done.
    injection Hhead as -> Htail. f_equal.
    apply IH; [done | done |]. intros k.
    destruct (decide (k = key y)) as [->|Hk]; [done|].
    specialize (Hsame k). rewrite !filter_cons, !decide_False in Hsame by done.
    done.
Qed.

Lemma sort_by_unique l l' :
  StronglySorted Z.le (key <$> l') →
  (∀ k, filter (λ y, key y = k) l' = filter (λ y, key y = k) l) →
  l' = sort_by key l.
Proof.
  intros Hs Hsame. apply stable_sorted_unique; [done | apply sort_by_sorted |].
  intros k. by rewrite sort_by_stable.
Qed.

End SortBy.

Lemma sorted_le_NoDup_lt (ks : list Z) :
  StronglySorted Z.le ks → NoDup ks → StronglySorted Z.lt ks.
Proof.
  induction ks as [|k ks IH]; [constructor|].
  intros [Hs Hk]%StronglySorted_inv [Hnin Hnd]%NoDup_cons.
  constructor; [by apply IH|].
  apply Forall_forall. intros z Hz.
  rewrite Forall_forall in Hk. specialize (Hk z Hz).
  assert (k ≠ z) by (intros ->; done). lia.
Qed.

Lemma sorted_lt_NoDup (ks : list Z) : StronglySorted Z.lt ks → NoDup ks.
Proof.
  induction 1 as [|k ks Hs IH Hk]; constructor; [|done].
  intros Hin. rewrite Forall_forall in Hk. specialize (Hk k Hin). lia.
Qed.

(** ** The partition loop *)

Lemma dict_append_keys key d br :
  (dict_append key d br).*1 =
    if decide (key ∈ br.*1) then br.*1 else br.*1 ++ [key].
Proof.
  induction br as [|[k items] br IH]; cbn [dict_append fmap list_fmap fst].
  - rewrite decide_False; [done | apply not_elem_of_nil].
  - destruct (decide (k = key)) as [->|Hne].
    + rewrite decide_True; [done | apply list_elem_of_here].
    + cbn [fmap list_fmap fst]. fold (fmap (M := list) (@fst string (list Decision))).
      rewrite IH. destruct (decide (key ∈ br.*1)) as [Hin|Hnin].
      * rewrite decide_True; [done | by apply list_elem_of_further].
      * rewrite decide_False; [done|].
        intros [?|?]%elem_of_cons; congruence.
Qed.

Lemma dict_get_append key d br k :
  dict_get k (dict_append key d br) =
    dict_get k br ++ (if decide (key = k) then [d] else []).
Proof.
  induction br as [|[k' items] br IH]; cbn [dict_append dict_get].
  - destruct (decide (key = k)); done.
  - destruct (decide (k' = key)) as [->|Hne]; cbn [dict_get].
    + destruct (decide (key = k)); [done | by rewrite app_nil_r].
    + destruct (decide (k' = k)) as [->|Hne'].
      * rewrite decide_False by done. by rewrite app_nil_r.
      * apply IH.
Qed.

Lemma dict_get_notin k br : k ∉ br.*1 → dict_get k br = [].
Proof.
  induction br as [|[k' items] br IH]; [done|].
  cbn [dict_get fmap list_fmap fst]. intros Hnin.
  apply not_elem_of_cons in Hnin as [Hne Hnin].
  rewrite decide_False by done. by apply IH.
Qed.

Lemma partition_of_snoc ds d :
  partition_of (ds ++ [d]) = partition_step (partition_of ds) d.
Proof. unfold partition_of. by rewrite foldl_app. Qed.

Lemma partition_of_accepted ds :
  b_accepted (partition_of ds) = filter (λ d, decision_type d = accepted) ds.
Proof.
  induction ds as [|d ds IH] using rev_ind; [done|].
  rewrite partition_of_snoc, filter_app, filter_cons, filter_nil.
  unfold partition_step. rewrite <- IH.
  destruct (decision_type d); cbn [b_accepted]; try done;
    rewrite decide_False by done; by rewrite app_nil_r.
Qed.

Lemma partition_of_pending ds :
  b_pending (partition_of ds) = filter (λ d, decision_type d = pending) ds.
Proof.
  induction ds as [|d ds IH] using rev_ind; [done|].
  rewrite partition_of_snoc, filter_app, filter_cons, filter_nil.
  unfold partition_step. rewrite <- IH.
  destruct (decision_type d); cbn [b_pending]; try done;
    rewrite decide_False by done; by rewrite app_nil_r.
Qed.

(** Each group of [by_reason] holds the rejections of its bucket, in
    submission order. *)
Lemma partition_of_group ds k :
  dict_get k (b_by_reason (partition_of ds)) = filter (rejected_as k) ds.
Proof.
  induction ds as [|d ds IH] using rev_ind; [done|].
  rewrite partition_of_snoc, filter_app, filter_cons, filter_nil.
  unfold partition_step.
  destruct (decision_type d) eqn:Hty; cbn [b_by_reason].
  - rewrite decide_False by (intros [? _]; congruence).
    by rewrite app_nil_r.
  - rewrite dict_get_append, IH. f_equal.
    destruct (decide (reason_key d = k)) as [Hk|Hk].
    + by rewrite decide_True.
    + rewrite decide_False; [done | by intros [_ ?]].
  - rewrite decide_False by (intros [? _]; congruence).
    by rewrite app_nil_r.
Qed.

Lemma partition_of_keys_NoDup ds : NoDup (b_by_reason (partition_of ds)).*1.
Proof.
  induction ds as [|d ds IH] using rev_ind; [constructor|].
  rewrite partition_of_snoc. unfold partition_step.
  destruct (decision_type d); cbn [b_by_reason]; try done.
  rewrite dict_append_keys. case_decide as Hin; [done|].
  apply NoDup_app. split_and!; [done | | apply NoDup_singleton].
  intros x Hx ->%list_elem_of_singleton. done.
Qed.

(** With distinct keys, an entry of the dictionary is what [dict_get]
    finds under its key. *)
Lemma dict_get_entry br k items :
  NoDup br.*1 → (k, items) ∈ br → dict_get k br = items.
Proof.
  induction br as [|[k' items'] br IH]; [by intros _ ?%elem_of_nil|].
  cbn [fmap list_fmap fst dict_get].
  intros [Hnin Hnd]%NoDup_cons [Heq|Hin]%elem_of_cons.
  - injection Heq as -> ->. by rewrite decide_True.
  - rewrite decide_False; [by apply IH|].
    intros ->. apply Hnin. apply list_elem_of_fmap. by exists (k, items).
Qed.

Lemma partition_of_entries ds :
  Forall (λ entry, entry.2 = filter (rejected_as entry.1) ds)
    (b_by_reason (partition_of ds)).
Proof.
  apply Forall_forall. intros [k items] Hin. cbn [fst snd].
  rewrite <- partition_of_group.
  symmetry. apply dict_get_entry; [apply partition_of_keys_NoDup | done].
Qed.

(** ** Drawing positions *)

Lemma omap_submseteq {A B} (f : A → option B) (l k : list A) :
  l ⊆+ k → omap f l ⊆+ omap f k.
Proof.
  induction 1 as [|x l k _ IH|x y l|x l k _ IH|l k m _ IH1 _ IH2]; cbn [omap list_omap].
  - done.
  - destruct (f x); [by constructor | done].
  - destruct (f x), (f y); try done. apply Permutation_submseteq, Permutation_swap.
  - destruct (f x); [by apply submseteq_cons | done].
  - by etrans.
Qed.

Lemma omap_lookup_seq {A} (pre items : list A) :
  omap (λ i, (pre ++ items) !! i) (seq (length pre) (length items)) = items.
Proof.
  revert pre. induction items as [|x items IH]; intros pre; [done|].
  cbn [length seq omap list_omap].
  rewrite list_lookup_middle by done. f_equal.
  specialize (IH (pre ++ [x])).
  rewrite length_app, Nat.add_1_r, <- app_assoc in IH. exact IH.
Qed.

Lemma omap_lookup_submseteq {A} (items : list A) (positions : list nat) :
  NoDup positions →
  (∀ i, i ∈ positions → (i < length items)%nat) →
  omap (λ i, items !! i) positions ⊆+ items.
Proof.
  intros Hnd Hlt.
  trans (omap (λ i, items !! i) (seq 0 (length items))).
  - apply omap_submseteq, NoDup_submseteq; [done|].
    intros i Hi. apply elem_of_seq. specialize (Hlt i Hi). lia.
  - pose proof (omap_lookup_seq [] items) as Hseq. cbn [app length] in Hseq.
    by rewrite Hseq.
Qed.

Lemma omap_lookup_length {A} (items : list A) (positions : list nat) :
  (∀ i, i ∈ positions → (i < length items)%nat) →
  length (omap (λ i, items !! i) positions) = length positions.
Proof.
  induction positions as [|i positions IH]; intros Hlt; [done|].
  cbn [omap list_omap length].
  destruct (lookup_lt_is_Some_2 items i) as [x ->].
  { apply Hlt, list_elem_of_here. }
  cbn [length]. f_equal. apply IH. intros j Hj. by apply Hlt, list_elem_of_further.
Qed.

Section SamplerFacts.
Context `{RandomSource}.
Implicit Types (self : DecisionSampler) (g : rng) (ds items : list Decision).

Lemma random_sample_Ok {A} (population sel : list A) k g g' :
  random_sample population k g = (Ok sel, g') →
  sel ⊆+ population ∧ len sel = k.
Proof.
  unfold random_sample. case_decide as Hk; [|done].
  assert (Z.to_nat k ≤ length population)%nat as Hle by (unfold len in Hk; lia).
  pose proof (choose_length (length population) (Z.to_nat k) g Hle) as Hlen.
  pose proof (choose_NoDup (length population) (Z.to_nat k) g Hle) as Hnd.
  pose proof (choose_bound (length population) (Z.to_nat k) g) as Hbd.
  destruct (choose _ _ g) as [positions g0]. cbn [fst] in *.
  intros [= <- <-]. split.
  - apply omap_lookup_submseteq; [done|]. intros i Hi. by apply Hbd.
  - unfold len. rewrite omap_lookup_length, Hlen; [lia|].
    intros i Hi. by apply Hbd.
Qed.

Lemma random_sample_returns {A} (population : list A) k g :
  0 ≤ k ≤ len population →
  ∃ sel g', random_sample population k g = (Ok sel, g').
Proof.
  intros Hk. unfold random_sample. rewrite decide_True by done.
  destruct (choose _ _ g) as [positions g0]. eauto.
Qed.

(** One turn of the sampling loop: whatever it adds is part of the
    group ... *)
Lemma sample_group_Ok self acc entry g out g' :
  sample_group self acc entry g = (Ok out, g') →
  ∃ sel, out = acc ++ sel ∧ kept_of self entry.2 sel.
Proof.
  unfold sample_group, kept_of. case_decide as Hsz.
  - intros [= <- <-]. exists entry.2. split_and!; [done..| |done]. lia.
  - unfold mbind, M_bind, bind.
    destruct (random_sample _ _ g) as [[sel|e] g0] eqn:Hrs; [|done].
    intros [= <- <-]. apply random_sample_Ok in Hrs as [Hsub Hlen].
    exists sel. split_and!; [done | done | lia | lia].
Qed.

(** ... a group within the cap is taken whole, and the generator is
    left alone ... *)
Lemma sample_group_whole self acc entry g :
  len entry.2 ≤ per_reason self →
  sample_group self acc entry g = (Ok (acc ++ entry.2), g).
Proof. intros Hsz. unfold sample_group. by rewrite decide_True. Qed.

(** ... and with a cap that is not negative, the turn returns. *)
Lemma sample_group_returns self acc entry g :
  0 ≤ per_reason self →
  ∃ out g', sample_group self acc entry g = (Ok out, g').
Proof.
  intros Hk. unfold sample_group. case_decide as Hsz; [by eauto|].
  unfold mbind, M_bind, bind.
  destruct (random_sample_returns entry.2 (per_reason self) g) as (sel & g0 & ->);
    [lia | by eauto].
Qed.

Lemma for_each_cons {S A B} (x : A) xs (body : B → A → M S B) b s :
  for_each (x :: xs) body b s =
    match body b x s with
    | (Ok b', s') => for_each xs body b' s'
    | (Raise e, s') => (Raise e, s')
    end.
Proof. reflexivity. Qed.

Lemma for_each_sample_group_Ok self br : ∀ acc g out g',
  for_each br (sample_group self) acc g = (Ok out, g') →
  ∃ sels, out = acc ++ concat sels
          ∧ Forall2 (λ entry sel, kept_of self entry.2 sel) br sels.
Proof.
  induction br as [|entry br IH]; intros acc g out g'.
  - intros [= <- <-]. exists []. by rewrite app_nil_r.
  - rewrite for_each_cons.
    destruct (sample_group self acc entry g) as [[acc'|e] g0] eqn:Hsg; [|done].
    intros Hrest. apply sample_group_Ok in Hsg as (sel & -> & Hsel).
    apply IH in Hrest as (sels & -> & Hsels).
    exists (sel :: sels). cbn [concat]. rewrite app_assoc. by split; [|constructor].
Qed.

Lemma for_each_sample_group_returns self br : ∀ acc g,
  0 ≤ per_reason self →
  ∃ out g', for_each br (sample_group self) acc g = (Ok out, g').
Proof.
  induction br as [|entry br IH]; intros acc g Hk; [by eexists _, _|].
  rewrite for_each_cons.
  destruct (sample_group_returns self acc entry g Hk) as (acc' & g0 & ->).
  by apply IH.
Qed.

Lemma for_each_sample_group_whole self br : ∀ acc g,
  Forall (λ entry, len entry.2 ≤ per_reason self) br →
  for_each br (sample_group self) acc g = (Ok (acc ++ concat br.*2), g).
Proof.
  induction br as [|entry br IH]; intros acc g Hall.
  - cbn. by rewrite app_nil_r.
  - apply Forall_cons in Hall as [Hsz Hall].
    rewrite for_each_cons, sample_group_whole by done.
    rewrite IH by done. cbn [fmap list_fmap concat]. by rewrite app_assoc.
Qed.

End SamplerFacts.

(** ** Lists and multisets *)

Lemma filter_all {A} (P : A → Prop) `{∀ x, base.Decision (P x)} (l : list A) :
  Forall P l → filter P l = l.
Proof.
  induction 1 as [|x l Hx _ IH]; [done|].
  rewrite filter_cons, decide_True by done. by rewrite IH.
Qed.

Lemma filter_none {A} (P : A → Prop) `{∀ x, base.Decision (P x)} (l : list A) :
  Forall (λ x, ¬ P x) l → filter P l = [].
Proof.
  induction 1 as [|x l Hx _ IH]; [done|].
  by rewrite filter_cons, decide_False.
Qed.

Lemma submseteq_NoDup {A} (l k : list A) : l ⊆+ k → NoDup k → NoDup l.
Proof.
  intros [k' Hk]%submseteq_Permutation Hnd.
  rewrite Hk in Hnd. by apply NoDup_app in Hnd as [? _].
Qed.

Lemma submseteq_Forall {A} (P : A → Prop) (l k : list A) :
  l ⊆+ k → Forall P k → Forall P l.
Proof.
  intros Hsub Hk. apply Forall_forall. intros x Hx.
  rewrite Forall_forall in Hk. by eapply Hk, elem_of_submseteq.
Qed.

Lemma concat_submseteq {A} (ls ks : list (list A)) :
  Forall2 submseteq ls ks → concat ls ⊆+ concat ks.
Proof.
  induction 1 as [|l k ls ks Hlk _ IH]; [done|].
  cbn [concat]. by apply submseteq_app.
Qed.

Lemma by_type_Permutation ds :
  filter (λ d, decision_type d = accepted) ds
  ++ filter (λ d, decision_type d = rejected) ds
  ++ filter (λ d, decision_type d = pending) ds ≡ₚ ds.
Proof.
  induction ds as [|d ds IH]; [done|]. rewrite !filter_cons.
  destruct (decision_type d); repeat case_decide; try congruence.
  - cbn [app]. by constructor.
  - cbn [app]. rewrite <- Permutation_middle. by constructor.
  - rewrite app_assoc, <- Permutation_middle, <- app_assoc. by constructor.
Qed.

Lemma dict_append_concat key d br :
  concat (dict_append key d br).*2 ≡ₚ concat br.*2 ++ [d].
Proof.
  induction br as [|[k items] br IH]; [done|].
  cbn [dict_append]. case_decide; cbn [fmap list_fmap snd concat].
  - rewrite <- !app_assoc. f_equiv. apply Permutation_app_comm.
  - fold (fmap (M := list) (@snd string (list Decision))).
    rewrite IH. by rewrite app_assoc.
Qed.

Lemma partition_of_rejected ds :
  concat (b_by_reason (partition_of ds)).*2
  ≡ₚ filter (λ d, decision_type d = rejected) ds.
Proof.
  induction ds as [|d ds IH] using rev_ind; [done|].
  rewrite partition_of_snoc, filter_app, filter_cons, filter_nil.
  unfold partition_step.
  destruct (decision_type d); cbn [b_by_reason]; repeat case_decide;
    try congruence; rewrite ?app_nil_r; try done.
  by rewrite dict_append_concat, IH.
Qed.

(** The sampling loop keeps nothing of a bucket that has no group. *)
Lemma kept_of_no_bucket self r br sels :
  r ∉ br.*1 →
  Forall (λ entry, Forall (rejected_as entry.1) entry.2) br →
  Forall2 (λ entry sel, kept_of self entry.2 sel) br sels →
  filter (rejected_as r) (concat sels) = [].
Proof.
  intros Hnin Hbr Hsels. revert Hnin Hbr.
  induction Hsels as [|[k items] sel br sels Hsel _ IH]; intros Hnin Hbr; [done|].
  cbn [fmap list_fmap fst] in Hnin. apply not_elem_of_cons in Hnin as [Hne Hnin].
  apply Forall_cons in Hbr as [Hitems Hbr]. cbn [fst snd] in *.
  cbn [concat]. rewrite filter_app, IH, app_nil_r by done.
  apply filter_none. destruct Hsel as [Hsub _].
  eapply Forall_impl; [by eapply submseteq_Forall|].
  intros d [_ Hd] [_ Hr]. congruence.
Qed.

(** What the sampling loop keeps of bucket [r], when the dictionary
    has distinct keys and each group holds rejections of its key. *)
Lemma kept_of_bucket self r br sels :
  0 ≤ per_reason self →
  NoDup br.*1 →
  Forall (λ entry, Forall (rejected_as entry.1) entry.2) br →
  Forall2 (λ entry sel, kept_of self entry.2 sel) br sels →
  kept_of self (dict_get r br) (filter (rejected_as r) (concat sels)).
Proof.
  intros Hk Hnd Hbr Hsels. revert Hnd Hbr.
  induction Hsels as [|[k items] sel br sels Hsel Hsels IH]; intros Hnd Hbr.
  - cbn. unfold kept_of, len. cbn. split_and!; [done | lia | done].
  - cbn [fmap list_fmap fst] in Hnd. apply NoDup_cons in Hnd as [Hnin Hnd].
    apply Forall_cons in Hbr as [Hitems Hbr]. cbn [fst snd] in *.
    cbn [concat dict_get]. rewrite filter_app.
    assert (Forall (rejected_as k) sel) as Hsel_k.
    { destruct Hsel as [Hsub _]. by eapply submseteq_Forall. }
    destruct (decide (k = r)) as [->|Hne].
    + rewrite (filter_all _ sel) by done.
      by rewrite (kept_of_no_bucket self r br sels), app_nil_r.
    + rewrite (filter_none _ sel); [by apply IH|].
      eapply Forall_impl; [exact Hsel_k|].
      intros d [_ Hd] [_ Hr]. congruence.
Qed.

(** ** The sampler *)

Section SampleFacts.
Context `{RandomSource}.
Implicit Types (self : DecisionSampler) (g : rng) (ds out : list Decision).

Lemma sample_under self ds g :
  len ds ≤ threshold self → sample self ds g = (Ok (ds, false), g).
Proof. intros Hlen. unfold sample. by rewrite decide_True. Qed.

Lemma sample_over self ds g :
  ¬ len ds ≤ threshold self →
  sample self ds g =
    match for_each (b_by_reason (partition_of ds)) (sample_group self) [] g with
    | (Ok sampled_rejected, g') =>
      (Ok (sort_by sequence_key
             (b_accepted (partition_of ds) ++ sampled_rejected
              ++ b_pending (partition_of ds)), true), g')
    | (Raise e, g') => (Raise e, g')
    end.
Proof.
  intros Hlen. unfold sample. rewrite decide_False by done.
  unfold mbind, M_bind, bind. fold (partition_of ds).
  by destruct (for_each _ _ _ g) as [[?|?] ?].
Qed.

(** The shape of the output when the threshold is exceeded. *)
Lemma sample_over_Ok self ds g out b g' :
  ¬ len ds ≤ threshold self →
  sample self ds g = (Ok (out, b), g') →
  b = true ∧
  ∃ sels,
    out = sort_by sequence_key
            (filter (λ d, decision_type d = accepted) ds ++ concat sels
             ++ filter (λ d, decision_type d = pending) ds)
    ∧ Forall2 (λ entry sel, kept_of self entry.2 sel)
        (b_by_reason (partition_of ds)) sels.
Proof.
  intros Hlen. rewrite sample_over by done.
  destruct (for_each _ _ _ g) as [[sr|e] g0] eqn:Hloop; [|done].
  intros [= <- <- <-]. split; [done|].
  apply for_each_sample_group_Ok in Hloop as (sels & -> & Hsels).
  exists sels. by rewrite partition_of_accepted, partition_of_pending.
Qed.

Lemma sample_returns self ds g :
  0 ≤ per_reason self → ∃ out b g', sample self ds g = (Ok (out, b), g').
Proof.
  intros Hk. destruct (decide (len ds ≤ threshold self)) as [Hlen|Hlen].
  - rewrite sample_under by done. by eauto.
  - rewrite sample_over by done.
    destruct (for_each_sample_group_returns self
                (b_by_reason (partition_of ds)) [] g Hk) as (sr & g0 & ->).
    by eauto.
Qed.

Lemma partition_of_entries_rejected ds :
  Forall (λ entry, Forall (rejected_as entry.1) entry.2)
    (b_by_reason (partition_of ds)).
Proof.
  eapply Forall_impl; [apply partition_of_entries|].
  intros [k items] ->. cbn [fst snd]. apply Forall_forall.
  by intros d [Hd _]%list_elem_of_filter.
Qed.

Lemma filter_accepted_rejected_as r ds :
  filter (rejected_as r) (filter (λ d, decision_type d = accepted) ds) = [].
Proof.
  apply filter_none, Forall_forall.
  intros d [Hd _]%list_elem_of_filter [Hr _]. congruence.
Qed.

Lemma filter_pending_rejected_as r ds :
  filter (rejected_as r) (filter (λ d, decision_type d = pending) ds) = [].
Proof.
  apply filter_none, Forall_forall.
  intros d [Hd _]%list_elem_of_filter [Hr _]. congruence.
Qed.

Lemma kept_of_submseteq self (br : list (string * list Decision)) sels :
  Forall2 (λ entry sel, kept_of self entry.2 sel) br sels →
  concat sels ⊆+ concat br.*2.
Proof.
  intros Hsels. apply concat_submseteq.
  induction Hsels as [|entry sel br sels [Hsub _] _ IH]; by constructor.
Qed.

Lemma rejected_as_type sels self ds (t : DecisionType) :
  t ≠ rejected →
  Forall2 (λ entry sel, kept_of self entry.2 sel)
    (b_by_reason (partition_of ds)) sels →
  filter (λ d, decision_type d = t) (concat sels) = [].
Proof.
  intros Ht Hsels. apply filter_none.
  eapply submseteq_Forall.
  - by eapply kept_of_submseteq.
  - rewrite partition_of_rejected. apply Forall_forall.
    intros d [Hd _]%list_elem_of_filter. congruence.
Qed.

(** What is kept of each bucket once the threshold is exceeded. *)
Lemma sample_over_bucket self ds g out b g' r :
  ¬ len ds ≤ threshold self →
  0 ≤ per_reason self →
  sample self ds g = (Ok (out, b), g') →
  ∃ sel, filter (rejected_as r) out ≡ₚ sel
         ∧ kept_of self (filter (rejected_as r) ds) sel.
Proof.
  intros Hlen Hk Hs.
  apply sample_over_Ok in Hs as (_ & sels & -> & Hsels); [|done].
  exists (filter (rejected_as r) (concat sels)). split.
  - rewrite sort_by_Permutation, !filter_app.
    by rewrite filter_accepted_rejected_as, filter_pending_rejected_as, app_nil_r.
  - rewrite <- partition_of_group.
    apply kept_of_bucket;
      [done | apply partition_of_keys_NoDup
       | apply partition_of_entries_rejected | done].
Qed.

Lemma sample_over_type self ds g out b g' (t : DecisionType) :
  t ≠ rejected →
  ¬ len ds ≤ threshold self →
  sample self ds g = (Ok (out, b), g') →
  filter (λ d, decision_type d = t) out ≡ₚ filter (λ d, decision_type d = t) ds.
Proof.
  intros Ht Hlen Hs.
  apply sample_over_Ok in Hs as (_ & sels & -> & Hsels); [|done].
  rewrite sort_by_Permutation, !filter_app.
  rewrite (rejected_as_type sels self ds t) by done. cbn [app].
  rewrite <- (by_type_Permutation ds) at 3. rewrite !filter_app.
  rewrite !list_filter_filter.
  rewrite (filter_none (λ d, decision_type d = t ∧ decision_type d = rejected) ds);
    [done|].
  apply Forall_forall. intros d _ [? ?]. congruence.
Qed.

Lemma sample_Ok_submseteq self ds g out b g' :
  sample self ds g = (Ok (out, b), g') → out ⊆+ ds.
Proof.
  destruct (decide (len ds ≤ threshold self)) as [Hlen|Hlen].
  - rewrite sample_under by done. by intros [= <- _ _].
  - intros (_ & sels & -> & Hsels)%sample_over_Ok; [|done].
    rewrite sort_by_Permutation. rewrite <- (by_type_Permutation ds) at 3.
    apply submseteq_app; [done|]. apply submseteq_app; [|done].
    rewrite <- partition_of_rejected. by eapply kept_of_submseteq.
Qed.

(** C1: when the list is longer than the threshold, [sample] returns a
    list that holds every accepted and every pending decision of the
    input and, for each reason [r], exactly [min c per_reason] of the
    [c] rejected decisions counted under [r]: those whose [reason] is
    [r], and for ["unknown"] also those without a reason ([None] or
    the empty string).  The decisions of a reason that is not over
    [per_reason] are all kept, the turn of the loop that handles them
    leaves the generator as it was, and so does the whole call when no
    reason is over [per_reason].  ([per_reason] is a number of
    decisions: with a negative one [random.sample] raises.) *)
Theorem sample_keeps self ds g :
  len ds > threshold self →
  0 ≤ per_reason self →
  ∃ out g',
    sample self ds g = (Ok (out, true), g')
    ∧ filter (λ d, decision_type d = accepted) out
        ≡ₚ filter (λ d, decision_type d = accepted) ds
    ∧ filter (λ d, decision_type d = pending) out
        ≡ₚ filter (λ d, decision_type d = pending) ds
    ∧ (∀ r, count_under r out
            = Z.min (count_under r ds) (per_reason self))
    ∧ (∀ r, filter (counted_under r) out ⊆+ filter (counted_under r) ds)
    ∧ (∀ r, count_under r ds ≤ per_reason self →
            filter (counted_under r) out ≡ₚ filter (counted_under r) ds)
    ∧ (∀ acc entry g0, len entry.2 ≤ per_reason self →
            sample_group self acc entry g0 = (Ok (acc ++ entry.2), g0))
    ∧ ((∀ r, count_under r ds ≤ per_reason self) → g' = g).
Proof.
  intros Hlen Hk. assert (¬ len ds ≤ threshold self) as Hover by lia.
  destruct (sample_returns self ds g Hk) as (out & b & g' & Hs).
  assert (b = true) as -> by (by eapply sample_over_Ok).
  exists out, g'. split_and!; [done | | | | | | |].
  - by eapply sample_over_type.
  - by eapply sample_over_type.
  - intros r. rewrite !count_under_reason_of.
    destruct (sample_over_bucket self ds g out true g' r)
      as (sel & Hsel & _ & Hsz & _); [done..|].
    unfold count_reason_of. unfold len in *.
    by rewrite (Permutation_length Hsel).
  - intros r. rewrite !filter_counted_under.
    destruct (sample_over_bucket self ds g out true g' r)
      as (sel & Hsel & Hsub & _); [done..|].
    by rewrite Hsel.
  - intros r Hr. rewrite count_under_reason_of in Hr.
    rewrite !filter_counted_under.
    destruct (sample_over_bucket self ds g out true g' r)
      as (sel & Hsel & _ & _ & Hwhole); [done..|].
    rewrite Hsel. by rewrite Hwhole.
  - intros acc entry g0. apply sample_group_whole.
  - intros Hall. rewrite sample_over in Hs by done.
    rewrite for_each_sample_group_whole in Hs; [by injection Hs|].
    eapply Forall_impl; [apply partition_of_entries|].
    intros [k items] ->. cbn [fst].
    rewrite <- filter_counted_under. apply Hall.
Qed.


(** C10: whatever [sample] returns is a sub-multiset of its input, so
    it is never longer than the input; and [sample] does return when
    [per_reason] is not negative. *)
Theorem sample_submseteq self ds g :
  (∀ out b g', sample self ds g = (Ok (out, b), g') →
     out ⊆+ ds ∧ (length out ≤ length ds)%nat)
  ∧ (0 ≤ per_reason self → ∃ out b g', sample self ds g = (Ok (out, b), g')).
Proof.
  split; [|apply sample_returns].
  intros out b g' Hs. apply sample_Ok_submseteq in Hs.
  split; [done | by apply submseteq_length].
Qed.





End SampleFacts.

(** ** The sampler on concrete inputs *)

Example sample_four_decisions :
  @sample WindowSource (mkSampler 3 2) four_decisions 0%nat
  = (Ok ([ decision_of "a" rejected (Some "price") (Some 0);
           decision_of "b" accepted None (Some 1);
           decision_of "c" rejected (Some "price") (Some 2) ], true), 1%nat).
Proof. vm_compute. reflexivity. Qed.

(** A rejection whose reason is the empty string is sampled with the
    one that has no reason: with a cap of one, one of the two is
    kept. *)
Example sample_empty_reason :
  ∃ out g',
    @sample WindowSource (mkSampler 0 1)
      [mkDecision "a" rejected (Some "") None None None;
       mkDecision "b" rejected None None None None] 0%nat
    = (Ok (out, true), g')
    ∧ candidate_id <$> out = ["a"]
    ∧ count_under "unknown" out = 1.
Proof. eexists _, _. split_and!; vm_compute; reflexivity. Qed.

Lemma sample_keeps_witness :
  len four_decisions > threshold (mkSampler 3 2)
  ∧ 0 ≤ per_reason (mkSampler 3 2)
  ∧ ∃ out g',
      @sample WindowSource (mkSampler 3 2) four_decisions 0%nat
        = (Ok (out, true), g')
      ∧ count_under "price" out = 2.
Proof.
  assert (len four_decisions > threshold (mkSampler 3 2)) as Hlen
    by (vm_compute; reflexivity).
  assert (0 ≤ per_reason (mkSampler 3 2)) as Hk by (cbn; lia).
  split_and!; [exact Hlen | exact Hk |].
  destruct (@sample_keeps WindowSource (mkSampler 3 2) four_decisions 0%nat Hlen Hk)
    as (out & g' & Hs & _ & _ & Hcount & _).
  exists out, g'. split; [exact Hs|].
  rewrite Hcount. vm_compute. reflexivity.
Defined.



Lemma sample_submseteq_witness :
  0 ≤ per_reason (mkSampler 3 2)
  ∧ take 3 four_decisions ⊆+ four_decisions.
Proof.
  split; [cbn; lia|].
  exact (proj1 (proj1 (@sample_submseteq WindowSource (mkSampler 3 2)
                         four_decisions 0%nat)
                  _ _ _ sample_four_decisions)).
Defined.



(** ** Sequence numbers *)

Lemma setdefault_lookup md key v :
  setdefault md key v !! key = Some (default v (md !! key)).
Proof.
  unfold setdefault. destruct (md !! key) eqn:Hmd; [done|].
  by rewrite lookup_insert_eq.
Qed.

Lemma setdefault_nonempty md key v : setdefault md key v ≠ ∅.
Proof.
  intros Hempty. pose proof (setdefault_lookup md key v) as Hl.
  by rewrite Hempty, lookup_empty in Hl.
Qed.

Lemma normalize_one_sequence idx d :
  sequence_key (normalize_one idx d) = default (Z.of_nat idx) (caller_sequence d).
Proof.
  unfold sequence_key, normalize_one. cbn [metadata].
  rewrite decide_False by apply setdefault_nonempty.
  rewrite setdefault_lookup. cbn [default from_option id].
  unfold caller_sequence. destruct (metadata d) as [md|]; cbn; [done|].
  by rewrite lookup_empty.
Qed.

Lemma normalize_lookup ds i d :
  ds !! i = Some d → normalize ds !! i = Some (normalize_one i d).
Proof. intros Hd. unfold normalize. by rewrite list_lookup_imap, Hd. Qed.

Lemma normalize_length ds : length (normalize ds) = length ds.
Proof. apply length_imap. Qed.

(** C8 as stated fails: a decision submitted first with
    ["sequence": 5] in its metadata keeps [5]; it does not get its
    index [0]. *)
Lemma normalize_counterexample :
  ∃ d', normalize one_sequenced !! 0%nat = Some d'
        ∧ sequence_key d' = 5 ∧ sequence_key d' ≠ 0.
Proof. eexists. split_and!; [reflexivity | vm_compute; reflexivity | done]. Qed.

(** C8, as the code has it: before stats and sampling, the decision at
    index [i] of the submission is replaced by a copy whose metadata
    has a ["sequence"] entry: the value the caller put there, and [i]
    when the caller put none.  Nothing else of the decision changes,
    and a submission without caller-assigned values comes out in
    strictly ascending order of sequence. *)
Theorem normalize_sequence (ds : list Decision) (i : nat) (d : Decision) :
  ds !! i = Some d →
  ∃ d', normalize ds !! i = Some d'
    ∧ sequence_key d' = default (Z.of_nat i) (caller_sequence d)
    ∧ (caller_sequence d = None → sequence_key d' = Z.of_nat i)
    ∧ metadata d' = Some (setdefault (default ∅ (metadata d)) "sequence" (Z.of_nat i))
    ∧ (candidate_id d', decision_type d', reason d', score d', timestamp d')
      = (candidate_id d, decision_type d, reason d, score d, timestamp d)
    ∧ (Forall (λ d, caller_sequence d = None) ds →
         strictly_ascending (normalize ds)).
Proof.
  intros Hd. exists (normalize_one i d).
  split_and!; [by apply normalize_lookup | apply normalize_one_sequence
               | | done | done |].
  - intros Hnone. by rewrite normalize_one_sequence, Hnone.
  - clear. intros Hall. unfold strictly_ascending, normalize.
    assert (sequence_key <$> imap normalize_one ds
            = Z.of_nat <$> seq 0 (length ds)) as ->.
    { apply list_eq. intros j. rewrite !list_lookup_fmap, list_lookup_imap.
      destruct (ds !! j) as [dj|] eqn:Hj; cbn [fmap option_fmap option_map].
      - rewrite lookup_seq_lt by (by eapply lookup_lt_Some).
        cbn [fmap option_fmap option_map]. f_equal.
        rewrite normalize_one_sequence.
        rewrite Forall_forall in Hall. rewrite (Hall dj); [done|].
        by eapply list_elem_of_lookup_2.
      - rewrite lookup_seq_ge; [done|]. by apply lookup_ge_None. }
    generalize 0%nat. induction (length ds) as [|n IH]; intros start;
      cbn [seq fmap list_fmap]; constructor; [apply IH|].
    apply Forall_forall. intros z (k & -> & Hk%elem_of_seq)%list_elem_of_fmap. lia.
Qed.

Lemma normalize_sequence_witness :
  one_sequenced !! 0%nat = Some (decision_of "x" accepted None (Some 5))
  ∧ ∃ d', normalize one_sequenced !! 0%nat = Some d' ∧ sequence_key d' = 5.
Proof.
  assert (one_sequenced !! 0%nat = Some (decision_of "x" accepted None (Some 5)))
    as Hd by reflexivity.
  split; [exact Hd|].
  destruct (normalize_sequence one_sequenced 0 _ Hd) as (d' & Hd' & Hseq & _).
  exists d'. split; [exact Hd'|]. rewrite Hseq. vm_compute. reflexivity.
Defined.

(** ** Running the monad *)

Lemma bind_Ok {S A B} (m : M S A) (k : A → M S B) s a s' :
  m s = (Ok a, s') → (m ≫= k) s = k a s'.
Proof. intros Hm. unfold mbind, M_bind, bind. by rewrite Hm. Qed.

Lemma bind_Raise {S A B} (m : M S A) (k : A → M S B) s e s' :
  m s = (Raise e, s') → (m ≫= k) s = (Raise e, s').
Proof. intros Hm. unfold mbind, M_bind, bind. by rewrite Hm. Qed.

(** ** The session *)

Section SessionFacts.
Context `{RandomSource}.
Implicit Types (w : World) (objs : list Db.obj).

Lemma utcnow_run w :
  utcnow w = (Ok (reading (clock w)), with_clock w (tick (clock w))).
Proof. reflexivity. Qed.

Lemma or_utcnow_run t w :
  or_utcnow t w = (Ok (stamp (clock w) t).1, with_clock w (stamp (clock w) t).2).
Proof. destruct t; [by destruct w | reflexivity]. Qed.

Lemma attr_id_run ref w : attr_id ref w = (Ok (id_at (session w) ref), w).
Proof. reflexivity. Qed.

Lemma db_add_run o w :
  db_add o w = (Ok (length (session w)), with_objects w (session w ++ [o])).
Proof. reflexivity. Qed.

Lemma id_at_app_l objs objs' ref :
  (ref < length objs)%nat → id_at (objs ++ objs') ref = id_at objs ref.
Proof. intros Hlt. unfold id_at. by rewrite lookup_app_l. Qed.

Lemma with_objects_session w objs : session (with_objects w objs) = objs.
Proof. reflexivity. Qed.

Lemma with_objects_twice w objs objs' :
  with_objects (with_objects w objs) objs' = with_objects w objs'.
Proof. reflexivity. Qed.

Lemma zip_with_ext_r {A B C} (f g : A → B → C) (P : B → Prop) (l : list A) :
  ∀ k, Forall P k → (∀ x y, P y → f x y = g x y) →
       zip_with f l k = zip_with g l k.
Proof.
  induction l as [|x l IH]; intros [|y k] Hk Hfg; try done.
  apply Forall_cons in Hk as [Hy Hk]. cbn [zip_with].
  by rewrite (Hfg x y Hy), (IH k Hk Hfg).
Qed.

(** The loop that builds the decision rows: one pending row per kept
    decision, each without an [id] yet and with a [created_at] that is
    its timestamp or a reading of its own, and the references to the
    rows. *)
Lemma store_decision_loop step entries : ∀ created w,
  (step < length (session w))%nat →
  for_each entries (store_decision step) created w =
    (Ok (created ++ seq (length (session w)) (length entries)),
     with_clock
       (with_objects w
          (session w
           ++ zip_with (decision_row (id_at (session w) step))
                (created_ats (clock w) ((λ e, timestamp e.2) <$> entries))
                entries))
       (clock_after (clock w) ((λ e, timestamp e.2) <$> entries))).
Proof.
  induction entries as [|[idx d] entries IH]; intros created w Hstep.
  - cbn [for_each length seq fmap list_fmap created_ats clock_after zip_with].
    rewrite !app_nil_r. by destruct w.
  - rewrite for_each_cons.
    assert (store_decision step created (idx, d) w =
            (Ok (created ++ [length (session w)]),
             with_clock
               (with_objects w (session w
                  ++ [decision_row (id_at (session w) step)
                        (stamp (clock w) (timestamp d)).1 (idx, d)]))
               (stamp (clock w) (timestamp d)).2))
      as ->.
    { unfold store_decision.
      erewrite bind_Ok by apply attr_id_run.
      erewrite bind_Ok by apply or_utcnow_run.
      erewrite bind_Ok by apply db_add_run. reflexivity. }
    rewrite IH by (cbn [session with_clock with_objects]; rewrite length_app; lia).
    cbn [session clock with_clock with_objects random_state database
         committed_upto uuid_supply].
    rewrite id_at_app_l by done.
    rewrite length_app, Nat.add_1_r.
    cbn [length seq fmap list_fmap created_ats clock_after zip_with snd].
    by rewrite <- !app_assoc.
Qed.

(** The loop that builds the evidence rows: each reads the [id] of
    its decision through the reference. *)
Lemma store_evidence_loop pairs : ∀ w,
  Forall (λ p, (p.2 < length (session w))%nat) pairs →
  for_each pairs store_evidence tt w =
    (Ok tt,
     with_clock
       (with_objects w
          (session w
           ++ zip_with (λ created p, evidence_row (id_at (session w) p.2) created p.1)
                (created_ats (clock w) ((λ p, ev_timestamp p.1) <$> pairs))
                pairs))
       (clock_after (clock w) ((λ p, ev_timestamp p.1) <$> pairs))).
Proof.
  induction pairs as [|[ev ref] pairs IH]; intros w Hrefs.
  - cbn [for_each fmap list_fmap created_ats clock_after zip_with].
    rewrite app_nil_r. by destruct w.
  - apply Forall_cons in Hrefs as [Href Hrefs]. cbn [snd] in Href.
    rewrite for_each_cons.
    assert (store_evidence tt (ev, ref) w =
            (Ok tt,
             with_clock
               (with_objects w (session w
                  ++ [evidence_row (id_at (session w) ref)
                        (stamp (clock w) (ev_timestamp ev)).1 ev]))
               (stamp (clock w) (ev_timestamp ev)).2))
      as ->.
    { unfold store_evidence.
      erewrite bind_Ok by apply attr_id_run.
      erewrite bind_Ok by apply or_utcnow_run.
      erewrite bind_Ok by apply db_add_run. reflexivity. }
    rewrite IH.
    2:{ cbn [session with_clock with_objects].
        eapply Forall_impl; [exact Hrefs|].
        intros p Hp. cbn beta in Hp. rewrite length_app. lia. }
    cbn [session clock with_clock with_objects random_state database
         committed_upto uuid_supply].
    cbn [fmap list_fmap created_ats clock_after zip_with fst snd].
    rewrite <- !app_assoc. cbn [app].
    rewrite (zip_with_ext_r
               (λ created (p : Evidence * nat),
                  evidence_row
                    (id_at (session w
                            ++ [evidence_row (id_at (session w) ref)
                                  (stamp (clock w) (ev_timestamp ev)).1 ev])
                       p.2) created p.1)
               (λ created p, evidence_row (id_at (session w) p.2) created p.1)
               (λ p, (p.2 < length (session w))%nat) _ pairs Hrefs);
      [reflexivity|].
    intros created p Hp. by rewrite id_at_app_l.
Qed.

(** Inserting keeps the rows and their [NULL]s: it only fills in
    primary keys. *)
Lemma not_null_with_id o n : Db.not_null (Db.with_id o n) = Db.not_null o.
Proof. by destruct o. Qed.

Lemma insert_object_not_null objs : ∀ acc,
  forallb Db.not_null (foldl Db.insert_object acc objs).1
  = forallb Db.not_null acc.1 && forallb Db.not_null objs.
Proof.
  induction objs as [|o objs IH]; intros acc; cbn [foldl forallb].
  - by rewrite andb_true_r.
  - rewrite IH. unfold Db.insert_object.
    destruct (Db.obj_id o); cbn [fst]; rewrite forallb_app; cbn [forallb];
      rewrite ?not_null_with_id, andb_true_r, andb_assoc; done.
Qed.

(** A session that holds a row with a [NULL] foreign key cannot be
    flushed, and so cannot be committed. *)
Lemma db_flush_not_null w :
  forallb Db.not_null (session w) = false →
  db_flush w = (Raise IntegrityError, w).
Proof.
  intros Hnull. unfold db_flush.
  erewrite bind_Ok by reflexivity.
  pose proof (insert_object_not_null (session w) ([], uuid_supply w)) as Hins.
  destruct (foldl _ _ (session w)) as [objs next]. cbn [fst forallb] in Hins.
  by rewrite Hins, Hnull.
Qed.

Lemma db_commit_not_null w :
  forallb Db.not_null (session w) = false →
  db_commit w = (Raise IntegrityError, w).
Proof.
  intros Hnull. unfold db_commit.
  by erewrite bind_Raise by by apply db_flush_not_null.
Qed.

End SessionFacts.

(** ** Recording a step *)

Section RecordStepFacts.
Context `{RandomSource}.
Implicit Types (w : World) (step_input : Step).

Lemma truthy_len {A} (xs : option (list A)) :
  truthy xs = true ↔ 0 < len (default [] xs).
Proof.
  destruct xs as [[|x xs]|]; cbn; unfold len; cbn [length]; split;
    (done || lia).
Qed.

Lemma truthy_false_len {A} (xs : option (list A)) :
  truthy xs = false → len (default [] xs) = 0.
Proof. by destruct xs as [[|x xs]|]. Qed.

Lemma check_limits_over step_input w :
  len (default [] (decisions step_input)) > MAX_DECISIONS_PER_STEP
  ∨ len (default [] (evidence step_input)) > MAX_EVIDENCE_PER_STEP →
  ∃ detail, check_limits step_input w = (Raise (HTTPException 413 detail), w).
Proof.
  intros Hover. unfold check_limits.
  destruct (truthy (decisions step_input) && bool_decide _) eqn:Hd;
    [by eexists|].
  destruct (truthy (evidence step_input) && bool_decide _) eqn:He;
    [by eexists|].
  exfalso. apply andb_false_iff in Hd, He.
  unfold MAX_DECISIONS_PER_STEP, MAX_EVIDENCE_PER_STEP in *.
  destruct Hover as [Hn|Hm].
  - destruct Hd as [Hd|Hd].
    + apply truthy_false_len in Hd. lia.
    + apply bool_decide_eq_false in Hd. lia.
  - destruct He as [He|He].
    + apply truthy_false_len in He. lia.
    + apply bool_decide_eq_false in He. lia.
Qed.

Lemma check_limits_within step_input w :
  len (default [] (decisions step_input)) ≤ MAX_DECISIONS_PER_STEP →
  len (default [] (evidence step_input)) ≤ MAX_EVIDENCE_PER_STEP →
  check_limits step_input w = (Ok tt, w).
Proof.
  intros Hn Hm. unfold check_limits.
  rewrite (bool_decide_eq_false_2 (_ > MAX_DECISIONS_PER_STEP)) by lia.
  rewrite (bool_decide_eq_false_2 (_ > MAX_EVIDENCE_PER_STEP)) by lia.
  by rewrite !andb_false_r.
Qed.

(** With its defaults the sampler does not raise. *)
Lemma sample_default_returns ds g :
  ∃ out b g', sample _sampler ds g = (Ok (out, b), g').
Proof. apply sample_returns. cbn. lia. Qed.

Lemma stats_and_sample_run step_input w :
  stats_and_sample (decisions step_input) w =
    (Ok (expected_stats step_input,
         (kept_decisions step_input (random_state w)).1.1,
         (kept_decisions step_input (random_state w)).1.2),
     mkWorld (kept_decisions step_input (random_state w)).2 (database w)
       (session w) (committed_upto w) (uuid_supply w) (clock w)).
Proof.
  unfold stats_and_sample, expected_stats, kept_decisions.
  destruct (truthy (decisions step_input)); [|by destruct w].
  cbn zeta.
  destruct (sample_default_returns
              (normalize (default [] (decisions step_input))) (random_state w))
    as (out & b & g' & Hs).
  unfold mbind, M_bind, bind, lift_random. by rewrite Hs.
Qed.

Lemma fmap_snd_imap_pair {A B} (f : A → B) (l : list A) :
  (λ e : nat * A, f e.2) <$> imap pair l = f <$> l.
Proof.
  assert (∀ g : nat → nat,
            (λ e : nat * A, f e.2) <$> imap (λ i x, (g i, x)) l = f <$> l) as Hgen.
  { induction l as [|x l IH]; intros g; [done|].
    cbn [imap fmap list_fmap snd]. f_equal. apply (IH (g ∘ S)). }
  apply (Hgen id).
Qed.

Lemma timestamps_kept (l : list Decision) :
  (λ e : nat * Decision, timestamp e.2) <$> imap pair (copy_decision <$> l)
  = timestamp <$> l.
Proof.
  rewrite fmap_snd_imap_pair, <- list_fmap_compose.
  apply list_fmap_ext. by intros i [] _.
Qed.

(** From a fresh session, within the limits and for a run that
    exists, [record_step] reaches [stored_world] and goes on with the
    evidence, the commit and the response. *)
Lemma record_step_prefix run_id step_input g db n t r :
  len (default [] (decisions step_input)) ≤ MAX_DECISIONS_PER_STEP →
  len (default [] (evidence step_input)) ≤ MAX_EVIDENCE_PER_STEP →
  List.find (is_run run_id) db = Some r →
  record_step run_id step_input (mkWorld g db [] 0 n t) =
    finish_step step_input g (stored_world run_id step_input (mkWorld g db [] 0 n t)).
Proof.
  intros Hn Hm Hrun. unfold record_step.
  erewrite bind_Ok by by apply check_limits_within.
  erewrite bind_Ok by reflexivity. cbn [database]. rewrite Hrun.
  erewrite bind_Ok by reflexivity.
  erewrite bind_Ok by apply stats_and_sample_run.
  cbn [random_state database session committed_upto uuid_supply clock].
  erewrite bind_Ok by apply utcnow_run.
  erewrite bind_Ok by apply utcnow_run.
  erewrite bind_Ok by apply db_add_run.
  erewrite bind_Ok by reflexivity.
  unfold store_decisions at 1.
  unfold finish_step, stored_world, decision_rows, expected_summary.
  cbn [random_state database session committed_upto uuid_supply clock
       with_objects with_clock app length].
  rewrite app_nil_r.
  destruct (truthy (decisions step_input)) eqn:Htr.
  - cbn zeta. erewrite bind_Ok.
    2:{ erewrite bind_Ok; [reflexivity|].
        apply store_decision_loop. cbn. lia. }
    cbn [app length session with_objects with_clock random_state database
         committed_upto uuid_supply clock].
    rewrite length_imap, length_fmap. unfold len. rewrite length_fmap.
    rewrite timestamps_kept. reflexivity.
  - erewrite bind_Ok by reflexivity.
    assert ((kept_decisions step_input g).1.1 = []) as ->
      by (unfold kept_decisions; by rewrite Htr).
    reflexivity.
Qed.

Lemma post_step_run run_id step_input w :
  post_step run_id step_input w =
    ((record_step run_id step_input (close_session w)).1,
     close_session (record_step run_id step_input (close_session w)).2).
Proof.
  unfold post_step, with_session, close_session.
  by destruct (record_step _ _ _) as [r w'].
Qed.

Lemma record_step_over run_id step_input w :
  len (default [] (decisions step_input)) > MAX_DECISIONS_PER_STEP
  ∨ len (default [] (evidence step_input)) > MAX_EVIDENCE_PER_STEP →
  ∃ detail, record_step run_id step_input w = (Raise (HTTPException 413 detail), w).
Proof.
  intros Hover. destruct (check_limits_over step_input w Hover) as [detail Hc].
  exists detail. unfold record_step. by erewrite bind_Raise.
Qed.

Lemma record_step_not_found run_id step_input w :
  len (default [] (decisions step_input)) ≤ MAX_DECISIONS_PER_STEP →
  len (default [] (evidence step_input)) ≤ MAX_EVIDENCE_PER_STEP →
  List.find (is_run run_id) (database w) = None →
  record_step run_id step_input w =
    (Raise (HTTPException 404 ("Run " +:+ pretty run_id +:+ " not found")), w).
Proof.
  intros Hn Hm Hrun. unfold record_step.
  erewrite bind_Ok by by apply check_limits_within.
  erewrite bind_Ok by reflexivity. by rewrite Hrun.
Qed.

(** *** The evidence block *)

Lemma attach_evidence_none step_input created w :
  truthy (evidence step_input) = false →
  attach_evidence step_input created w = (Ok tt, w).
Proof. intros Hev. unfold attach_evidence. by rewrite Hev. Qed.

Lemma attach_evidence_no_target step_input w :
  truthy (evidence step_input) = true →
  attach_evidence step_input [] w =
    (Raise (HTTPException 400 "Evidence provided but no decisions to attach to"), w).
Proof. intros Hev. unfold attach_evidence. by rewrite Hev. Qed.

Lemma attach_evidence_too_many step_input created w :
  truthy (evidence step_input) = true →
  created ≠ [] →
  len (default [] (evidence step_input)) > len created →
  attach_evidence step_input created w =
    (Raise (HTTPException 400
       "Evidence count exceeds decisions; provide one evidence per decision"), w).
Proof.
  intros Hev Hcr Hmany. unfold attach_evidence. rewrite Hev.
  destruct created; [done|]. by rewrite decide_True.
Qed.

Lemma attach_evidence_bind step_input created w :
  truthy (evidence step_input) = true →
  created ≠ [] →
  len (default [] (evidence step_input)) ≤ len created →
  Forall (λ ref, (ref < length (session w))%nat) created →
  let pairs := zip (default [] (evidence step_input)) created in
  attach_evidence step_input created w =
    (Ok tt,
     with_clock
       (with_objects w
          (session w
           ++ zip_with (λ created_at p, evidence_row (id_at (session w) p.2) created_at p.1)
                (created_ats (clock w) ((λ p, ev_timestamp p.1) <$> pairs))
                pairs))
       (clock_after (clock w) ((λ p, ev_timestamp p.1) <$> pairs))).
Proof.
  intros Hev Hcr Hfew Hrefs pairs. unfold attach_evidence. rewrite Hev.
  destruct created as [|c created]; [done|]. rewrite decide_False by lia.
  cbn zeta. apply store_evidence_loop.
  apply Forall_forall. intros [ev ref] Hin. cbn [snd].
  rewrite Forall_forall in Hrefs. apply Hrefs.
  by eapply elem_of_zip_r.
Qed.

(** *** From the stored decisions to the response *)

Lemma stored_world_session run_id step_input w :
  session (stored_world run_id step_input w) =
    step_row run_id step_input
      (len (List.filter (is_step_of run_id) (database w)))
      (Some (uuid_supply w)) (reading (clock w)) (reading (tick (clock w)))
    :: decision_rows step_input (random_state w) (Some (uuid_supply w))
         (tick (tick (clock w))).
Proof. reflexivity. Qed.

Lemma created_ats_length ts : ∀ c, length (created_ats c ts) = length ts.
Proof. induction ts as [|t ts IH]; intros c; [done|]. cbn. by rewrite IH. Qed.

Lemma decision_rows_length step_input g sid c :
  length (decision_rows step_input g sid c)
  = length (kept_decisions step_input g).1.1.
Proof.
  unfold decision_rows.
  rewrite length_zip_with, created_ats_length, length_imap, !length_fmap. lia.
Qed.

(** A decision row that is pending has no [id] to read. *)
Lemma id_at_decision_row srow step_input g sid c ref :
  (1 ≤ ref)%nat →
  id_at (srow :: decision_rows step_input g sid c) ref = None.
Proof.
  intros Href. unfold id_at. rewrite lookup_cons_ne_0 by lia.
  unfold decision_rows. rewrite lookup_zip_with.
  destruct (created_ats _ _ !! _); [|done].
  by destruct (imap pair _ !! _).
Qed.

Lemma zip_with_zip_fst {A B C D} (g : A → B → D) (f : A → B * C → D)
    (cs : list A) : ∀ (l : list B) (k : list C),
  (length l ≤ length k)%nat →
  (∀ c x y, y ∈ k → f c (x, y) = g c x) →
  zip_with f cs (zip l k) = zip_with g cs l.
Proof.
  induction cs as [|c cs IH]; intros [|x l] [|y k] Hlen Hfg; try done.
  - cbn in Hlen. lia.
  - cbn [zip zip_with]. rewrite Hfg by apply list_elem_of_here.
    f_equal. apply IH; [cbn in Hlen; lia|].
    intros c' x' y' Hy'. apply Hfg. by apply list_elem_of_further.
Qed.

Lemma finish_step_no_target run_id step_input w :
  truthy (evidence step_input) = true →
  (kept_decisions step_input (random_state w)).1.1 = [] →
  finish_step step_input (random_state w) (stored_world run_id step_input w) =
    (Raise (HTTPException 400 "Evidence provided but no decisions to attach to"),
     stored_world run_id step_input w).
Proof.
  intros Hev Hkept. unfold finish_step. rewrite Hkept. cbn [length seq].
  by erewrite bind_Raise by by apply attach_evidence_no_target.
Qed.

Lemma finish_step_too_many run_id step_input w :
  truthy (evidence step_input) = true →
  len (default [] (evidence step_input))
    > len (kept_decisions step_input (random_state w)).1.1 →
  ∃ detail,
    finish_step step_input (random_state w) (stored_world run_id step_input w) =
      (Raise (HTTPException 400 detail), stored_world run_id step_input w).
Proof.
  intros Hev Hmany.
  destruct ((kept_decisions step_input (random_state w)).1.1) as [|d kept] eqn:Hkept.
  - eexists. pose proof (finish_step_no_target run_id step_input w Hev Hkept) as Hf.
    exact Hf.
  - eexists. unfold finish_step. rewrite Hkept.
    erewrite bind_Raise; [reflexivity|].
    apply attach_evidence_too_many; [done | done |].
    unfold len in *. rewrite length_seq. lia.
Qed.

(** The slip: the evidence rows are built from the [id] of decision
    rows that have not been flushed, so their [decision_id] is [NULL]
    and the commit fails. *)
Lemma finish_step_unbound run_id step_input w :
  truthy (evidence step_input) = true →
  len (default [] (evidence step_input))
    ≤ len (kept_decisions step_input (random_state w)).1.1 →
  let w1 := stored_world run_id step_input w in
  let w2 := with_clock
              (with_objects w1
                 (session w1
                  ++ evidence_rows (clock w1) (default [] (evidence step_input))))
              (clock_after (clock w1)
                 (ev_timestamp <$> default [] (evidence step_input))) in
  finish_step step_input (random_state w) w1 = (Raise IntegrityError, w2).
Proof.
  intros Hev Hfew w1 w2. unfold finish_step.
  set (kept := (kept_decisions step_input (random_state w)).1.1) in *.
  assert (0 < len (default [] (evidence step_input))) as Hpos
    by by apply truthy_len.
  assert (attach_evidence step_input (seq 1 (length kept)) w1 = (Ok tt, w2)) as Hatt.
  { rewrite attach_evidence_bind; [|done|..].
    - unfold w2, evidence_rows. cbn zeta.
      assert ((λ p : Evidence * nat, ev_timestamp p.1)
                <$> zip (default [] (evidence step_input)) (seq 1 (length kept))
              = ev_timestamp <$> default [] (evidence step_input)) as ->.
      { rewrite <- (fst_zip (default [] (evidence step_input))
                      (seq 1 (length kept))) at 2
          by (rewrite length_seq; unfold len in *; lia).
        by rewrite <- list_fmap_compose. }
      rewrite (zip_with_zip_fst (evidence_row None)); [done | |].
      + rewrite length_seq. unfold len in *. lia.
      + intros c ev ref Href%elem_of_seq. cbn [fst snd].
        unfold w1. rewrite stored_world_session.
        by rewrite id_at_decision_row by lia.
    - intros Hnil. apply (f_equal length) in Hnil. rewrite length_seq in Hnil.
      cbn in Hnil. unfold len in *. lia.
    - unfold len in *. rewrite length_seq. lia.
    - apply Forall_forall. intros ref Href%elem_of_seq.
      unfold w1. rewrite stored_world_session. cbn [length].
      rewrite decision_rows_length. fold kept. lia. }
  erewrite bind_Ok by exact Hatt.
  erewrite bind_Raise; [reflexivity|].
  apply db_commit_not_null.
  unfold w2. cbn [session with_clock with_objects]. rewrite forallb_app.
  unfold evidence_rows.
  destruct (default [] (evidence step_input)) as [|ev evs];
    [unfold len in Hpos; cbn in Hpos; lia|].
  cbn. apply andb_false_r.
Qed.

(** *** The commit *)

Lemma insert_object_spec objs : ∀ acc,
  ∃ rows next,
    foldl Db.insert_object acc objs = (acc.1 ++ rows, next)
    ∧ Forall2 inserted objs rows.
Proof.
  induction objs as [|o objs IH]; intros acc; cbn [foldl].
  - exists [], acc.2. rewrite app_nil_r. by destruct acc.
  - destruct (IH (Db.insert_object acc o)) as (rows & next & -> & Hrows).
    unfold Db.insert_object, inserted in *.
    destruct (Db.obj_id o) as [i|] eqn:Hid; cbn [fst snd].
    + exists (o :: rows), next. rewrite <- app_assoc.
      split; [done|]. constructor; [by rewrite Hid | done].
    + exists (Db.with_id o acc.2 :: rows), next. rewrite <- app_assoc.
      split; [done|]. constructor; [rewrite Hid; by eexists | done].
Qed.

Lemma db_commit_run w :
  forallb Db.not_null (session w) = true →
  ∃ rows next,
    Forall2 inserted (session w) rows
    ∧ db_commit w =
        (Ok tt, mkWorld (random_state w)
                  (database w ++ drop (committed_upto w) rows)
                  rows (length rows) next (clock w)).
Proof.
  intros Hnn.
  destruct (insert_object_spec (session w) ([], uuid_supply w))
    as (rows & next & Hins & Hrows). cbn [fst app] in Hins.
  exists rows, next. split; [done|].
  pose proof (insert_object_not_null (session w) ([], uuid_supply w)) as Hchk.
  rewrite Hins in Hchk. cbn [fst forallb] in Hchk. rewrite Hnn in Hchk.
  unfold db_commit, db_flush.
  erewrite bind_Ok.
  2:{ erewrite bind_Ok by reflexivity. rewrite Hins, Hchk. reflexivity. }
  reflexivity.
Qed.

Lemma stored_world_not_null run_id step_input w :
  forallb Db.not_null (session (stored_world run_id step_input w)) = true.
Proof.
  rewrite stored_world_session. cbn [forallb Db.not_null step_row andb].
  unfold decision_rows. rewrite zip_with_zip. apply forallb_forall.
  intros o ([c entry] & -> & _)%list_elem_of_In%list_elem_of_fmap. done.
Qed.

(** Without evidence the step and its decision rows are committed,
    and the response carries the stats of the whole submission. *)
Lemma finish_step_success run_id step_input w :
  truthy (evidence step_input) = false →
  let srow := step_row run_id step_input
                (len (List.filter (is_step_of run_id) (database w)))
                (Some (uuid_supply w))
                (reading (clock w)) (reading (tick (clock w))) in
  ∃ rows next,
    Forall2 inserted
      (decision_rows step_input (random_state w) (Some (uuid_supply w))
         (tick (tick (clock w))))
      rows
    ∧ finish_step step_input (random_state w) (stored_world run_id step_input w) =
        (Ok (mkResponse (Some (uuid_supply w)) (expected_stats step_input)
               (expected_summary step_input (random_state w))),
         mkWorld (kept_decisions step_input (random_state w)).2
           (database w ++ srow :: rows) (srow :: rows)
           (S (length rows)) next
           (clock (stored_world run_id step_input w))).
Proof.
  intros Hev srow.
  destruct (db_commit_run (stored_world run_id step_input w)
              (stored_world_not_null run_id step_input w))
    as (rows0 & next & Hrows0 & Hcommit).
  rewrite stored_world_session in Hrows0. fold srow in Hrows0.
  apply Forall2_cons_inv_l in Hrows0 as (srow' & rows & Hsrow & Hrows & ->).
  unfold inserted in Hsrow. cbn in Hsrow. subst srow'.
  exists rows, next. split; [done|].
  unfold finish_step.
  erewrite bind_Ok by by apply attach_evidence_none.
  erewrite bind_Ok by exact Hcommit.
  reflexivity.
Qed.

End RecordStepFacts.

(** ** The sampler on list objects *)

Section ObjectFacts.
Context `{RandomSource}.
Implicit Types (h : Heap) (self : DecisionSampler) (br : list (string * nat)).

Lemma update_list_lookup l f h l' :
  lists (update_list l f h).2 !! l' =
    if decide (l = l') then f <$> lists h !! l' else lists h !! l'.
Proof.
  cbn. case_decide as Hl.
  - subst. apply list_lookup_alter_eq.
  - by apply list_lookup_alter_ne.
Qed.

Lemma update_list_length l f h :
  length (lists (update_list l f h).2) = length (lists h).
Proof. cbn. apply length_alter. Qed.

Lemma resolve_ext h h' br :
  (∀ r, r ∈ br.*2 → lists h' !! r = lists h !! r) →
  resolve h' br = resolve h br.
Proof.
  intros Hsame. unfold resolve. apply Forall_fmap_ext_1, Forall_forall.
  intros [k r] Hin. cbn [fst snd]. rewrite Hsame; [done|].
  apply list_elem_of_fmap. by exists (k, r).
Qed.

Lemma dict_find_None key br : dict_find key br = None → key ∉ br.*1.
Proof.
  induction br as [|[k r] br IH]; cbn [dict_find fmap list_fmap fst];
    [intros _; apply not_elem_of_nil|].
  case_decide; [done|]. intros Hf. apply not_elem_of_cons. split; [done|auto].
Qed.

Lemma dict_find_Some key br r : dict_find key br = Some r → r ∈ br.*2.
Proof.
  induction br as [|[k r0] br IH]; cbn [dict_find fmap list_fmap snd]; [done|].
  case_decide.
  - intros [= ->]. apply list_elem_of_here.
  - intros Hf. apply list_elem_of_further. auto.
Qed.

Lemma dict_append_notin key d (brB : list (string * list Decision)) :
  key ∉ brB.*1 → dict_append key d brB = brB ++ [(key, [d])].
Proof.
  induction brB as [|[k items] brB IH]; [done|].
  cbn [fmap list_fmap fst dict_append]. intros [Hne Hnin]%not_elem_of_cons.
  rewrite decide_False by done. cbn [app]. by rewrite IH.
Qed.

Lemma resolve_keys h br : (resolve h br).*1 = br.*1.
Proof.
  unfold resolve. rewrite <- list_fmap_compose. by apply list_fmap_ext.
Qed.

(** Appending to the list object of a key that is there already. *)
Lemma resolve_append key d br r h :
  NoDup br.*2 →
  Forall (λ r, (r < length (lists h))%nat) br.*2 →
  dict_find key br = Some r →
  resolve (update_list r (λ xs, xs ++ [d]) h).2 br
  = dict_append key d (resolve h br).
Proof.
  induction br as [|[k r0] br IH]; [done|].
  cbn [fmap list_fmap snd dict_find]. intros [Hnin Hnd]%NoDup_cons Hval.
  apply Forall_cons in Hval as [Hr0 Hval].
  unfold resolve. cbn [fmap list_fmap fst snd dict_append].
  fold (resolve (update_list r (λ xs, xs ++ [d]) h).2 br). fold (resolve h br).
  case_decide as Hk.
  - intros [= ->]. rewrite update_list_lookup, decide_True by done.
    destruct (lookup_lt_is_Some_2 (lists h) r Hr0) as [xs ->].
    cbn [fmap option_fmap option_map default from_option id]. f_equal.
    apply resolve_ext. intros r' Hr'.
    rewrite update_list_lookup, decide_False; [done|]. by intros ->.
  - intros Hfind. rewrite update_list_lookup, decide_False.
    2:{ intros ->. apply Hnin. by eapply dict_find_Some. }
    f_equal. by apply IH.
Qed.

Lemma new_list_run xs h :
  new_list xs h = (Ok (length (lists h)), mkHeap (lists h ++ [xs]) (generator h)).
Proof. reflexivity. Qed.

Lemma bucket_append_run key d br h :
  NoDup br.*2 →
  Forall (λ r, (r < length (lists h))%nat) br.*2 →
  ∃ br' h',
    bucket_append key d br h = (Ok br', h')
    ∧ resolve h' br' = dict_append key d (resolve h br)
    ∧ NoDup br'.*2
    ∧ (length (lists h) ≤ length (lists h'))%nat
    ∧ generator h' = generator h
    ∧ (∀ r, r ∈ br'.*2 →
         (r < length (lists h'))%nat ∧ (r ∈ br.*2 ∨ (length (lists h) ≤ r)%nat))
    ∧ (∀ l, (l < length (lists h))%nat → l ∉ br.*2 →
         lists h' !! l = lists h !! l).
Proof.
  intros Hnd Hval. unfold bucket_append.
  destruct (dict_find key br) as [r|] eqn:Hfind.
  - exists br, (update_list r (λ xs, xs ++ [d]) h).2.
    split_and!.
    + reflexivity.
    + by apply resolve_append.
    + done.
    + by rewrite update_list_length.
    + reflexivity.
    + intros r' Hr'. rewrite update_list_length. split; [|by left].
      rewrite Forall_forall in Hval. by apply Hval.
    + intros l _ Hl. rewrite update_list_lookup, decide_False; [done|].
      intros ->. apply Hl. by eapply dict_find_Some.
  - set (n := length (lists h)).
    set (h1 := mkHeap (lists h ++ [[]]) (generator h)).
    exists (br ++ [(key, n)]), (update_list n (λ xs, xs ++ [d]) h1).2.
    assert (n ∉ br.*2) as Hfresh.
    { intros Hin. rewrite Forall_forall in Hval. specialize (Hval n Hin).
      unfold n in Hval. lia. }
    split_and!.
    + reflexivity.
    + rewrite dict_append_notin
        by (rewrite resolve_keys; by apply dict_find_None).
      unfold resolve at 1. rewrite fmap_app. cbn [fmap list_fmap fst snd].
      fold (resolve (update_list n (λ xs, xs ++ [d]) h1).2 br). f_equal.
      * apply resolve_ext. intros r Hr. rewrite update_list_lookup.
        rewrite decide_False by (by intros <-). cbn [lists h1].
        rewrite lookup_app_l; [done|].
        rewrite Forall_forall in Hval. by apply Hval.
      * rewrite update_list_lookup, decide_True by done. cbn [lists h1].
        unfold n. by rewrite list_lookup_middle.
    + rewrite fmap_app. cbn [fmap list_fmap snd].
      apply NoDup_app. split_and!; [done | | apply NoDup_singleton].
      intros r Hr ->%list_elem_of_singleton. done.
    + rewrite update_list_length. cbn [lists h1]. rewrite length_app. lia.
    + reflexivity.
    + intros r. rewrite fmap_app, update_list_length. cbn [lists h1 fmap list_fmap snd].
      rewrite length_app. cbn [length].
      intros [Hr| ->%list_elem_of_singleton]%elem_of_app.
      * rewrite Forall_forall in Hval. specialize (Hval r Hr).
        split; [fold n in Hval |- *; lia | by left].
      * fold n. split; [lia | right; lia].
    + intros l Hl _. rewrite update_list_lookup.
      rewrite decide_False by (fold n in Hl; lia). cbn [lists h1].
      by rewrite lookup_app_l.
Qed.

Lemma list_append_run l d h :
  list_append l d h = (Ok tt, (update_list l (λ xs, xs ++ [d]) h).2).
Proof. reflexivity. Qed.

(** One turn of the partition loop keeps the objects in step with the
    buckets, and touches no list below [n]. *)
Lemma partition_obj_run n a p br h b d :
  buckets_at n a p br h b →
  ∃ br' h',
    partition_obj a p br d h = (Ok br', h')
    ∧ buckets_at n a p br' h' (partition_step b d)
    ∧ generator h' = generator h
    ∧ preserves n h h'.
Proof.
  intros (Ha & Hp & Hap & Hnd & Hrefs & Hacc & Hpen & Hres).
  unfold partition_obj, partition_step.
  destruct (decision_type d).
  - exists br, (update_list a (λ xs, xs ++ [d]) h).2.
    split_and!; [reflexivity | | reflexivity |].
    + unfold buckets_at. rewrite !update_list_length, !update_list_lookup.
      rewrite (decide_True (P := a = a)), (decide_False (P := a = p)) by done.
      rewrite Hacc.
      split_and!; try done; try lia.
      cbn [b_by_reason]. rewrite <- Hres. apply resolve_ext. intros r Hr.
      rewrite update_list_lookup, decide_False; [done|].
      rewrite Forall_forall in Hrefs. destruct (Hrefs r Hr) as (_ & ? & _). done.
    + intros l Hl. rewrite update_list_lookup, decide_False; [done | lia].
  - destruct (bucket_append_run (reason_key d) d br h)
      as (br' & h' & Hrun & Hres' & Hnd' & Hlen & Hgen & Hrefs' & Hsame);
      [done | |].
    { eapply Forall_impl; [exact Hrefs|]. intros r Hr. cbn beta in Hr. lia. }
    assert ((a ∉ br.*2) ∧ (p ∉ br.*2)) as [Hna Hnp].
    { rewrite Forall_forall in Hrefs. split; intros Hin;
        destruct (Hrefs _ Hin) as (_ & ? & ?); done. }
    exists br', h'. split_and!; [done | | done |].
    + unfold buckets_at. cbn [b_accepted b_pending b_by_reason].
      rewrite !Hsame by (done || lia).
      split_and!; try done; try lia.
      * apply Forall_forall. intros r Hr.
        destruct (Hrefs' r Hr) as [Hlt [Hold|Hnew]].
        -- rewrite Forall_forall in Hrefs.
           destruct (Hrefs r Hold) as (? & ? & ?). split_and!; [lia | done..].
        -- split_and!; lia.
      * by rewrite Hres', Hres.
    + intros l Hl. apply Hsame; [lia|].
      intros Hin. rewrite Forall_forall in Hrefs.
      destruct (Hrefs l Hin) as (? & _). lia.
  - exists br, (update_list p (λ xs, xs ++ [d]) h).2.
    split_and!; [reflexivity | | reflexivity |].
    + unfold buckets_at. rewrite !update_list_length, !update_list_lookup.
      rewrite (decide_False (P := p = a)), (decide_True (P := p = p)) by done.
      rewrite Hpen.
      split_and!; try done; try lia.
      cbn [b_by_reason]. rewrite <- Hres. apply resolve_ext. intros r Hr.
      rewrite update_list_lookup, decide_False; [done|].
      rewrite Forall_forall in Hrefs. destruct (Hrefs r Hr) as (_ & _ & ?). done.
    + intros l Hl. rewrite update_list_lookup, decide_False; [done | lia].
Qed.

Lemma partition_obj_loop n a p ds : ∀ br h b,
  buckets_at n a p br h b →
  ∃ br' h',
    for_each ds (partition_obj a p) br h = (Ok br', h')
    ∧ buckets_at n a p br' h' (foldl partition_step b ds)
    ∧ generator h' = generator h
    ∧ preserves n h h'.
Proof.
  induction ds as [|d ds IH]; intros br h b Hinv.
  - exists br, h. by split_and!.
  - destruct (partition_obj_run n a p br h b d Hinv)
      as (br1 & h1 & Hrun1 & Hinv1 & Hgen1 & Hpres1).
    destruct (IH br1 h1 _ Hinv1) as (br' & h' & Hrun & Hinv' & Hgen & Hpres).
    exists br', h'. rewrite for_each_cons, Hrun1. cbn [foldl].
    split_and!; [done | done | congruence |].
    intros l Hl. rewrite Hpres, Hpres1; done.
Qed.

(** One turn of the sampling loop on objects does what the turn on
    values does, and writes to [sampled_rejected] only. *)
Lemma sample_group_obj_run self sr entry h acc :
  lists h !! sr = Some acc →
  match sample_group self acc (entry.1, default [] (lists h !! entry.2))
          (generator h) with
  | (Ok acc', g') =>
    ∃ h', sample_group_obj self sr tt entry h = (Ok tt, h')
          ∧ lists h' !! sr = Some acc'
          ∧ generator h' = g'
          ∧ length (lists h') = length (lists h)
          ∧ ∀ l, l ≠ sr → lists h' !! l = lists h !! l
  | (Raise e, g') =>
    ∃ h', sample_group_obj self sr tt entry h = (Raise e, h')
          ∧ generator h' = g'
          ∧ lists h' = lists h
  end.
Proof.
  intros Hsr. unfold sample_group, sample_group_obj. cbn [snd].
  erewrite (bind_Ok (read_list entry.2)) by reflexivity.
  set (items := default [] (lists h !! entry.2)).
  case_decide as Hsz.
  - exists (mkHeap (alter (λ xs, xs ++ items) sr (lists h)) (generator h)).
    split_and!; [reflexivity | | reflexivity | apply length_alter |].
    + cbn. by rewrite list_lookup_alter_eq, Hsr.
    + intros l Hl. cbn. by rewrite list_lookup_alter_ne.
  - unfold mbind at 1, M_bind at 1, bind at 1.
    destruct (random_sample items (per_reason self) (generator h))
      as [[drawn|e] g'] eqn:Hdraw.
    + exists (mkHeap (alter (λ xs, xs ++ drawn) sr (lists h)) g').
      split_and!; [| | reflexivity | |].
      * erewrite bind_Ok by (unfold draw; rewrite Hdraw; reflexivity).
        reflexivity.
      * cbn. by rewrite list_lookup_alter_eq, Hsr.
      * apply length_alter.
      * intros l Hl. cbn. by rewrite list_lookup_alter_ne.
    + exists (mkHeap (lists h) g'). split_and!; [| reflexivity | reflexivity].
      erewrite bind_Raise by (unfold draw; rewrite Hdraw; reflexivity).
      reflexivity.
Qed.

Lemma sample_group_obj_loop self sr br : ∀ h acc,
  lists h !! sr = Some acc →
  sr ∉ br.*2 →
  match for_each (resolve h br) (sample_group self) acc (generator h) with
  | (Ok acc', g') =>
    ∃ h', for_each br (sample_group_obj self sr) tt h = (Ok tt, h')
          ∧ lists h' !! sr = Some acc'
          ∧ generator h' = g'
          ∧ length (lists h') = length (lists h)
          ∧ ∀ l, l ≠ sr → lists h' !! l = lists h !! l
  | (Raise e, g') =>
    ∃ h', for_each br (sample_group_obj self sr) tt h = (Raise e, h')
          ∧ generator h' = g'
          ∧ length (lists h') = length (lists h)
          ∧ ∀ l, l ≠ sr → lists h' !! l = lists h !! l
  end.
Proof.
  induction br as [|[k r] br IH]; intros h acc Hsr Hnin.
  - cbn. exists h. by split_and!.
  - cbn [fmap list_fmap snd] in Hnin. apply not_elem_of_cons in Hnin as [Hne Hnin].
    unfold resolve. cbn [fmap list_fmap fst snd]. fold (resolve h br).
    rewrite !for_each_cons.
    pose proof (sample_group_obj_run self sr (k, r) h acc Hsr) as Hturn.
    cbn [fst snd] in Hturn.
    destruct (sample_group self acc (k, default [] (lists h !! r)) (generator h))
      as [[acc1|e] g1].
    + destruct Hturn as (h1 & -> & Hsr1 & <- & Hlen1 & Hsame1).
      specialize (IH h1 acc1 Hsr1 Hnin).
      rewrite (resolve_ext h h1 br) in IH.
      2:{ intros r' Hr'. apply Hsame1. by intros ->. }
      destruct (for_each (resolve h br) _ acc1 (generator h1)) as [[acc'|e] g'].
      * destruct IH as (h' & -> & Hsr' & <- & Hlen & Hsame).
        exists h'. split_and!; [done | done | done | congruence |].
        intros l Hl. by rewrite Hsame, Hsame1.
      * destruct IH as (h' & -> & <- & Hlen & Hsame).
        exists h'. split_and!; [done | done | congruence |].
        intros l Hl. by rewrite Hsame, Hsame1.
    + destruct Hturn as (h1 & -> & <- & Hlists).
      exists h1. split_and!; [done | done | by rewrite Hlists |].
      intros l _. by rewrite Hlists.
Qed.

(** [sample_obj] computes what [sample] computes, hands back the very
    list it was given when that is within the threshold, and in every
    case leaves the list objects that were there before the call,
    the caller's list among them, as they were. *)
Lemma sample_obj_run self decisions_ ds h :
  lists h !! decisions_ = Some ds →
  match sample self ds (generator h) with
  | (Ok (out, b), g') =>
    ∃ r h', sample_obj self decisions_ h = (Ok (r, b), h')
            ∧ lists h' !! r = Some out
            ∧ generator h' = g'
            ∧ preserves (length (lists h)) h h'
            ∧ (b = false → r = decisions_ ∧ h' = h)
  | (Raise e, g') =>
    ∃ h', sample_obj self decisions_ h = (Raise e, h')
          ∧ generator h' = g'
          ∧ preserves (length (lists h)) h h'
  end.
Proof.
  intros Hds. unfold sample_obj.
  erewrite bind_Ok by reflexivity. cbn [default from_option]. rewrite Hds.
  cbn [default from_option id].
  destruct (decide (len ds ≤ threshold self)) as [Hlen|Hlen].
  - rewrite sample_under by done. exists decisions_, h. by split_and!.
  - rewrite sample_over by done.
    set (n := length (lists h)).
    erewrite bind_Ok by apply new_list_run.
    erewrite bind_Ok by apply new_list_run.
    cbn [lists generator]. rewrite length_app. cbn [length]. fold n.
    set (h2 := mkHeap ((lists h ++ [[]]) ++ [[]]) (generator h)).
    assert (buckets_at n n (n + 1) [] h2 (mkBuckets [] [] [])) as Hinv.
    { unfold buckets_at, h2. cbn [lists fmap list_fmap b_accepted b_pending b_by_reason].
      rewrite !length_app. cbn [length]. fold n.
      split_and!; try lia; try done; try (by constructor).
      - rewrite lookup_app_l by (rewrite length_app; cbn; fold n; lia).
        unfold n. by rewrite list_lookup_middle.
      - rewrite list_lookup_middle; [done|]. rewrite length_app. cbn. fold n. lia. }
    destruct (partition_obj_loop n n (n + 1) ds [] h2 _ Hinv)
      as (br & h3 & Hloop & Hinv3 & Hgen3 & Hpres3).
    fold (partition_of ds) in Hinv3.
    erewrite bind_Ok by exact Hloop.
    destruct Hinv3 as (Ha & Hp & Hap & Hnd & Hrefs & Hacc & Hpen & Hres).
    erewrite bind_Ok by apply new_list_run.
    set (sr := length (lists h3)).
    set (h4 := mkHeap (lists h3 ++ [[]]) (generator h3)).
    assert (lists h4 !! sr = Some []) as Hsr
      by (unfold h4, sr; cbn; by rewrite list_lookup_middle).
    assert (sr ∉ br.*2) as Hfresh.
    { intros Hin. rewrite Forall_forall in Hrefs.
      destruct (Hrefs sr Hin) as (? & _). unfold sr in *. lia. }
    pose proof (sample_group_obj_loop self sr br h4 [] Hsr Hfresh) as Hsample.
    rewrite (resolve_ext h3 h4 br) in Hsample.
    2:{ intros r Hr. unfold h4. cbn [lists]. rewrite lookup_app_l; [done|].
        rewrite Forall_forall in Hrefs. destruct (Hrefs r Hr) as (? & _). lia. }
    rewrite Hres in Hsample.
    replace (generator h4) with (generator h) in Hsample
      by (unfold h4; cbn [generator]; rewrite Hgen3; reflexivity).
    assert (preserves n h h4) as Hpres4.
    { intros l Hl. unfold h4. cbn [lists].
      rewrite lookup_app_l by lia. rewrite Hpres3 by done.
      unfold h2. cbn [lists]. rewrite !lookup_app_l; [done | lia |].
      rewrite length_app. cbn. fold n. lia. }
    destruct (for_each (b_by_reason (partition_of ds)) (sample_group self) []
                (generator h)) as [[sampled|e] g'].
    + destruct Hsample as (h5 & Hrun5 & Hsr5 & Hgen5 & Hlen5 & Hsame5).
      erewrite bind_Ok by exact Hrun5.
      assert (sr ≠ n ∧ sr ≠ (n + 1)%nat) as [Hsn Hsn1] by (unfold sr; lia).
      erewrite bind_Ok by reflexivity.
      erewrite bind_Ok by reflexivity.
      erewrite bind_Ok by reflexivity.
      rewrite Hsr5, !Hsame5 by done.
      unfold h4 at 1 2. cbn [lists].
      rewrite !lookup_app_l by lia. rewrite Hacc, Hpen.
      cbn [default from_option id].
      erewrite bind_Ok by apply new_list_run.
      erewrite bind_Ok by reflexivity.
      assert (n < length (lists h5))%nat as Hn5
        by (rewrite Hlen5; unfold h4; cbn [lists]; rewrite length_app; lia).
      eexists _, _. split_and!; [reflexivity | | done | | done].
      * cbn. rewrite list_lookup_alter_eq, list_lookup_middle by done. done.
      * intros l Hl. cbn. rewrite list_lookup_alter_ne by lia.
        rewrite lookup_app_l by lia.
        rewrite Hsame5 by (unfold sr; lia). by apply Hpres4.
    + destruct Hsample as (h5 & Hrun5 & Hgen5 & Hlen5 & Hsame5).
      erewrite bind_Raise by exact Hrun5.
      exists h5. split_and!; [done | done |].
      intros l Hl. rewrite Hsame5 by (unfold sr; lia).
      by apply Hpres4.
Qed.

End ObjectFacts.

(** C2: a list that is not longer than the threshold comes back as it
    is, with [was_sampled = false] and without touching the generator;
    so sampling what an earlier call returned changes nothing once it
    is within the threshold.  On list objects, the reference that
    comes back is the one that was passed, and no list is created or
    changed. *)
Theorem sample_noop `{RandomSource} (self : DecisionSampler)
    (ds : list Decision) (g : rng) :
  len ds ≤ threshold self →
  sample self ds g = (Ok (ds, false), g)
  ∧ (∀ ds0 g0 b, sample self ds0 g0 = (Ok (ds, b), g) →
       (r ← sample self ds0; sample self r.1) g0 = (Ok (ds, false), g))
  ∧ (∀ h decisions_, lists h !! decisions_ = Some ds →
       sample_obj self decisions_ h = (Ok (decisions_, false), h)).
Proof.
  intros Hlen. split_and!.
  - by apply sample_under.
  - intros ds0 g0 b Hs. erewrite bind_Ok by exact Hs. cbn [fst].
    by apply sample_under.
  - intros h decisions_ Hds. unfold sample_obj.
    erewrite bind_Ok by reflexivity. rewrite Hds. cbn [default from_option id].
    by rewrite decide_True.
Qed.

Lemma sample_noop_witness :
  len four_decisions ≤ threshold _sampler
  ∧ @sample WindowSource _sampler four_decisions 7%nat
    = (Ok (four_decisions, false), 7%nat).
Proof.
  assert (len four_decisions ≤ threshold _sampler) as Hlen
    by (vm_compute; discriminate).
  split; [exact Hlen|].
  exact (proj1 (@sample_noop WindowSource _sampler four_decisions 7%nat Hlen)).
Defined.

(** ** The outcomes of a step submission *)

Section OutcomeFacts.
Context `{RandomSource}.
Implicit Types (w : World) (step_input : Step).

(** The stats depend on the types and reasons of the decisions only,
    so normalizing the submission does not change them. *)
Lemma compute_stats_imap (f : nat → Decision → Decision) ds :
  (∀ i d, decision_type (f i d) = decision_type d ∧ reason (f i d) = reason d) →
  compute_stats (imap f ds) = compute_stats ds.
Proof.
  intros Hf.
  assert (∀ t acc, foldl (λ acc d, if is_type t d then acc + 1 else acc) acc (imap f ds)
                   = foldl (λ acc d, if is_type t d then acc + 1 else acc) acc ds)
    as Hsum.
  { intros t. clear -Hf. revert f Hf.
    induction ds as [|d ds IH]; intros f Hf acc; [done|].
    cbn [imap foldl].
    replace (is_type t (f 0%nat d)) with (is_type t d)
      by (unfold is_type; by rewrite (proj1 (Hf 0%nat d))).
    apply IH. intros i d'. apply Hf. }
  assert (∀ m, foldl count_reason m (imap f ds) = foldl count_reason m ds) as Hrs.
  { clear -Hf. revert f Hf.
    induction ds as [|d ds IH]; intros f Hf m; [done|].
    cbn [imap foldl].
    assert (count_reason m (f 0%nat d) = count_reason m d) as ->.
    { unfold count_reason, is_type, reason_key.
      destruct (Hf 0%nat d) as [-> ->]. done. }
    apply IH. intros i d'. apply Hf. }
  destruct ds as [|d ds]; [done|].
  pose proof (length_imap f (d :: ds)) as Hlen.
  cbn [imap] in *. unfold compute_stats, sum_ones, len.
  by rewrite Hlen, !Hsum, Hrs.
Qed.

Lemma compute_stats_normalize ds : compute_stats (normalize ds) = compute_stats ds.
Proof. by apply compute_stats_imap. Qed.

(** Every way a submission within the limits can end. *)
Lemma post_step_within run_id step_input w :
  len (default [] (decisions step_input)) ≤ MAX_DECISIONS_PER_STEP →
  len (default [] (evidence step_input)) ≤ MAX_EVIDENCE_PER_STEP →
  let kept := (kept_decisions step_input (random_state w)).1.1 in
  let w1 := stored_world run_id step_input w in
  let srow := step_row run_id step_input
                (len (List.filter (is_step_of run_id) (database w)))
                (Some (uuid_supply w))
                (reading (clock w)) (reading (tick (clock w))) in
  let w2 := with_clock
              (with_objects w1
                 (session w1
                  ++ evidence_rows (clock w1) (default [] (evidence step_input))))
              (clock_after (clock w1)
                 (ev_timestamp <$> default [] (evidence step_input))) in
  (List.find (is_run run_id) (database w) = None
   ∧ post_step run_id step_input w =
       (Raise (HTTPException 404 ("Run " +:+ pretty run_id +:+ " not found")),
        close_session w))
  ∨ (truthy (evidence step_input) = true
     ∧ len (default [] (evidence step_input)) > len kept
     ∧ ∃ detail, post_step run_id step_input w =
                   (Raise (HTTPException 400 detail), close_session w1))
  ∨ (truthy (evidence step_input) = true
     ∧ len (default [] (evidence step_input)) ≤ len kept
     ∧ record_step run_id step_input (close_session w) = (Raise IntegrityError, w2)
     ∧ post_step run_id step_input w = (Raise IntegrityError, close_session w2))
  ∨ (truthy (evidence step_input) = false
     ∧ ∃ rows next,
         Forall2 inserted
           (decision_rows step_input (random_state w) (Some (uuid_supply w))
              (tick (tick (clock w))))
           rows
         ∧ post_step run_id step_input w =
             (Ok (mkResponse (Some (uuid_supply w)) (expected_stats step_input)
                    (expected_summary step_input (random_state w))),
              mkWorld (kept_decisions step_input (random_state w)).2
                (database w ++ srow :: rows) [] 0 next (clock w1))).
Proof.
  intros Hn Hm kept w1 srow w2. rewrite !post_step_run.
  destruct (List.find (is_run run_id) (database w)) as [r|] eqn:Hrun.
  2:{ left. split; [done|].
      by rewrite record_step_not_found. }
  right.
  pose proof (record_step_prefix run_id step_input (random_state w) (database w)
                (uuid_supply w) (clock w) r Hn Hm Hrun) as Hpre.
  change (mkWorld (random_state w) (database w) [] 0 (uuid_supply w) (clock w))
    with (close_session w) in Hpre.
  change (stored_world run_id step_input (close_session w)) with w1 in Hpre.
  destruct (truthy (evidence step_input)) eqn:Hev.
  - destruct (decide (len (default [] (evidence step_input)) ≤ len kept))
      as [Hfew|Hmany].
    + right. left. split_and!; [done | done | |].
      * rewrite Hpre. by apply finish_step_unbound.
      * rewrite Hpre. unfold w1. by rewrite finish_step_unbound.
    + left. split_and!; [done | lia |].
      destruct (finish_step_too_many run_id step_input w Hev) as [detail Hf];
        [fold kept; lia|].
      exists detail. rewrite Hpre. unfold w1. by rewrite Hf.
  - right. right. split; [done|].
    destruct (finish_step_success run_id step_input w Hev)
      as (rows & next & Hrows & Hf).
    exists rows, next. split; [done|].
    rewrite Hpre. unfold w1. by rewrite Hf.
Qed.

(** Evidence that has no decision to go with, or that outnumbers the
    kept decisions, is turned down with a 400 and nothing is stored. *)
Lemma post_step_evidence_rejected run_id step_input w r :
  len (default [] (decisions step_input)) ≤ MAX_DECISIONS_PER_STEP →
  len (default [] (evidence step_input)) ≤ MAX_EVIDENCE_PER_STEP →
  List.find (is_run run_id) (database w) = Some r →
  truthy (evidence step_input) = true →
  (kept_decisions step_input (random_state w)).1.1 = []
  ∨ len (default [] (evidence step_input))
      > len (kept_decisions step_input (random_state w)).1.1 →
  ∃ detail w',
    post_step run_id step_input w = (Raise (HTTPException 400 detail), w')
    ∧ database w' = database w.
Proof.
  intros Hn Hm Hrun Hev Hbad.
  assert (len (default [] (evidence step_input))
          > len (kept_decisions step_input (random_state w)).1.1) as Hmany.
  { destruct Hbad as [->|?]; [|done].
    apply truthy_len in Hev. unfold len in *. cbn [length]. lia. }
  destruct (post_step_within run_id step_input w Hn Hm)
    as [[Hnone _]|[(_ & _ & detail & Hp)|[(_ & Hfew & _)|(Hnev & _)]]].
  - congruence.
  - by eexists _, _.
  - lia.
  - congruence.
Qed.

End OutcomeFacts.

(** ** The claims about a step submission *)

Section StepClaims.
Context `{RandomSource}.
Implicit Types (w : World) (step_input : Step).

(** C7: a submission with more decisions or more evidence items than
    the configured limits is turned down with a 413 before anything
    else happens: the world, generator and session included, is as it
    was, and nothing reaches the database.  A submission within both
    limits is never answered with a 413. *)
Theorem post_step_guardrail run_id step_input w :
  (len (default [] (decisions step_input)) > MAX_DECISIONS_PER_STEP
   ∨ len (default [] (evidence step_input)) > MAX_EVIDENCE_PER_STEP →
   ∃ detail,
     record_step run_id step_input w = (Raise (HTTPException 413 detail), w)
     ∧ post_step run_id step_input w
       = (Raise (HTTPException 413 detail), close_session w))
  ∧ (len (default [] (decisions step_input)) ≤ MAX_DECISIONS_PER_STEP →
     len (default [] (evidence step_input)) ≤ MAX_EVIDENCE_PER_STEP →
     ∀ detail,
       (post_step run_id step_input w).1 ≠ Raise (HTTPException 413 detail)).
Proof.
  split.
  - intros Hover.
    destruct (record_step_over run_id step_input w Hover) as [detail Hr].
    destruct (record_step_over run_id step_input (close_session w) Hover)
      as [detail' Hr'].
    assert (detail' = detail) as ->.
    { unfold record_step in Hr, Hr'.
      destruct (check_limits_over step_input w Hover) as [d Hc].
      erewrite bind_Raise in Hr by exact Hc.
      unfold check_limits in Hc.
      assert (check_limits step_input (close_session w)
              = (Raise (HTTPException 413 d), close_session w)) as Hc'.
      { unfold check_limits. repeat case_match; try done; by injection Hc as <-. }
      erewrite bind_Raise in Hr' by exact Hc'. congruence. }
    exists detail. split; [done|]. by rewrite post_step_run, Hr'.
  - intros Hn Hm detail.
    destruct (post_step_within run_id step_input w Hn Hm)
      as [[_ ->]|[(_ & _ & d & ->)|[(_ & _ & _ & ->)|(_ & rows & next & _ & ->)]]];
      cbn [fst]; congruence.
Qed.

(** C6, where the code departs from it: a submission that passes
    every check and carries evidence for its kept decisions is not
    stored.  The evidence rows are built from the [id] of decision
    rows that are still pending, so each gets [decision_id = NULL],
    the commit raises, and the request leaves the database as it
    was. *)
Theorem post_step_evidence_unbound run_id step_input w r :
  len (default [] (decisions step_input)) ≤ MAX_DECISIONS_PER_STEP →
  len (default [] (evidence step_input)) ≤ MAX_EVIDENCE_PER_STEP →
  List.find (is_run run_id) (database w) = Some r →
  truthy (evidence step_input) = true →
  len (default [] (evidence step_input))
    ≤ len (kept_decisions step_input (random_state w)).1.1 →
  let w1 := stored_world run_id step_input w in
  record_step run_id step_input (close_session w) =
    (Raise IntegrityError,
     with_clock
       (with_objects w1
          (session w1
           ++ evidence_rows (clock w1) (default [] (evidence step_input))))
       (clock_after (clock w1)
          (ev_timestamp <$> default [] (evidence step_input))))
  ∧ ∃ w', post_step run_id step_input w = (Raise IntegrityError, w')
          ∧ database w' = database w.
Proof.
  intros Hn Hm Hrun Hev Hfew w1.
  destruct (post_step_within run_id step_input w Hn Hm)
    as [[Hnone _]|[(_ & Hmany & _)|[(_ & _ & Hr & Hp)|(Hnev & _)]]].
  - congruence.
  - lia.
  - split; [done|]. by eexists.
  - congruence.
Qed.

(** C3: the totals of the stats add up; [sample], run on the list
    object the stats were computed from, leaves that object (and every
    other list that existed) as it was, so stats computed from it
    afterwards are the same; and the stats a recorded step is answered
    and stored with are those of the whole submission, whatever the
    sampler kept. *)
Theorem compute_stats_invariant self (h : Heap) (decisions_ : nat)
    (ds : list Decision) :
  lists h !! decisions_ = Some ds →
  output_count (compute_stats ds) + count_type rejected ds + count_type pending ds
    = input_count (compute_stats ds)
  ∧ lists (sample_obj self decisions_ h).2 !! decisions_ = Some ds
  ∧ compute_stats (default [] (lists (sample_obj self decisions_ h).2 !! decisions_))
    = compute_stats ds
  ∧ preserves (length (lists h)) h (sample_obj self decisions_ h).2
  ∧ (∀ run_id step_input w resp w',
       decisions step_input = Some ds →
       post_step run_id step_input w = (Ok resp, w') →
       stats resp = (if decide (ds = []) then None else Some (compute_stats ds))
       ∧ ∃ s, Db.OStep s ∈ database w'
              ∧ Db.Step.id s = step_id resp
              ∧ Db.Step.stats s = stats resp).
Proof.
  intros Hds.
  assert (preserves (length (lists h)) h (sample_obj self decisions_ h).2) as Hpres.
  { pose proof (sample_obj_run self decisions_ ds h Hds) as Hrun.
    destruct (sample self ds (generator h)) as [[[out b]|e] g'].
    - destruct Hrun as (r & h' & -> & _ & _ & Hp & _). exact Hp.
    - destruct Hrun as (h' & -> & _ & Hp). exact Hp. }
  assert (lists (sample_obj self decisions_ h).2 !! decisions_ = Some ds) as Hsame.
  { rewrite Hpres; [done|]. by eapply lookup_lt_Some. }
  split_and!; [apply compute_stats_totals | done | by rewrite Hsame | done |].
  intros run_id step_input w resp w' Hdec Hpost.
  assert (expected_stats step_input
          = if decide (ds = []) then None else Some (compute_stats ds)) as Hexp.
  { unfold expected_stats. rewrite Hdec. cbn [default from_option id].
    destruct ds as [|d ds']; [done|]. cbn [truthy].
    rewrite decide_False by done. by rewrite compute_stats_normalize. }
  destruct (decide (len (default [] (decisions step_input)) ≤ MAX_DECISIONS_PER_STEP
                    ∧ len (default [] (evidence step_input)) ≤ MAX_EVIDENCE_PER_STEP))
    as [[Hn Hm]|Hover].
  - destruct (post_step_within run_id step_input w Hn Hm)
      as [[_ Hp]|[(_ & _ & d & Hp)|[(_ & _ & _ & Hp)|(_ & rows & next & _ & Hp)]]];
      rewrite Hp in Hpost; try done.
    injection Hpost as <- <-. cbn [stats step_id database]. split; [done|].
    unfold step_row. eexists.
    split; [apply elem_of_app; right; apply list_elem_of_here|].
    split; reflexivity.
  - destruct (record_step_over run_id step_input (close_session w)) as [d Hr];
      [lia|].
    rewrite post_step_run, Hr in Hpost. done.
Qed.

End StepClaims.

(** ** Step submissions on concrete inputs *)

(** The step with one decision and one evidence item, sent to the
    run that exists: the handler raises at the commit, the request is
    answered with a server error and the database is as before. *)
Example post_step_with_evidence :
  (@post_step WindowSource 7%nat step_with_evidence one_run_world).1
    = Raise IntegrityError
  ∧ database (@post_step WindowSource 7%nat step_with_evidence one_run_world).2
    = database one_run_world
  ∧ session (@record_step WindowSource 7%nat step_with_evidence one_run_world).2
      !! 2%nat
    = Some (Db.OEvidence (Db.Evidence.mk None None "llm_output" "raw" 1700000003)).
Proof. vm_compute. done. Qed.

(** The same step without the evidence is stored. *)
Example post_step_without_evidence :
  ∃ resp w',
    @post_step WindowSource 7%nat step_of_decisions one_run_world = (Ok resp, w')
    ∧ step_id resp = Some 100%nat
    ∧ sampling_summary resp = Some (mkSummary 4 4 false)
    ∧ length (database w') = 6%nat.
Proof. eexists _, _. split_and!; vm_compute; reflexivity. Qed.

Lemma post_step_guardrail_witness :
  len (default [] (evidence step_over_limit)) > MAX_EVIDENCE_PER_STEP
  ∧ ∃ detail,
      @post_step WindowSource 7%nat step_over_limit one_run_world
      = (Raise (HTTPException 413 detail), close_session one_run_world).
Proof.
  assert (len (default [] (evidence step_over_limit)) > MAX_EVIDENCE_PER_STEP)
    as Hm by (vm_compute; reflexivity).
  split; [exact Hm|].
  destruct (proj1 (@post_step_guardrail WindowSource 7%nat step_over_limit
                     one_run_world) (or_intror Hm)) as (detail & _ & Hp).
  exists detail. exact Hp.
Defined.

Lemma post_step_evidence_unbound_witness :
  len (default [] (decisions step_with_evidence)) ≤ MAX_DECISIONS_PER_STEP
  ∧ len (default [] (evidence step_with_evidence)) ≤ MAX_EVIDENCE_PER_STEP
  ∧ List.find (is_run 7%nat) (database one_run_world)
    = Some (Db.ORun (Db.Run.mk 7%nat "competitor_selection" "running"))
  ∧ truthy (evidence step_with_evidence) = true
  ∧ len (default [] (evidence step_with_evidence))
    ≤ len (kept_decisions step_with_evidence (random_state one_run_world)).1.1
  ∧ ∃ w', @post_step WindowSource 7%nat step_with_evidence one_run_world
          = (Raise IntegrityError, w')
          ∧ database w' = database one_run_world.
Proof.
  assert (len (default [] (decisions step_with_evidence)) ≤ MAX_DECISIONS_PER_STEP)
    as Hn by (vm_compute; discriminate).
  assert (len (default [] (evidence step_with_evidence)) ≤ MAX_EVIDENCE_PER_STEP)
    as Hm by (vm_compute; discriminate).
  assert (List.find (is_run 7%nat) (database one_run_world)
          = Some (Db.ORun (Db.Run.mk 7%nat "competitor_selection" "running")))
    as Hrun by reflexivity.
  assert (truthy (evidence step_with_evidence) = true) as Hev by reflexivity.
  assert (len (default [] (evidence step_with_evidence))
          ≤ len (kept_decisions step_with_evidence (random_state one_run_world)).1.1)
    as Hfew by (vm_compute; discriminate).
  split_and!; [exact Hn | exact Hm | exact Hrun | exact Hev | exact Hfew |].
  exact (proj2 (@post_step_evidence_unbound WindowSource 7%nat step_with_evidence
                  one_run_world _ Hn Hm Hrun Hev Hfew)).
Defined.

Lemma compute_stats_invariant_witness :
  lists heap_of_four !! 0%nat = Some four_decisions
  ∧ lists (@sample_obj WindowSource (mkSampler 3 2) 0%nat heap_of_four).2 !! 0%nat
    = Some four_decisions.
Proof.
  assert (lists heap_of_four !! 0%nat = Some four_decisions) as Hds by reflexivity.
  split; [exact Hds|].
  exact (proj1 (proj2 (@compute_stats_invariant WindowSource (mkSampler 3 2)
                         heap_of_four 0%nat four_decisions Hds))).
Defined.

(** The sampler on the list object of the four decisions: a new list
    comes back, with the sample, and the caller's list is intact. *)
Example sample_obj_four_decisions :
  @sample_obj WindowSource (mkSampler 3 2) 0%nat heap_of_four
  = (Ok (5%nat, true),
     @mkHeap WindowSource
       [ four_decisions;
         [decision_of "b" accepted None (Some 1)];
         [];
         [ decision_of "a" rejected (Some "price") (Some 0);
           decision_of "c" rejected (Some "price") (Some 2);
           decision_of "d" rejected (Some "price") (Some 3) ];
         [ decision_of "a" rejected (Some "price") (Some 0);
           decision_of "c" rejected (Some "price") (Some 2) ];
         take 3 four_decisions ]
       1%nat).
Proof. vm_compute. reflexivity. Qed.

(** * Further properties of the engine *)

(** ** What the stats add up to *)

Lemma reasons_total_insert (m : gmap string Z) r v :
  reasons_total (<[r := v]> m) = reasons_total m - default 0 (m !! r) + v.
Proof.
  unfold reasons_total.
  assert (∀ (j1 j2 : string) (z1 z2 y : Z), z1 + (z2 + y) = z2 + (z1 + y)) as Hcomm
    by (intros; lia).
  rewrite <- insert_delete_eq.
  rewrite map_fold_insert_L; [|by intros; apply Hcomm | apply lookup_delete_eq].
  destruct (m !! r) as [c|] eqn:Hr; cbn [default from_option id].
  - rewrite <- (insert_delete_id m r c) at 2 by done.
    rewrite map_fold_insert_L; [lia | by intros; apply Hcomm | apply lookup_delete_eq].
  - rewrite delete_id by done. lia.
Qed.

Lemma foldl_count_reason_total ds : ∀ m,
  reasons_total (foldl count_reason m ds) = reasons_total m + count_type rejected ds.
Proof.
  induction ds as [|d ds IH]; intros m; cbn [foldl].
  - unfold count_type, len. cbn. lia.
  - rewrite IH. unfold count_type. rewrite filter_cons. unfold count_reason.
    destruct (is_type rejected d) eqn:Hty.
    + apply is_type_true in Hty. rewrite decide_True by done.
      cbn zeta. rewrite reasons_total_insert, len_cons. lia.
    + rewrite decide_False; [lia|].
      intros Hd. apply is_type_true in Hd. congruence.
Qed.

(** X1: the counts of [rejection_reasons] add up to the number of
    rejected decisions, and the rejection rate lies between 0 and 1. *)
Theorem compute_stats_reasons_total (ds : list Decision) :
  reasons_total (rejection_reasons (compute_stats ds)) = count_type rejected ds
  ∧ (0 <= rejection_rate (compute_stats ds))%Q
  ∧ (rejection_rate (compute_stats ds) <= 1)%Q.
Proof.
  assert (0 ≤ count_type rejected ds ≤ len ds) as Hrej.
  { pose proof (count_type_total ds).
    pose proof (len_nonneg (filter (λ d, decision_type d = accepted) ds)).
    pose proof (len_nonneg (filter (λ d, decision_type d = rejected) ds)).
    pose proof (len_nonneg (filter (λ d, decision_type d = pending) ds)).
    unfold count_type in *. lia. }
  split_and!.
  - destruct ds as [|d ds]; [done|].
    cbn [compute_stats rejection_reasons].
    rewrite foldl_count_reason_total. unfold reasons_total.
    rewrite map_fold_empty. lia.
  - rewrite compute_stats_rate. case_decide; [done|].
    apply true_div_range; lia.
  - rewrite compute_stats_rate. case_decide; [done|].
    apply true_div_range; lia.
Qed.

Lemma count_type_Permutation t ds ds' :
  ds ≡ₚ ds' → count_type t ds = count_type t ds'.
Proof. intros Hp. unfold count_type, len. by rewrite Hp. Qed.

Lemma count_reason_of_Permutation r ds ds' :
  ds ≡ₚ ds' → count_reason_of r ds = count_reason_of r ds'.
Proof. intros Hp. unfold count_reason_of, len. by rewrite Hp. Qed.

Lemma stats_eq (s s' : StatsDict) :
  input_count s = input_count s' →
  output_count s = output_count s' →
  rejection_rate s = rejection_rate s' →
  rejection_reasons s = rejection_reasons s' →
  s = s'.
Proof. destruct s, s'; cbn; by intros -> -> -> ->. Qed.

(** X2: the stats do not depend on the order of the decisions. *)
Theorem compute_stats_Permutation (ds ds' : list Decision) :
  ds ≡ₚ ds' → compute_stats ds = compute_stats ds'.
Proof.
  intros Hp. apply stats_eq.
  - rewrite !compute_stats_input_count. unfold len. by rewrite Hp.
  - rewrite !compute_stats_output_count. by apply count_type_Permutation.
  - rewrite !compute_stats_rate.
    assert (len ds = len ds') as -> by (unfold len; by rewrite Hp).
    by rewrite (count_type_Permutation rejected ds ds').
  - apply map_eq. intros r. rewrite !compute_stats_reasons.
    by rewrite (count_reason_of_Permutation r ds ds').
Qed.

Lemma compute_stats_Permutation_witness :
  [decision_of "a" accepted None None; decision_of "b" rejected None None]
    ≡ₚ [decision_of "b" rejected None None; decision_of "a" accepted None None]
  ∧ compute_stats
      [decision_of "a" accepted None None; decision_of "b" rejected None None]
    = compute_stats
        [decision_of "b" rejected None None; decision_of "a" accepted None None].
Proof.
  assert ([decision_of "a" accepted None None; decision_of "b" rejected None None]
          ≡ₚ [decision_of "b" rejected None None; decision_of "a" accepted None None])
    as Hp by apply Permutation_swap.
  split; [exact Hp|]. exact (compute_stats_Permutation _ _ Hp).
Defined.

(** ** How much the sampler keeps *)

Section SampleSizeFacts.
Context `{RandomSource}.
Implicit Types (self : DecisionSampler) (g : rng) (ds out : list Decision).

Lemma kept_of_length self (br : list (string * list Decision)) sels :
  Forall2 (λ entry sel, kept_of self entry.2 sel) br sels →
  (length (concat sels) ≤ length (concat br.*2))%nat
  ∧ (length (concat sels) = length (concat br.*2)
     ↔ Forall (λ entry, len entry.2 ≤ per_reason self) br).
Proof.
  induction 1 as [|entry sel br sels (Hsub & Hlen & _) _ [IHle IHeq]].
  - cbn. split; [lia|]. split; [constructor | done].
  - cbn [fmap list_fmap concat]. rewrite !length_app.
    pose proof (submseteq_length _ _ Hsub) as Hsel. unfold len in Hlen.
    split; [lia|]. rewrite Forall_cons, <- IHeq. unfold len. lia.
Qed.

Lemma buckets_within_cap self ds :
  0 ≤ per_reason self →
  Forall (λ entry, len entry.2 ≤ per_reason self) (b_by_reason (partition_of ds))
  ↔ ∀ r, count_reason_of r ds ≤ per_reason self.
Proof.
  intros Hk. split.
  - intros Hall r. unfold count_reason_of. rewrite <- partition_of_group.
    destruct (decide (r ∈ (b_by_reason (partition_of ds)).*1)) as [Hin|Hnin].
    + apply list_elem_of_fmap in Hin as ([k items] & -> & Hin).
      rewrite Forall_forall in Hall. specialize (Hall _ Hin). cbn [fst snd] in *.
      by rewrite (dict_get_entry _ k items) by (apply partition_of_keys_NoDup || done).
    + rewrite dict_get_notin by done. unfold len. cbn. lia.
  - intros Hall. eapply Forall_impl; [apply partition_of_entries|].
    intros [k items] ->. apply Hall.
Qed.

(** X3: past the threshold the sampler never returns more than it was
    given, and it returns as many decisions as it was given, indeed
    the same decisions, exactly when no rejection bucket exceeds
    [per_reason]; in that case it makes no draw. *)
Theorem sample_reduces_iff self ds g out b g' :
  len ds > threshold self →
  0 ≤ per_reason self →
  sample self ds g = (Ok (out, b), g') →
  (length out ≤ length ds)%nat
  ∧ ((∀ r, count_reason_of r ds ≤ per_reason self) ↔ length out = length ds)
  ∧ ((∀ r, count_reason_of r ds ≤ per_reason self) → out ≡ₚ ds ∧ g' = g).
Proof.
  intros Hlen Hk Hs. assert (¬ len ds ≤ threshold self) as Hover by lia.
  pose proof (sample_Ok_submseteq _ _ _ _ _ _ Hs) as Hsub.
  pose proof (submseteq_length _ _ Hsub) as Hle.
  assert ((∀ r, count_reason_of r ds ≤ per_reason self)
          ↔ length out = length ds) as Hiff.
  { destruct (sample_over_Ok _ _ _ _ _ _ Hover Hs) as (_ & sels & Hout & Hsels).
    destruct (kept_of_length _ _ _ Hsels) as [_ Heq].
    rewrite <- buckets_within_cap, <- Heq by done.
    rewrite Hout, sort_by_length, !length_app.
    rewrite <- (Permutation_length (by_type_Permutation ds)), !length_app.
    rewrite (Permutation_length (partition_of_rejected ds)). lia. }
  split_and!; [done | done |].
  intros Hall. split.
  - apply submseteq_length_Permutation; [done|]. apply Hiff in Hall. lia.
  - rewrite sample_over in Hs by done.
    rewrite for_each_sample_group_whole in Hs; [by injection Hs|].
    by apply buckets_within_cap.
Qed.

(** X4: with a cap of at least one, no rejection reason disappears:
    for every rejected decision of the input that is counted under a
    reason [r] (its [reason] is [r], or it has none and [r] is
    ["unknown"]), the output holds a rejected decision counted under
    [r]. *)
Theorem sample_keeps_every_reason self ds g out b g' d r :
  1 ≤ per_reason self →
  sample self ds g = (Ok (out, b), g') →
  d ∈ ds →
  counted_under r d →
  ∃ d', d' ∈ out ∧ counted_under r d'.
Proof.
  intros Hk Hs Hd Hr.
  destruct (decide (len ds ≤ threshold self)) as [Hlen|Hlen].
  - rewrite sample_under in Hs by done. injection Hs as <- _ _.
    exists d. by split.
  - destruct (sample_over_bucket self ds g out b g' r)
      as (sel & Hsel & _ & Hsz & _); [done | lia | done |].
    rewrite <- !filter_counted_under in *.
    assert (d ∈ filter (counted_under r) ds) as Hin
      by (apply list_elem_of_filter; by split).
    assert (1 ≤ len sel) as Hpos.
    { rewrite Hsz. apply list_elem_of_lookup in Hin as [i Hi].
      apply lookup_lt_Some in Hi. unfold len. lia. }
    destruct sel as [|d' sel]; [unfold len in Hpos; cbn in Hpos; lia|].
    assert (d' ∈ filter (counted_under r) out) as Hd'
      by (rewrite Hsel; apply list_elem_of_here).
    apply list_elem_of_filter in Hd' as [? ?]. by exists d'.
Qed.

Lemma partition_no_rejected ds : ∀ b,
  (∀ d, d ∈ ds → decision_type d ≠ rejected) →
  b_by_reason (foldl partition_step b ds) = b_by_reason b.
Proof.
  induction ds as [|d ds IH]; intros b Hnone; [done|]. cbn [foldl].
  rewrite IH by (intros d' Hd'; by apply Hnone, list_elem_of_further).
  unfold partition_step. specialize (Hnone d (list_elem_of_here _ _)).
  by destruct (decision_type d).
Qed.

(** X5: with a negative [per_reason], a list past the threshold that
    holds a rejected decision makes [sample] raise [ValueError] (from
    [random.sample]) without a draw; one that holds none is returned
    whole: the output is a permutation of the input in ascending order
    of sequence, flagged as sampled, and the generator is left as it
    was. *)
Theorem sample_negative_cap self ds g :
  per_reason self < 0 →
  len ds > threshold self →
  ((∃ d, d ∈ ds ∧ decision_type d = rejected) →
     sample self ds g = (Raise ValueError, g))
  ∧ ((∀ d, d ∈ ds → decision_type d ≠ rejected) →
     ∃ out, sample self ds g = (Ok (out, true), g)
            ∧ out ≡ₚ ds
            ∧ ascending out).
Proof.
  intros Hk Hlen. assert (¬ len ds ≤ threshold self) as Hover by lia.
  rewrite sample_over by done. split.
  - intros (d & Hd & Hty).
    destruct (b_by_reason (partition_of ds)) as [|[k items] br] eqn:Hbr.
    + pose proof (partition_of_group ds (reason_key d)) as Hgrp.
      rewrite Hbr in Hgrp. cbn in Hgrp.
      assert (d ∈ filter (rejected_as (reason_key d)) ds) as Hin
        by (apply list_elem_of_filter; by split).
      rewrite <- Hgrp in Hin. by apply elem_of_nil in Hin.
    + rewrite for_each_cons. unfold sample_group. cbn [snd].
      rewrite decide_False by (pose proof (len_nonneg items); lia).
      unfold mbind, M_bind, bind, random_sample.
      by rewrite decide_False by lia.
  - intros Hnone.
    assert (filter (λ d, decision_type d = rejected) ds = []) as Hrej.
    { apply filter_none, Forall_forall. intros d Hd. by apply Hnone. }
    assert (b_by_reason (partition_of ds) = []) as ->
      by (unfold partition_of; by rewrite partition_no_rejected).
    cbn [for_each]. eexists. split; [reflexivity|].
    split; [|apply sort_by_sorted].
    rewrite sort_by_Permutation, partition_of_accepted, partition_of_pending.
    rewrite <- (by_type_Permutation ds) at 3. by rewrite Hrej.
Qed.

End SampleSizeFacts.

Lemma sample_reduces_iff_witness :
  len four_decisions > threshold (mkSampler 3 2)
  ∧ 0 ≤ per_reason (mkSampler 3 2)
  ∧ (length (take 3 four_decisions) ≤ length four_decisions)%nat.
Proof.
  assert (len four_decisions > threshold (mkSampler 3 2)) as Hlen
    by (vm_compute; reflexivity).
  assert (0 ≤ per_reason (mkSampler 3 2)) as Hk by (cbn; lia).
  split_and!; [exact Hlen | exact Hk |].
  exact (proj1 (@sample_reduces_iff WindowSource _ _ _ _ _ _ Hlen Hk
                  sample_four_decisions)).
Defined.

Lemma sample_keeps_every_reason_witness :
  1 ≤ per_reason (mkSampler 3 2)
  ∧ decision_of "d" rejected (Some "price") (Some 3) ∈ four_decisions
  ∧ counted_under "price" (decision_of "d" rejected (Some "price") (Some 3))
  ∧ ∃ d', d' ∈ take 3 four_decisions ∧ counted_under "price" d'.
Proof.
  assert (1 ≤ per_reason (mkSampler 3 2)) as Hk by (cbn; lia).
  assert (decision_of "d" rejected (Some "price") (Some 3) ∈ four_decisions)
    as Hd by (do 3 apply list_elem_of_further; apply list_elem_of_here).
  assert (counted_under "price"
            (decision_of "d" rejected (Some "price") (Some 3))) as Hr
    by (split; [reflexivity | left; split; [reflexivity | discriminate]]).
  split_and!; [exact Hk | exact Hd | exact Hr |].
  exact (@sample_keeps_every_reason WindowSource _ _ _ _ _ _ _ _ Hk
           sample_four_decisions Hd Hr).
Defined.

Lemma sample_negative_cap_witness :
  per_reason (mkSampler 3 (-1)) < 0
  ∧ len four_decisions > threshold (mkSampler 3 (-1))
  ∧ @sample WindowSource (mkSampler 3 (-1)) four_decisions 0%nat
    = (Raise ValueError, 0%nat).
Proof.
  assert (per_reason (mkSampler 3 (-1)) < 0) as Hk by (cbn; lia).
  assert (len four_decisions > threshold (mkSampler 3 (-1))) as Hlen
    by (vm_compute; reflexivity).
  split_and!; [exact Hk | exact Hlen |].
  apply (proj1 (@sample_negative_cap WindowSource _ four_decisions 0%nat Hk Hlen)).
  exists (decision_of "a" rejected (Some "price") (Some 0)).
  split; [apply list_elem_of_here | reflexivity].
Defined.

(** ** Sampling a sample, and the stats of a sample *)

Section SampleAgainFacts.
Context `{RandomSource}.
Implicit Types (self : DecisionSampler) (g : rng) (ds out : list Decision).

(** Past the threshold, a list whose buckets are all within the cap
    is returned whole, in order of sequence, without a draw. *)
Lemma sample_whole self ds g :
  ¬ len ds ≤ threshold self →
  (∀ r, count_reason_of r ds ≤ per_reason self) →
  ∃ out, sample self ds g = (Ok (out, true), g) ∧ out ≡ₚ ds ∧ ascending out.
Proof.
  intros Hover Hall. rewrite sample_over by done.
  rewrite for_each_sample_group_whole.
  2:{ eapply Forall_impl; [apply partition_of_entries|].
      intros [k items] ->. apply Hall. }
  eexists. split_and!; [reflexivity | | apply sort_by_sorted].
  rewrite sort_by_Permutation, partition_of_accepted, partition_of_pending.
  cbn [app]. rewrite partition_of_rejected. apply by_type_Permutation.
Qed.

Lemma sample_over_count self ds g out b g' r :
  ¬ len ds ≤ threshold self →
  0 ≤ per_reason self →
  sample self ds g = (Ok (out, b), g') →
  count_reason_of r out = Z.min (count_reason_of r ds) (per_reason self).
Proof.
  intros Hover Hk Hs.
  destruct (sample_over_bucket self ds g out b g' r Hover Hk Hs)
    as (sel & Hsel & _ & Hsz & _).
  unfold count_reason_of, len in *. by rewrite (Permutation_length Hsel).
Qed.

Lemma sorted_lt_Permutation_eq (l1 l2 : list Decision) :
  strictly_ascending l1 → strictly_ascending l2 → l1 ≡ₚ l2 → l1 = l2.
Proof.
  unfold strictly_ascending. intros Hs1 Hs2 Hp.
  assert (∀ l, StronglySorted Z.lt (sequence_key <$> l) →
               StronglySorted (λ x y : Decision, sequence_key x < sequence_key y) l)
    as Hback.
  { induction l as [|x l IH]; [constructor|]. cbn [fmap list_fmap].
    intros [Hl Hx]%StronglySorted_inv. constructor; [by apply IH|].
    by rewrite Forall_fmap in Hx. }
  eapply (StronglySorted_unique_strong
            (λ x y : Decision, sequence_key x < sequence_key y));
    [| by apply Hback | by apply Hback | done].
  intros x1 x2 _ _ ? ?. lia.
Qed.

(** X6: sampling what [sample] returned makes no draw and drops
    nothing: the second output is a permutation of the first, and it
    is the first when the sequence values are pairwise distinct (with
    ties past the threshold, tied decisions can change places). *)
Theorem sample_again self ds g out b g' :
  0 ≤ per_reason self →
  sample self ds g = (Ok (out, b), g') →
  ∃ out2 b2,
    sample self out g' = (Ok (out2, b2), g')
    ∧ out2 ≡ₚ out
    ∧ (NoDup (sequence_key <$> ds) → out2 = out).
Proof.
  intros Hk Hs.
  destruct (decide (len out ≤ threshold self)) as [Hout|Hout].
  { exists out, false. by rewrite sample_under. }
  assert (¬ len ds ≤ threshold self) as Hover.
  { intros Hlen. rewrite sample_under in Hs by done. injection Hs as <- _ _. done. }
  assert (∀ r, count_reason_of r out ≤ per_reason self) as Hall.
  { intros r. rewrite (sample_over_count self ds g out b g' r) by done. lia. }
  destruct (sample_whole self out g' Hout Hall) as (out2 & Hs2 & Hp2 & Hasc2).
  exists out2, true. split_and!; [done | done |].
  intros Hnd.
  assert (NoDup (sequence_key <$> out)) as Hnd_out.
  { eapply submseteq_NoDup; [|exact Hnd].
    apply fmap_submseteq. by eapply sample_Ok_submseteq. }
  apply sorted_lt_Permutation_eq; [| |done].
  - apply sorted_le_NoDup_lt; [done|]. by rewrite Hp2.
  - apply sorted_le_NoDup_lt; [|done].
    apply sample_over_Ok in Hs as (_ & sels & -> & _); [|done].
    apply sort_by_sorted.
Qed.

(** X7: stats computed from a sample differ from the stats of the
    submission in a known way: the number of accepted and of pending
    decisions is the same, every reason is counted up to the cap only
    (the count of the rejected decisions whose [reason] it is, those
    without a reason counting under ["unknown"]), and [input_count] is
    the sample's length. *)
Theorem compute_stats_of_sample self ds g out b g' :
  len ds > threshold self →
  0 ≤ per_reason self →
  sample self ds g = (Ok (out, b), g') →
  output_count (compute_stats out) = output_count (compute_stats ds)
  ∧ count_type pending out = count_type pending ds
  ∧ (∀ r, rejection_reasons (compute_stats out) !! r =
          if decide (Z.min (count_under r ds) (per_reason self) = 0)
          then None
          else Some (Z.min (count_under r ds) (per_reason self)))
  ∧ input_count (compute_stats out) = len out
  ∧ input_count (compute_stats out) ≤ input_count (compute_stats ds).
Proof.
  intros Hlen Hk Hs. assert (¬ len ds ≤ threshold self) as Hover by lia.
  split_and!.
  - rewrite !compute_stats_output_count. unfold count_type, len.
    by rewrite (sample_over_type self ds g out b g' accepted).
  - unfold count_type, len.
    by rewrite (sample_over_type self ds g out b g' pending).
  - intros r. rewrite compute_stats_reasons, count_under_reason_of.
    by rewrite (sample_over_count self ds g out b g' r).
  - apply compute_stats_input_count.
  - rewrite !compute_stats_input_count. unfold len.
    apply inj_le, submseteq_length. by eapply sample_Ok_submseteq.
Qed.

End SampleAgainFacts.

(** Past the threshold and with tied sequence values, a second pass
    can reorder: the groups are met in another order. *)
Example sample_again_reorders :
  let b1 := decision_of "b1" rejected (Some "B") (Some 5) in
  let a1 := decision_of "a1" rejected (Some "A") (Some 0) in
  let a2 := decision_of "a2" rejected (Some "A") (Some 5) in
  @sample WindowSource (mkSampler 2 50) [b1; a1; a2] 0%nat
    = (Ok ([a1; b1; a2], true), 0%nat)
  ∧ @sample WindowSource (mkSampler 2 50) [a1; b1; a2] 0%nat
    = (Ok ([a1; a2; b1], true), 0%nat).
Proof. split; vm_compute; reflexivity. Qed.

Lemma sample_again_witness :
  0 ≤ per_reason (mkSampler 3 2)
  ∧ ∃ out2 b2,
      @sample WindowSource (mkSampler 3 2) (take 3 four_decisions) 1%nat
        = (Ok (out2, b2), 1%nat)
      ∧ out2 ≡ₚ take 3 four_decisions.
Proof.
  assert (0 ≤ per_reason (mkSampler 3 2)) as Hk by (cbn; lia).
  split; [exact Hk|].
  destruct (@sample_again WindowSource _ _ _ _ _ _ Hk sample_four_decisions)
    as (out2 & b2 & Hs & Hp & _).
  exists out2, b2. split; [exact Hs | exact Hp].
Defined.

Lemma compute_stats_of_sample_witness :
  len four_decisions > threshold (mkSampler 3 2)
  ∧ 0 ≤ per_reason (mkSampler 3 2)
  ∧ rejection_reasons (compute_stats (take 3 four_decisions)) !! "price" = Some 2.
Proof.
  assert (len four_decisions > threshold (mkSampler 3 2)) as Hlen
    by (vm_compute; reflexivity).
  assert (0 ≤ per_reason (mkSampler 3 2)) as Hk by (cbn; lia).
  split_and!; [exact Hlen | exact Hk |].
  destruct (@compute_stats_of_sample WindowSource _ _ _ _ _ _ Hlen Hk
              sample_four_decisions) as (_ & _ & Hr & _).
  rewrite Hr. vm_compute. reflexivity.
Defined.

(** ** Order of the kept decisions *)

Lemma sublist_sorted_lt (l k : list Decision) :
  l `sublist_of` k → strictly_ascending k → strictly_ascending l.
Proof.
  unfold strictly_ascending.
  induction 1 as [|x l k Hsub IH|x l k Hsub IH]; cbn [fmap list_fmap].
  - done.
  - intros [Hk Hx]%StronglySorted_inv. constructor; [by apply IH|].
    rewrite Forall_fmap in Hx |- *. rewrite Forall_forall in Hx |- *.
    intros y Hy. apply Hx. by eapply elem_of_sublist.
  - intros [Hk _]%StronglySorted_inv. by apply IH.
Qed.

(** X8: when the sequence values strictly increase along the input,
    whatever [sample] returns is a subsequence of the input: the kept
    decisions are in the order they were submitted in. *)
Theorem sample_sublist `{RandomSource} (self : DecisionSampler)
    (ds : list Decision) (g : rng) out b g' :
  strictly_ascending ds →
  sample self ds g = (Ok (out, b), g') →
  out `sublist_of` ds.
Proof.
  intros Hds Hs.
  destruct (decide (len ds ≤ threshold self)) as [Hlen|Hover].
  { rewrite sample_under in Hs by done. by injection Hs as <- _ _. }
  pose proof (sample_Ok_submseteq _ _ _ _ _ _ Hs) as Hsub.
  apply submseteq_sublist_r in Hsub as (l2 & Hp & Hl2).
  assert (out = l2) as ->; [|done].
  apply sorted_lt_Permutation_eq; [| by eapply sublist_sorted_lt | done].
  apply sorted_le_NoDup_lt.
  - apply sample_over_Ok in Hs as (_ & sels & -> & _); [|done].
    apply sort_by_sorted.
  - rewrite Hp. by apply sorted_lt_NoDup, (sublist_sorted_lt l2 ds).
Qed.

Lemma sample_sublist_witness :
  strictly_ascending four_decisions
  ∧ take 3 four_decisions `sublist_of` four_decisions.
Proof.
  assert (strictly_ascending four_decisions) as Hin.
  { unfold strictly_ascending. vm_compute.
    repeat (constructor; [|repeat constructor]). constructor. }
  split; [exact Hin|].
  exact (@sample_sublist WindowSource _ _ _ _ _ _ Hin sample_four_decisions).
Defined.

(** ** Normalizing a submission *)

Lemma normalize_one_twice i j d :
  normalize_one i (normalize_one j d) = normalize_one j d.
Proof.
  unfold normalize_one at 1. cbn [candidate_id decision_type reason score
    timestamp metadata normalize_one default from_option id].
  unfold normalize_one. do 2 f_equal. unfold setdefault at 1.
  by rewrite setdefault_lookup.
Qed.

(** X9: normalizing is idempotent, keeps the length, and changes no
    stats: a submission that went through [record_step]'s
    normalization once comes out of a second one as it is. *)
Theorem normalize_idempotent (ds : list Decision) :
  normalize (normalize ds) = normalize ds
  ∧ length (normalize ds) = length ds
  ∧ compute_stats (normalize ds) = compute_stats ds.
Proof.
  split_and!; [| apply normalize_length | apply compute_stats_normalize].
  apply list_eq. intros i. unfold normalize. rewrite !list_lookup_imap.
  destruct (ds !! i) as [d|]; [|done]. cbn. f_equal. apply normalize_one_twice.
Qed.

(** ** What a step submission leaves in the database *)

Section StepExtras.
Context `{RandomSource}.
Implicit Types (w : World) (step_input : Step).

Lemma copy_decision_id d : copy_decision d = d.
Proof. by destruct d. Qed.

Lemma inserted_decision_row sid created_at entry o :
  inserted (decision_row (Some sid) created_at entry) o →
  ∃ id, o = stored_decision id sid created_at entry.1 entry.2.
Proof. unfold inserted. cbn. intros [id ->]. by exists id. Qed.

(** What [sample], with the defaults, made of the submission. *)
Lemma kept_decisions_sample step_input g :
  truthy (decisions step_input) = true →
  sample _sampler (normalize (default [] (decisions step_input))) g
  = (Ok ((kept_decisions step_input g).1.1, (kept_decisions step_input g).1.2),
     (kept_decisions step_input g).2).
Proof.
  intros Htr. unfold kept_decisions. rewrite Htr.
  destruct (sample_default_returns
              (normalize (default [] (decisions step_input))) g)
    as (out & b & g' & ->). done.
Qed.

Lemma inserted_decision_rows step_input g sid c rows :
  Forall2 inserted (decision_rows step_input g (Some sid) c) rows →
  Forall2 (λ entry o, ∃ id, o = stored_decision id sid entry.1 entry.2.1 entry.2.2)
    (zip (created_ats c (timestamp <$> (kept_decisions step_input g).1.1))
       (imap pair (kept_decisions step_input g).1.1))
    rows.
Proof.
  intros Hrows. unfold decision_rows in Hrows.
  rewrite zip_with_zip, Forall2_fmap_l in Hrows.
  assert (copy_decision <$> (kept_decisions step_input g).1.1
          = (kept_decisions step_input g).1.1) as Hcopy.
  { rewrite <- (list_fmap_id (kept_decisions step_input g).1.1) at 2.
    apply list_fmap_ext. intros i d _. apply copy_decision_id. }
  rewrite Hcopy in Hrows.
  eapply Forall2_impl; [exact Hrows|].
  intros [created_at entry] o Hins. by apply inserted_decision_row.
Qed.

(** A submission that is answered with success was within the limits,
    for a run that exists, and without evidence; and this is what it
    is answered with and leaves behind. *)
Lemma post_step_Ok_inv run_id step_input w resp w' :
  post_step run_id step_input w = (Ok resp, w') →
  truthy (evidence step_input) = false
  ∧ (∃ r, List.find (is_run run_id) (database w) = Some r)
  ∧ ∃ rows next,
      Forall2 inserted
        (decision_rows step_input (random_state w) (Some (uuid_supply w))
           (tick (tick (clock w))))
        rows
      ∧ resp = mkResponse (Some (uuid_supply w)) (expected_stats step_input)
                 (expected_summary step_input (random_state w))
      ∧ w' = mkWorld (kept_decisions step_input (random_state w)).2
               (database w
                ++ step_row run_id step_input
                     (len (List.filter (is_step_of run_id) (database w)))
                     (Some (uuid_supply w))
                     (reading (clock w)) (reading (tick (clock w))) :: rows)
               [] 0 next
               (clock_after (tick (tick (clock w)))
                  (timestamp <$> (kept_decisions step_input (random_state w)).1.1)).
Proof.
  intros Hpost.
  destruct (decide (len (default [] (decisions step_input)) ≤ MAX_DECISIONS_PER_STEP
                    ∧ len (default [] (evidence step_input)) ≤ MAX_EVIDENCE_PER_STEP))
    as [[Hn Hm]|Hover].
  - destruct (post_step_within run_id step_input w Hn Hm)
      as [[_ Hp]|[(_ & _ & d & Hp)|[(_ & _ & _ & Hp)|(Hev & rows & next & Hrows & Hp)]]];
      rewrite Hp in Hpost; try done.
    injection Hpost as <- <-. split_and!; [done | | by eauto].
    destruct (List.find (is_run run_id) (database w)) as [r|] eqn:Hrun; [by eauto|].
    rewrite post_step_run, record_step_not_found in Hp by done. done.
  - destruct (record_step_over run_id step_input (close_session w)) as [d Hr];
      [lia|].
    rewrite post_step_run, Hr in Hpost. done.
Qed.

(** X10: a recorded step adds to the database, after everything that
    was there, its step row and one row per kept decision, in the
    order the sampler returned them.  The step row is started at the
    first reading of the clock and completed at the second.  Row [i]
    of the decisions belongs to the new step, has [sequence_order = i]
    and the fields of the kept decision, and a [created_at] that is
    the decision's timestamp when it has one and else a reading of
    its own, the readings being taken in the order of the rows; the
    request leaves the clock after the last of them.  No evidence row
    is added, and the session is closed. *)
Theorem post_step_stores run_id step_input w resp w' :
  post_step run_id step_input w = (Ok resp, w') →
  let kept := (kept_decisions step_input (random_state w)).1.1 in
  ∃ sid rows,
    step_id resp = Some sid
    ∧ database w' =
        database w
        ++ step_row run_id step_input
             (len (List.filter (is_step_of run_id) (database w))) (Some sid)
             (reading (clock w)) (reading (tick (clock w)))
           :: rows
    ∧ Forall2 (λ entry o,
                 ∃ id, o = stored_decision id sid entry.1 entry.2.1 entry.2.2)
        (zip (created_ats (tick (tick (clock w))) (timestamp <$> kept))
           (imap pair kept))
        rows
    ∧ length rows = length kept
    ∧ session w' = []
    ∧ clock w' = clock_after (tick (tick (clock w))) (timestamp <$> kept).
Proof.
  intros (_ & _ & rows & next & Hrows & -> & ->)%post_step_Ok_inv kept.
  exists (uuid_supply w), rows.
  split_and!; [done | done | | | done | done].
  - by apply inserted_decision_rows.
  - apply Forall2_length in Hrows. rewrite decision_rows_length in Hrows.
    done.
Qed.

(** X11: the step row gets as [sequence_order] the number of steps the
    run had, and afterwards the run has one step more: steps recorded
    one after the other for a run are numbered consecutively. *)
Theorem post_step_sequence_order run_id step_input w resp w' :
  post_step run_id step_input w = (Ok resp, w') →
  ∃ s, Db.OStep s ∈ database w'
       ∧ Db.Step.id s = step_id resp
       ∧ Db.Step.run_id s = run_id
       ∧ Db.Step.sequence_order s
         = len (List.filter (is_step_of run_id) (database w))
       ∧ len (List.filter (is_step_of run_id) (database w'))
         = len (List.filter (is_step_of run_id) (database w)) + 1.
Proof.
  intros (_ & _ & rows & next & Hrows & -> & ->)%post_step_Ok_inv.
  unfold step_row. eexists.
  split; [cbn [database]; apply elem_of_app; right; apply list_elem_of_here|].
  split_and!; [reflexivity..|].
  cbn [database]. rewrite List.filter_app. cbn [List.filter is_step_of].
  rewrite bool_decide_eq_true_2 by done.
  assert (List.filter (is_step_of run_id) rows = []) as ->.
  { apply inserted_decision_rows in Hrows.
    induction Hrows as [|entry o entries rows [id ->] _ IH]; [done|]. exact IH. }
  rewrite len_app. unfold len. cbn [length]. lia.
Qed.

End StepExtras.

(** ** The answers to a step submission *)

Section StepAnswers.
Context `{RandomSource}.
Implicit Types (w : World) (step_input : Step).

(** With a cap of at least one, a list that is not empty is not
    sampled down to nothing. *)
Lemma sample_nonempty (self : DecisionSampler) (ds : list Decision) g out b g' :
  1 ≤ per_reason self →
  ds ≠ [] →
  sample self ds g = (Ok (out, b), g') →
  out ≠ [].
Proof.
  intros Hk Hne Hs.
  destruct (decide (len ds ≤ threshold self)) as [Hlen|Hover].
  { rewrite sample_under in Hs by done. by injection Hs as <- _ _. }
  destruct ds as [|d ds]; [done|]. intros ->.
  destruct (decision_type d) eqn:Hty.
  - pose proof (sample_over_type _ _ _ _ _ _ accepted ltac:(done) Hover Hs) as Hp.
    rewrite filter_cons, decide_True in Hp by done. cbn in Hp.
    by apply Permutation_nil_cons in Hp.
  - destruct (sample_over_bucket self (d :: ds) g [] b g' (reason_key d))
      as (sel & Hsel & _ & Hsz & _); [done | lia | done |].
    cbn in Hsel. apply Permutation_nil_l in Hsel as <-.
    rewrite filter_cons, decide_True, len_cons in Hsz by done.
    pose proof (len_nonneg (filter (rejected_as (reason_key d)) ds)).
    unfold len in Hsz at 1. cbn in Hsz. lia.
  - pose proof (sample_over_type _ _ _ _ _ _ pending ltac:(done) Hover Hs) as Hp.
    rewrite filter_cons, decide_True in Hp by done. cbn in Hp.
    by apply Permutation_nil_cons in Hp.
Qed.

(** X12: the sampling summary of a recorded step with decisions:
    [total] is the number submitted, [kept] the number of decision
    rows stored, at least one and at most [total]; [sampled] says
    whether more than 500 were submitted, and when it is false all
    were kept.  A step without decisions has neither stats nor
    summary. *)
Theorem post_step_summary run_id step_input w resp w' :
  post_step run_id step_input w = (Ok resp, w') →
  (truthy (decisions step_input) = false →
     stats resp = None ∧ sampling_summary resp = None
     ∧ length (database w') = S (length (database w)))
  ∧ (truthy (decisions step_input) = true →
     ∃ s, sampling_summary resp = Some s
          ∧ total s = len (default [] (decisions step_input))
          ∧ kept s = len (database w') - len (database w) - 1
          ∧ 1 ≤ kept s ≤ total s
          ∧ sampled s = bool_decide (total s > 500)
          ∧ (sampled s = false → kept s = total s)).
Proof.
  intros (_ & _ & rows & next & Hrows & -> & ->)%post_step_Ok_inv.
  apply Forall2_length in Hrows. rewrite decision_rows_length in Hrows.
  cbn [stats sampling_summary database]. unfold expected_stats, expected_summary.
  split; intros Htr; rewrite Htr.
  - split_and!; [done | done |].
    unfold kept_decisions in Hrows. rewrite Htr in Hrows. cbn in Hrows.
    destruct rows; [|done]. rewrite length_app. cbn. lia.
  - pose proof (kept_decisions_sample step_input (random_state w) Htr) as Hs.
    set (ds := default [] (decisions step_input)) in *.
    set (ks := (kept_decisions step_input (random_state w)).1.1) in *.
    set (b := (kept_decisions step_input (random_state w)).1.2) in *.
    eexists. split; [reflexivity|]. cbn [total kept sampled].
    assert (len (normalize ds) = len ds) as Hnorm
      by (unfold len; by rewrite normalize_length).
    assert (ds ≠ []) as Hne.
    { apply truthy_len in Htr. fold ds in Htr. intros Heq. rewrite Heq in Htr.
      unfold len in Htr. cbn in Htr. lia. }
    assert (ks ≠ []) as Hkept.
    { eapply sample_nonempty; [| |exact Hs]; [cbn; lia|].
      intros Heq. apply (f_equal length) in Heq.
      rewrite normalize_length in Heq. by destruct ds. }
    assert (length ks ≤ length ds)%nat as Hle.
    { rewrite <- (normalize_length ds).
      apply submseteq_length. by eapply sample_Ok_submseteq. }
    split_and!; [done | | | | |].
    + unfold len. rewrite length_app. cbn [length]. lia.
    + destruct ks; [done|]. unfold len. cbn [length]. lia.
    + unfold len. lia.
    + destruct (decide (len (normalize ds) ≤ threshold _sampler)) as [Hlen|Hover].
      * rewrite sample_under in Hs by done. injection Hs as _ <-.
        symmetry. apply bool_decide_eq_false. cbn in Hlen. lia.
      * apply sample_over_Ok in Hs as [-> _]; [|done].
        symmetry. apply bool_decide_eq_true. cbn in Hover. lia.
    + intros Hb.
      destruct (decide (len (normalize ds) ≤ threshold _sampler)) as [Hlen|Hover].
      * rewrite sample_under in Hs by done. injection Hs as <- _.
        unfold len. by rewrite normalize_length.
      * apply sample_over_Ok in Hs as [Hb' _]; [|done]. congruence.
Qed.

(** X13: the checks run in a fixed order.  A submission for a run
    that does not exist is answered with a 413 when it is over a
    limit and with a 404 otherwise; either way no stats are computed,
    nothing is drawn from the generator, no identifier is used and
    the database is as it was. *)
Theorem post_step_unknown_run run_id step_input w :
  List.find (is_run run_id) (database w) = None →
  ∃ status detail,
    post_step run_id step_input w
      = (Raise (HTTPException status detail), close_session w)
    ∧ (status = 404
       ↔ len (default [] (decisions step_input)) ≤ MAX_DECISIONS_PER_STEP
         ∧ len (default [] (evidence step_input)) ≤ MAX_EVIDENCE_PER_STEP)
    ∧ (status = 413
       ↔ len (default [] (decisions step_input)) > MAX_DECISIONS_PER_STEP
         ∨ len (default [] (evidence step_input)) > MAX_EVIDENCE_PER_STEP).
Proof.
  intros Hrun. rewrite post_step_run.
  destruct (decide (len (default [] (decisions step_input)) ≤ MAX_DECISIONS_PER_STEP
                    ∧ len (default [] (evidence step_input)) ≤ MAX_EVIDENCE_PER_STEP))
    as [[Hn Hm]|Hover].
  - rewrite record_step_not_found by done.
    eexists 404, _. split_and!; [done | | ]; split; (done || lia).
  - destruct (record_step_over run_id step_input (close_session w)) as [d ->];
      [lia|].
    exists 413, d. split_and!; [done | | ]; split; (done || lia).
Qed.

(** X14: evidence that comes without a decision to attach it to, or
    with more items than decisions were kept, is answered with a 400
    and leaves the database as it was. *)
Theorem post_step_evidence_400 run_id step_input w r :
  len (default [] (decisions step_input)) ≤ MAX_DECISIONS_PER_STEP →
  len (default [] (evidence step_input)) ≤ MAX_EVIDENCE_PER_STEP →
  List.find (is_run run_id) (database w) = Some r →
  truthy (evidence step_input) = true →
  truthy (decisions step_input) = false
  ∨ len (default [] (evidence step_input))
      > len (kept_decisions step_input (random_state w)).1.1 →
  ∃ detail w',
    post_step run_id step_input w = (Raise (HTTPException 400 detail), w')
    ∧ database w' = database w
    ∧ session w' = [].
Proof.
  intros Hn Hm Hrun Hev Hbad.
  assert (len (default [] (evidence step_input))
          > len (kept_decisions step_input (random_state w)).1.1) as Hmany.
  { destruct Hbad as [Hnone|?]; [|done].
    unfold kept_decisions. rewrite Hnone. cbn [fst].
    apply truthy_len in Hev. unfold len in *. cbn [length]. lia. }
  destruct (post_step_within run_id step_input w Hn Hm)
    as [[Hnone _]|[(_ & _ & detail & Hp)|[(_ & Hfew & _)|(Hnev & _)]]].
  - congruence.
  - by eexists _, _.
  - lia.
  - congruence.
Qed.

End StepAnswers.

Lemma post_step_stores_witness :
  ∃ resp w',
    @post_step WindowSource 7%nat step_of_decisions one_run_world = (Ok resp, w')
    ∧ length (database w') = 6%nat
    ∧ session w' = []
    ∧ taken (clock w') = 6%nat.
Proof.
  destruct post_step_without_evidence as (resp & w' & Hp & _).
  exists resp, w'. split; [exact Hp|].
  destruct (@post_step_stores WindowSource _ _ _ _ _ Hp)
    as (sid & rows & _ & Hdb & _ & Hrows & Hs & Hclock).
  split_and!; [| exact Hs |].
  - rewrite Hdb, length_app. cbn [length]. rewrite Hrows.
    vm_compute. reflexivity.
  - rewrite Hclock. vm_compute. reflexivity.
Defined.

Lemma post_step_sequence_order_witness :
  ∃ resp w',
    @post_step WindowSource 7%nat step_of_decisions one_run_world = (Ok resp, w')
    ∧ ∃ s, Db.OStep s ∈ database w' ∧ Db.Step.sequence_order s = 0.
Proof.
  destruct post_step_without_evidence as (resp & w' & Hp & _).
  exists resp, w'. split; [exact Hp|].
  destruct (@post_step_sequence_order WindowSource _ _ _ _ _ Hp)
    as (s & Hin & _ & _ & Hseq & _).
  exists s. split; [exact Hin|]. rewrite Hseq. vm_compute. reflexivity.
Defined.

Lemma post_step_summary_witness :
  ∃ resp w',
    @post_step WindowSource 7%nat step_of_decisions one_run_world = (Ok resp, w')
    ∧ ∃ s, sampling_summary resp = Some s ∧ total s = 4 ∧ sampled s = false.
Proof.
  destruct post_step_without_evidence as (resp & w' & Hp & _).
  exists resp, w'. split; [exact Hp|].
  destruct (@post_step_summary WindowSource _ _ _ _ _ Hp) as [_ Hsome].
  destruct (Hsome eq_refl) as (s & Hs & Ht & _ & _ & Hb & _).
  exists s. split; [exact Hs|]. split; [rewrite Ht; vm_compute; reflexivity|].
  rewrite Hb, Ht. vm_compute. reflexivity.
Defined.

Lemma post_step_unknown_run_witness :
  List.find (is_run 8%nat) (database one_run_world) = None
  ∧ ∃ detail,
      @post_step WindowSource 8%nat step_of_decisions one_run_world
        = (Raise (HTTPException 404 detail), close_session one_run_world).
Proof.
  assert (List.find (is_run 8%nat) (database one_run_world) = None) as Hrun
    by reflexivity.
  split; [exact Hrun|].
  destruct (@post_step_unknown_run WindowSource 8%nat step_of_decisions
              one_run_world Hrun) as (status & detail & Hp & H404 & _).
  exists detail. rewrite Hp.
  assert (status = 404) as ->; [|reflexivity].
  apply H404. split; vm_compute; discriminate.
Defined.

Lemma post_step_evidence_400_witness :
  len (default [] (decisions step_of_evidence)) ≤ MAX_DECISIONS_PER_STEP
  ∧ len (default [] (evidence step_of_evidence)) ≤ MAX_EVIDENCE_PER_STEP
  ∧ truthy (evidence step_of_evidence) = true
  ∧ truthy (decisions step_of_evidence) = false
  ∧ ∃ detail w',
      @post_step WindowSource 7%nat step_of_evidence one_run_world
        = (Raise (HTTPException 400 detail), w')
      ∧ database w' = database one_run_world.
Proof.
  assert (len (default [] (decisions step_of_evidence)) ≤ MAX_DECISIONS_PER_STEP)
    as Hn by (vm_compute; discriminate).
  assert (len (default [] (evidence step_of_evidence)) ≤ MAX_EVIDENCE_PER_STEP)
    as Hm by (vm_compute; discriminate).
  split_and!; [exact Hn | exact Hm | reflexivity | reflexivity |].
  destruct (@post_step_evidence_400 WindowSource 7%nat step_of_evidence
              one_run_world _ Hn Hm eq_refl eq_refl (or_introl eq_refl))
    as (detail & w' & Hp & Hdb & _).
  exists detail, w'. split; [exact Hp | exact Hdb].
Defined.

(** ** Reading the decisions of a step back *)

Lemma offset_limit_length {A} (offset limit : Z) (rows : list A) :
  0 ≤ offset → 0 ≤ limit →
  len (offset_limit offset limit rows)
  = Z.min limit (Z.max 0 (len rows - offset)).
Proof.
  intros Ho Hl. unfold offset_limit, len.
  rewrite length_take, length_drop. lia.
Qed.

Lemma offset_limit_sublist {A} (offset limit : Z) (rows : list A) :
  offset_limit offset limit rows `sublist_of` rows.
Proof.
  unfold offset_limit. trans (drop (Z.to_nat offset) rows).
  - apply sublist_take.
  - apply sublist_drop.
Qed.

Lemma sublist_sorted_le (l k : list Z) :
  l `sublist_of` k → StronglySorted Z.le k → StronglySorted Z.le l.
Proof.
  induction 1 as [|x l k Hsub IH|x l k Hsub IH].
  - done.
  - intros [Hk Hx]%StronglySorted_inv. constructor; [by apply IH|].
    rewrite Forall_forall in Hx |- *.
    intros y Hy. apply Hx. by eapply elem_of_sublist.
  - intros [Hk _]%StronglySorted_inv. by apply IH.
Qed.

(** Two lists in order of a key that takes no value twice are the
    same list as soon as they hold the same elements. *)
Lemma sorted_NoDup_Permutation_eq {A} (key : A → Z) (l1 l2 : list A) :
  StronglySorted Z.le (key <$> l1) →
  StronglySorted Z.le (key <$> l2) →
  NoDup (key <$> l1) →
  l1 ≡ₚ l2 →
  l1 = l2.
Proof.
  intros Hs1 Hs2 Hnd Hp.
  assert (NoDup (key <$> l2)) as Hnd2 by (by rewrite <- Hp).
  apply sorted_le_NoDup_lt in Hs1; [|done].
  apply sorted_le_NoDup_lt in Hs2; [|done].
  assert (∀ l, StronglySorted Z.lt (key <$> l) →
               StronglySorted (λ x y : A, key x < key y) l) as Hback.
  { induction l as [|x l IH]; [constructor|]. cbn [fmap list_fmap].
    intros [Hl Hx]%StronglySorted_inv. constructor; [by apply IH|].
    by rewrite Forall_fmap in Hx. }
  eapply (StronglySorted_unique_strong (λ x y : A, key x < key y));
    [| by apply Hback | by apply Hback | done].
  intros x1 x2 _ _ ? ?. lia.
Qed.

Lemma sorted_lt_le (ks : list Z) :
  StronglySorted Z.lt ks → StronglySorted Z.le ks.
Proof.
  induction 1 as [|k ks Hs IH Hk]; constructor; [done|].
  eapply Forall_impl; [exact Hk|]. intros z Hz. cbn beta in Hz. lia.
Qed.

Lemma fmap_concat {A B} (f : A → B) (ls : list (list A)) :
  f <$> concat ls = concat ((λ l : list A, f <$> l) <$> ls).
Proof.
  induction ls as [|l ls IH]; [done|]. cbn [concat fmap list_fmap].
  by rewrite fmap_app, IH.
Qed.

Lemma filter_true {A} (f : A → bool) (l : list A) :
  Forall (λ x, f x = true) l → List.filter f l = l.
Proof.
  induction 1 as [|x l Hx _ IH]; [done|]. cbn. by rewrite Hx, IH.
Qed.

Lemma filter_false {A} (f : A → bool) (l : list A) :
  Forall (λ x, f x = false) l → List.filter f l = [].
Proof.
  induction 1 as [|x l Hx _ IH]; [done|]. cbn. by rewrite Hx, IH.
Qed.

Lemma find_skip {A} (f : A → bool) (l k : list A) :
  Forall (λ x, f x = false) l → List.find f (l ++ k) = List.find f k.
Proof.
  induction 1 as [|x l Hx _ IH]; [done|]. cbn. by rewrite Hx, IH.
Qed.

Lemma find_Some_elem {A} (f : A → bool) (l : list A) x :
  List.find f l = Some x → x ∈ l ∧ f x = true.
Proof.
  induction l as [|y l IH]; [done|]. cbn.
  destruct (f y) eqn:Hy.
  - intros [= <-]. split; [apply list_elem_of_here | done].
  - intros [Hin Hx]%IH. split; [by apply list_elem_of_further | done].
Qed.

Lemma find_None_elem {A} (f : A → bool) (l : list A) x :
  List.find f l = None → x ∈ l → f x = false.
Proof.
  induction l as [|y l IH]; [by intros _ ?%elem_of_nil|]. cbn.
  destruct (f y) eqn:Hy; [done|].
  intros Hnone [->|Hin]%elem_of_cons; [done | by apply IH].
Qed.

Lemma steps_table_elem (db : list Db.obj) s :
  s ∈ steps_table db ↔ Db.OStep s ∈ db.
Proof.
  unfold steps_table. rewrite list_elem_of_omap. split.
  - intros (o & Hin & Ho). destruct o; try done. by injection Ho as ->.
  - intros Hin. by exists (Db.OStep s).
Qed.

Lemma decisions_table_elem (db : list Db.obj) d :
  d ∈ decisions_table db ↔ Db.ODecision d ∈ db.
Proof.
  unfold decisions_table. rewrite list_elem_of_omap. split.
  - intros (o & Hin & Ho). destruct o; try done. by injection Ho as ->.
  - intros Hin. by exists (Db.ODecision d).
Qed.

Lemma and_decision_conds_type dt r d :
  str_truthy dt = true →
  and_ (decision_conds dt r) d = true →
  Some (type_name (Db.Decision.decision_type d)) = dt.
Proof.
  intros Hdt. unfold and_, decision_conds. rewrite Hdt. cbn.
  intros [Hd _]%andb_true_iff. by apply bool_decide_eq_true in Hd.
Qed.

Lemma and_decision_conds_reason dt r d :
  str_truthy r = true →
  and_ (decision_conds dt r) d = true →
  Db.Decision.reason d = r.
Proof.
  intros Hr. unfold and_, decision_conds. rewrite Hr, forallb_app. cbn.
  intros [_ [Hd _]%andb_true_iff]%andb_true_iff.
  by apply bool_decide_eq_true in Hd.
Qed.

Section QueryFacts.
Context `{RandomSource} `{QueryEngine}.
Implicit Types (w : World).

(** With keys that are pairwise distinct there is one order, whatever
    the engine. *)
Lemma order_by_unique {A} (key : A → Z) (l : list A) :
  NoDup (key <$> l) → order_by key l = sort_by key l.
Proof.
  intros Hnd. apply (sorted_NoDup_Permutation_eq key).
  - apply order_by_sorted.
  - apply sort_by_sorted.
  - by rewrite order_by_Permutation.
  - by rewrite order_by_Permutation, sort_by_Permutation.
Qed.

Lemma order_by_sorted_id {A} (key : A → Z) (l : list A) :
  StronglySorted Z.lt (key <$> l) → order_by key l = l.
Proof.
  intros Hs. apply (sorted_NoDup_Permutation_eq key).
  - apply order_by_sorted.
  - by apply sorted_lt_le.
  - rewrite order_by_Permutation. by apply sorted_lt_NoDup.
  - apply order_by_Permutation.
Qed.

(** The handler, run. *)
Lemma get_decisions_run run_id step_id dt r page page_size w :
  get_decisions run_id step_id dt r page page_size w =
    match List.find (λ s, bool_decide (Db.Step.id s = Some step_id)
                          && bool_decide (Db.Step.run_id s = run_id))
            (steps_table (database w)) with
    | None =>
      (Raise (HTTPException 404
                ("Step " +:+ pretty step_id +:+ " not found in run "
                 +:+ pretty run_id)),
       close_session w)
    | Some step =>
      (Ok (StepDecisionListResponse.mk step_id (Db.Step.step_name step)
             (decision_out
              <$> offset_limit ((page - 1) * page_size) page_size
                    (order_by Db.Decision.sequence_order
                       (matching step_id dt r w)))
             (len (matching step_id dt r w)) page page_size),
       close_session w)
    end.
Proof.
  unfold get_decisions, with_session, get_step_decisions, select_step,
    matching, close_session.
  unfold mbind, M_bind, bind, mret, M_ret, ret, get, raise. cbn.
  by destruct (List.find _ _).
Qed.

Lemma matching_elem step_id dt r w d :
  d ∈ matching step_id dt r w ↔
  Db.ODecision d ∈ database w
  ∧ Db.Decision.step_id d = Some step_id
  ∧ and_ (decision_conds dt r) d = true.
Proof.
  unfold matching. rewrite list_elem_of_In, filter_In, <- list_elem_of_In.
  rewrite decisions_table_elem, andb_true_iff, bool_decide_eq_true. tauto.
Qed.

Lemma matching_all step_id w :
  matching step_id None None w
  = List.filter (λ d, bool_decide (Db.Decision.step_id d = Some step_id))
      (decisions_table (database w)).
Proof.
  unfold matching. apply filter_ext. intros d. cbn. apply andb_true_r.
Qed.

Lemma matching_sublist step_id dt r w :
  matching step_id dt r w `sublist_of` matching step_id None None w.
Proof.
  unfold matching. induction (decisions_table (database w)) as [|d l IH];
    [done|].
  cbn [List.filter]. destruct (bool_decide _); cbn.
  - destruct (and_ _ d); [by constructor | by constructor].
  - done.
Qed.

(** X15: a page of the decisions of a step.  The request changes
    nothing; [total] counts every decision of the step that the
    filters select, whatever the page; the page holds
    [min page_size (max 0 (total - (page - 1) * page_size))]
    decisions, all of them decisions of the step, all of them
    selected by the filters that were given, in ascending
    [sequence_order]. *)
Theorem get_decisions_page run_id step_id dt r page page_size w resp w' :
  1 ≤ page →
  1 ≤ page_size →
  get_decisions run_id step_id dt r page page_size w = (Ok resp, w') →
  w' = close_session w
  ∧ StepDecisionListResponse.total resp = len (matching step_id dt r w)
  ∧ len (StepDecisionListResponse.decisions resp)
    = Z.min page_size
        (Z.max 0 (StepDecisionListResponse.total resp - (page - 1) * page_size))
  ∧ StronglySorted Z.le
      (DecisionOut.sequence_order <$> StepDecisionListResponse.decisions resp)
  ∧ StepDecisionListResponse.decisions resp
    `sublist_of` (decision_out
                  <$> order_by Db.Decision.sequence_order
                        (matching step_id dt r w))
  ∧ (∀ o, o ∈ StepDecisionListResponse.decisions resp →
       ∃ d, o = decision_out d
            ∧ Db.ODecision d ∈ database w
            ∧ Db.Decision.step_id d = Some step_id
            ∧ (str_truthy dt = true → Some (DecisionOut.decision_type o) = dt)
            ∧ (str_truthy r = true → DecisionOut.reason o = r)).
Proof.
  intros Hpage Hsize. rewrite get_decisions_run.
  destruct (List.find _ _) as [step|]; [|done].
  intros [= <- <-]. cbn [StepDecisionListResponse.total
                          StepDecisionListResponse.decisions].
  set (rows := order_by Db.Decision.sequence_order (matching step_id dt r w)).
  assert (len rows = len (matching step_id dt r w)) as Hlen.
  { unfold len, rows. by rewrite order_by_Permutation. }
  split_and!; [done | done | | | |].
  - unfold len at 1. rewrite length_fmap. fold (len (offset_limit ((page - 1) * page_size) page_size rows)).
    rewrite offset_limit_length by nia. by rewrite Hlen.
  - rewrite <- list_fmap_compose.
    eapply sublist_sorted_le;
      [apply fmap_sublist, offset_limit_sublist|].
    apply (order_by_sorted Db.Decision.sequence_order).
  - apply fmap_sublist, offset_limit_sublist.
  - intros o (d & -> & Hd)%list_elem_of_fmap.
    assert (d ∈ matching step_id dt r w) as (Hin & Hstep & Hconds)%matching_elem.
    { rewrite <- (order_by_Permutation Db.Decision.sequence_order).
      eapply elem_of_sublist; [exact Hd | apply offset_limit_sublist]. }
    exists d. split_and!; [done | done | done | |].
    + intros Hdt. by eapply and_decision_conds_type.
    + intros Hr. by eapply and_decision_conds_reason.
Qed.

(** X16: the request is answered with a page or with a 404, and with
    a 404 exactly when the run has no step of that identifier: the
    step of another run is not found either.  In both cases nothing
    is changed.  A filter that is the empty string is no filter. *)
Theorem get_decisions_outcome run_id step_id dt r page page_size w :
  ((∃ s resp,
      Db.OStep s ∈ database w
      ∧ Db.Step.id s = Some step_id
      ∧ Db.Step.run_id s = run_id
      ∧ get_decisions run_id step_id dt r page page_size w
        = (Ok resp, close_session w)
      ∧ StepDecisionListResponse.step_id resp = step_id
      ∧ StepDecisionListResponse.step_name resp = Db.Step.step_name s)
   ∨ ((∀ s, Db.OStep s ∈ database w → Db.Step.id s = Some step_id →
            Db.Step.run_id s ≠ run_id)
      ∧ ∃ detail,
          get_decisions run_id step_id dt r page page_size w
          = (Raise (HTTPException 404 detail), close_session w)))
  ∧ get_decisions run_id step_id (Some "") r page page_size w
    = get_decisions run_id step_id None r page page_size w
  ∧ get_decisions run_id step_id dt (Some "") page page_size w
    = get_decisions run_id step_id dt None page page_size w.
Proof.
  split_and!; [| done | ].
  - rewrite get_decisions_run.
    destruct (List.find _ _) as [s|] eqn:Hfind.
    + left. apply find_Some_elem in Hfind as [Hin Hs].
      apply steps_table_elem in Hin.
      apply andb_true_iff in Hs as [Hid Hrun].
      apply bool_decide_eq_true in Hid, Hrun.
      by exists s, (StepDecisionListResponse.mk step_id (Db.Step.step_name s)
                      (decision_out
                       <$> offset_limit ((page - 1) * page_size) page_size
                             (order_by Db.Decision.sequence_order
                                (matching step_id dt r w)))
                      (len (matching step_id dt r w)) page page_size).
    + right. split; [|by eexists].
      intros s Hin%steps_table_elem Hid Hrun.
      pose proof (find_None_elem _ _ s Hfind Hin) as Hs. cbn in Hs.
      by rewrite !bool_decide_eq_true_2 in Hs.
  - rewrite !get_decisions_run. unfold matching, decision_conds.
    destruct (str_truthy dt); cbn; done.
Qed.

Lemma page_of_run run_id step_id dt r page_size w (page : nat) step :
  List.find (λ s, bool_decide (Db.Step.id s = Some step_id)
                  && bool_decide (Db.Step.run_id s = run_id))
    (steps_table (database w)) = Some step →
  page_of run_id step_id dt r page_size w page
  = decision_out
    <$> offset_limit ((Z.of_nat page - 1) * page_size) page_size
          (order_by Db.Decision.sequence_order (matching step_id dt r w)).
Proof.
  intros Hfind. unfold page_of. by rewrite get_decisions_run, Hfind.
Qed.

Lemma concat_pages {A} (rows : list A) (size : nat) (n : nat) :
  concat ((λ page : nat, take size (drop ((page - 1) * size) rows)) <$> seq 1 n)
  = take (n * size) rows.
Proof.
  induction n as [|n IH]; [done|].
  rewrite seq_S, fmap_app, concat_app, IH. cbn [fmap list_fmap concat].
  rewrite app_nil_r. replace (1 + n - 1)%nat with n by lia.
  rewrite take_take_drop. f_equal. lia.
Qed.

(** X17: paging through the decisions of a step.  When the
    [sequence_order] values of the selected decisions are pairwise
    distinct, the pages [1] to [n] of size [page_size], one after the
    other, are the first [n * page_size] selected decisions in
    ascending [sequence_order], whatever order the engine gives to
    equal keys; with [n * page_size] at least the total, that is every
    selected decision, once. *)
Theorem get_decisions_pages run_id step_id dt r page_size w (n : nat) s :
  1 ≤ page_size →
  Db.OStep s ∈ database w →
  Db.Step.id s = Some step_id →
  Db.Step.run_id s = run_id →
  NoDup (Db.Decision.sequence_order <$> matching step_id dt r w) →
  pages_upto run_id step_id dt r page_size w n
  = decision_out
    <$> take (n * Z.to_nat page_size)
          (sort_by Db.Decision.sequence_order (matching step_id dt r w))
  ∧ (len (matching step_id dt r w) ≤ Z.of_nat n * page_size →
     pages_upto run_id step_id dt r page_size w n
     = decision_out
       <$> sort_by Db.Decision.sequence_order (matching step_id dt r w)).
Proof.
  intros Hsize Hin Hid Hrun Hnd.
  destruct (List.find (λ s, bool_decide (Db.Step.id s = Some step_id)
                            && bool_decide (Db.Step.run_id s = run_id))
              (steps_table (database w))) as [step|] eqn:Hfind.
  2:{ apply steps_table_elem in Hin.
      pose proof (find_None_elem _ _ s Hfind Hin) as Hs. cbn in Hs.
      by rewrite !bool_decide_eq_true_2 in Hs. }
  assert (pages_upto run_id step_id dt r page_size w n
          = decision_out
            <$> take (n * Z.to_nat page_size)
                  (sort_by Db.Decision.sequence_order (matching step_id dt r w)))
    as Hpages.
  { unfold pages_upto.
    rewrite <- (concat_pages _ (Z.to_nat page_size) n).
    rewrite <- order_by_unique by done.
    rewrite fmap_concat, <- list_fmap_compose.
    f_equal. apply list_fmap_ext. intros i page Hi. cbn.
    apply lookup_seq in Hi as [-> _].
    rewrite (page_of_run _ _ _ _ _ _ _ step Hfind). unfold offset_limit.
    do 3 f_equal. nia. }
  split; [done|]. intros Htotal. rewrite Hpages.
  rewrite take_ge; [done|]. rewrite sort_by_length. unfold len in Htotal. nia.
Qed.

End QueryFacts.

(** ** Recording a step and reading it back *)

Lemma imap_pair_fst {A} (l : list A) (k : nat) :
  (imap (λ i x, (k + i, x)%nat) l).*1 = seq k (length l).
Proof.
  revert k. induction l as [|x l IH]; intros k; [done|].
  cbn [imap fmap list_fmap length seq]. f_equal; [cbn; lia|].
  rewrite <- (IH (S k)). f_equal. apply imap_ext. intros i y _. cbn.
  f_equal. lia.
Qed.

Lemma seq_sorted_lt (k n : nat) :
  StronglySorted Z.lt (Z.of_nat <$> seq k n).
Proof.
  revert k. induction n as [|n IH]; intros k; [constructor|].
  cbn [seq fmap list_fmap]. constructor; [apply IH|].
  apply Forall_forall. intros z (i & -> & Hi)%list_elem_of_fmap.
  apply elem_of_seq in Hi. lia.
Qed.

Lemma list_filter_sublist {A} (f : A → bool) (l : list A) :
  List.filter f l `sublist_of` l.
Proof.
  induction l as [|x l IH]; [done|]. cbn.
  destruct (f x); by constructor.
Qed.

Lemma list_filter_fmap {A B} (f : A → B) (p : B → bool) (l : list A) :
  List.filter p (f <$> l) = f <$> List.filter (λ x, p (f x)) l.
Proof.
  induction l as [|x l IH]; [done|]. cbn.
  destruct (p (f x)); cbn; by rewrite IH.
Qed.

(** The rows of the kept decisions, as the tables see them. *)
Lemma stored_rows_tables sid (entries : list (Z * (nat * Decision))) rows :
  Forall2 (λ entry o, ∃ id, o = stored_decision id sid entry.1 entry.2.1 entry.2.2)
    entries rows →
  Forall2 (λ entry d,
             (∃ id, decision_out d = read_back id entry.1 entry.2.1 entry.2.2)
             ∧ Db.Decision.step_id d = Some sid
             ∧ Db.Decision.sequence_order d = Z.of_nat entry.2.1)
    entries (decisions_table rows).
Proof.
  induction 1 as [|entry o entries rows [id ->] _ IH]; [constructor|].
  unfold decisions_table, stored_decision. cbn [omap list_omap].
  constructor; [|exact IH]. split_and!; [by exists id | done | done].
Qed.

Section RoundTrip.
Context `{RandomSource} `{QueryEngine}.
Implicit Types (w : World) (step_input : Step).

(** X18: what is recorded is what is read back.  After a step was
    recorded, under an identifier no row had or pointed to, the first
    page of its decisions holds the first [page_size] kept decisions
    in the order the sampler returned them, each with its position
    among the kept decisions as [sequence_order], with the metadata it
    was sampled with, and with the [created_at] its row was given
    (its timestamp, or the reading of the clock taken for it); [total]
    is the number of kept decisions, not the number submitted. *)
Theorem post_step_then_get run_id step_input w resp w' page_size :
  1 ≤ page_size →
  unused (uuid_supply w) w →
  post_step run_id step_input w = (Ok resp, w') →
  let kept := (kept_decisions step_input (random_state w)).1.1 in
  ∃ sid page,
    step_id resp = Some sid
    ∧ get_decisions run_id sid None None 1 page_size w' = (Ok page, w')
    ∧ StepDecisionListResponse.step_name page = name step_input
    ∧ StepDecisionListResponse.total page = len kept
    ∧ Forall2 (λ entry o, ∃ id, o = read_back id entry.1 entry.2.1 entry.2.2)
        (take (Z.to_nat page_size)
           (zip (created_ats (tick (tick (clock w))) (timestamp <$> kept))
              (imap pair kept)))
        (StepDecisionListResponse.decisions page).
Proof.
  intros Hsize Hfresh
    (_ & _ & rows & next & Hrows & -> & ->)%post_step_Ok_inv kept.
  pose proof (Forall2_length _ _ _ Hrows) as Hlen.
  rewrite decision_rows_length in Hlen. fold kept in Hlen.
  apply inserted_decision_rows, stored_rows_tables in Hrows.
  fold kept in Hrows.
  set (sid := uuid_supply w) in *.
  set (drows := decisions_table rows) in *.
  set (entries := zip (created_ats (tick (tick (clock w))) (timestamp <$> kept))
                    (imap pair kept)) in *.
  set (w1 := mkWorld (kept_decisions step_input (random_state w)).2
               (database w
                ++ step_row run_id step_input
                     (len (List.filter (is_step_of run_id) (database w)))
                     (Some sid) (reading (clock w)) (reading (tick (clock w)))
                   :: rows)
               [] 0 next (clock_after (tick (tick (clock w))) (timestamp <$> kept))).
  unfold unused in Hfresh. rewrite Forall_forall in Hfresh.
  assert (matching sid None None w1 = drows) as Hmatch.
  { rewrite matching_all. unfold w1. cbn [database]. unfold decisions_table at 1.
    rewrite omap_app. cbn [omap list_omap step_row].
    rewrite List.filter_app, filter_false, filter_true; [done | |].
    - fold (decisions_table rows). fold drows.
      eapply Forall2_Forall_r; [exact Hrows|]. apply Forall_forall.
      intros entry _ d (_ & -> & _). by apply bool_decide_eq_true.
    - apply Forall_forall. intros d Hd%decisions_table_elem.
      apply bool_decide_eq_false. by apply (Hfresh _ Hd). }
  assert (order_by Db.Decision.sequence_order drows = drows) as Hsorted.
  { apply order_by_sorted_id.
    assert (Db.Decision.sequence_order <$> drows
            = Z.of_nat <$> seq 0 (length kept)) as ->; [|apply seq_sorted_lt].
    rewrite <- (imap_pair_fst kept 0).
    change (imap (λ i x, ((0 + i)%nat, x)) kept) with (imap pair kept).
    rewrite <- (snd_zip (created_ats (tick (tick (clock w))) (timestamp <$> kept))
                  (imap pair kept))
      by (rewrite created_ats_length, length_imap, length_fmap; lia).
    fold entries. rewrite <- !list_fmap_compose.
    symmetry. apply list_eq_Forall2. rewrite Forall2_fmap_l, Forall2_fmap_r.
    eapply Forall2_impl; [exact Hrows|].
    intros entry d (_ & _ & Hseq). cbn. by rewrite Hseq. }
  assert (∃ s, List.find (λ s, bool_decide (Db.Step.id s = Some sid)
                               && bool_decide (Db.Step.run_id s = run_id))
                 (steps_table (database w1)) = Some s
               ∧ Db.Step.step_name s = name step_input) as (s & Hfind & Hname).
  { unfold w1. cbn [database]. unfold steps_table.
    rewrite omap_app. cbn [omap list_omap step_row].
    rewrite find_skip.
    2:{ apply Forall_forall. intros s Hs. fold (steps_table (database w)) in Hs.
        apply steps_table_elem in Hs. apply andb_false_iff. left.
        apply bool_decide_eq_false. apply (Hfresh _ Hs). }
    cbn [List.find Db.Step.id Db.Step.run_id].
    rewrite !bool_decide_eq_true_2 by done. cbn [andb]. by eexists. }
  exists sid. eexists. split; [done|]. fold kept. fold w1.
  rewrite get_decisions_run, Hfind, Hmatch, Hsorted. split; [reflexivity|].
  cbn [StepDecisionListResponse.step_name StepDecisionListResponse.total
       StepDecisionListResponse.decisions].
  split_and!; [done | |].
  - unfold len. f_equal. apply Forall2_length in Hrows.
    unfold entries in Hrows.
    rewrite length_zip, created_ats_length, length_imap, length_fmap in Hrows.
    lia.
  - unfold offset_limit. cbn [Z.sub Z.add Z.opp Z.pos_sub Z.mul Z.to_nat drop].
    rewrite Forall2_fmap_r. apply Forall2_take.
    eapply Forall2_impl; [exact Hrows|].
    intros entry d ([id Hid] & _). by exists id.
Qed.

(** ** Finding steps across runs *)

Lemma post_query_steps_run request w :
  post_query_steps request w =
    (Ok (StepQueryResponse.mk
           (step_query_item
            <$> List.filter
                  (λ step, rate_within
                             (StepQueryRequest.min_rejection_rate request)
                             (StepQueryRequest.max_rejection_rate request)
                             (stats_rate (Db.Step.stats step)))
                  ((offset_limit (StepQueryRequest.offset request)
                      (StepQueryRequest.limit request)
                      (order_by (λ sr, - Db.Step.started_at sr.1)
                         (List.filter (and_ (step_conds request))
                            (join_run (database w))))).*1))
           (len (List.filter
                   (λ step, rate_within
                              (StepQueryRequest.min_rejection_rate request)
                              (StepQueryRequest.max_rejection_rate request)
                              (stats_rate (Db.Step.stats step)))
                   ((offset_limit (StepQueryRequest.offset request)
                       (StepQueryRequest.limit request)
                       (order_by (λ sr, - Db.Step.started_at sr.1)
                          (List.filter (and_ (step_conds request))
                             (join_run (database w))))).*1)))),
     close_session w).
Proof. reflexivity. Qed.

Lemma post_query_steps_ext request lo hi lo' hi' w :
  (∀ rate, rate_within lo hi rate = rate_within lo' hi' rate) →
  post_query_steps (with_bounds request lo hi) w
  = post_query_steps (with_bounds request lo' hi') w.
Proof.
  intros Hext. rewrite !post_query_steps_run.
  cbn [with_bounds StepQueryRequest.min_rejection_rate
       StepQueryRequest.max_rejection_rate StepQueryRequest.offset
       StepQueryRequest.limit].
  change (step_conds (with_bounds request lo hi)) with (step_conds request).
  change (step_conds (with_bounds request lo' hi')) with (step_conds request).
  erewrite (filter_ext (λ step, rate_within lo hi _)); [reflexivity|].
  intros step. apply Hext.
Qed.

(** X19: a bound of zero is no bound.  [query_steps] tests its bounds
    for truth before it compares, so a [min_rejection_rate] or a
    [max_rejection_rate] of 0 is answered like a request without it:
    a request for the steps with a rejection rate of at most 0 gets
    the steps of every rate. *)
Theorem query_steps_zero_bound request lo hi (z : Q) w :
  (z == 0)%Q →
  post_query_steps (with_bounds request (Some z) hi) w
  = post_query_steps (with_bounds request None hi) w
  ∧ post_query_steps (with_bounds request lo (Some z)) w
    = post_query_steps (with_bounds request lo None) w.
Proof.
  intros Hz%Qeq_bool_iff.
  split; apply post_query_steps_ext; intros rate; unfold rate_within;
    cbn [float_truthy]; by rewrite Hz.
Qed.

(** X20: [query_steps] bounds the rejection rate after it has cut the
    page.  The answer is the answer to the same request without
    bounds, less the steps whose rate is out of bounds: it is in the
    same order, newest first, [count] is its length, and fewer than
    [limit] steps can come back though more are within the bounds. *)
Theorem query_steps_page request w :
  0 ≤ StepQueryRequest.offset request →
  0 ≤ StepQueryRequest.limit request →
  ∃ resp page,
    post_query_steps request w = (Ok resp, close_session w)
    ∧ post_query_steps (with_bounds request None None) w
      = (Ok page, close_session w)
    ∧ StepQueryResponse.steps resp
      = List.filter
          (λ item, rate_within (StepQueryRequest.min_rejection_rate request)
                     (StepQueryRequest.max_rejection_rate request)
                     (stats_rate (StepQueryItem.stats item)))
          (StepQueryResponse.steps page)
    ∧ StepQueryResponse.count resp = len (StepQueryResponse.steps resp)
    ∧ StepQueryResponse.count resp ≤ StepQueryResponse.count page
    ∧ StepQueryResponse.count page ≤ StepQueryRequest.limit request
    ∧ StronglySorted Z.le
        ((λ item, - StepQueryItem.started_at item)
         <$> StepQueryResponse.steps resp).
Proof.
  intros Hoffset Hlimit. eexists _, _.
  split; [apply post_query_steps_run|].
  split; [apply post_query_steps_run|].
  cbn [with_bounds StepQueryRequest.min_rejection_rate
       StepQueryRequest.max_rejection_rate StepQueryRequest.offset
       StepQueryRequest.limit StepQueryResponse.steps StepQueryResponse.count].
  change (step_conds (with_bounds request None None)) with (step_conds request).
  set (rows := offset_limit (StepQueryRequest.offset request)
                 (StepQueryRequest.limit request)
                 (order_by (λ sr : Db.Step.t * Db.Run.t, - Db.Step.started_at sr.1)
                    (List.filter (and_ (step_conds request))
                       (join_run (database w))))).
  rewrite (filter_true (λ step, rate_within None None _) (rows.*1))
    by (apply Forall_forall; done).
  set (p := λ step, rate_within (StepQueryRequest.min_rejection_rate request)
                      (StepQueryRequest.max_rejection_rate request)
                      (stats_rate (Db.Step.stats step))).
  split_and!.
  - symmetry.
    apply (list_filter_fmap step_query_item
             (λ item, rate_within _ _ (stats_rate (StepQueryItem.stats item)))).
  - unfold len. by rewrite length_fmap.
  - unfold len. pose proof (List.filter_length_le p (rows.*1)). lia.
  - unfold len. rewrite length_fmap.
    pose proof (offset_limit_length (StepQueryRequest.offset request)
                  (StepQueryRequest.limit request)
                  (order_by (λ sr : Db.Step.t * Db.Run.t, - Db.Step.started_at sr.1)
                     (List.filter (and_ (step_conds request))
                        (join_run (database w)))) Hoffset Hlimit) as Hlen.
    fold rows in Hlen. unfold len in Hlen. lia.
  - rewrite <- list_fmap_compose.
    eapply sublist_sorted_le.
    { apply fmap_sublist. apply list_filter_sublist. }
    rewrite <- list_fmap_compose.
    eapply sublist_sorted_le;
      [apply fmap_sublist, offset_limit_sublist|].
    apply (order_by_sorted (λ sr : Db.Step.t * Db.Run.t, - Db.Step.started_at sr.1)).
Qed.

End RoundTrip.

(** ** Reading back on concrete inputs *)

Lemma get_decisions_page_witness :
  ∃ resp w',
    @get_decisions WindowSource StableEngine 7%nat 100%nat None None 2 3
      recorded_world = (Ok resp, w')
    ∧ StepDecisionListResponse.total resp = 4
    ∧ len (StepDecisionListResponse.decisions resp) = 1.
Proof.
  assert (∃ resp w',
            @get_decisions WindowSource StableEngine 7%nat 100%nat None None 2 3
              recorded_world = (Ok resp, w')) as (resp & w' & Hg)
    by (eexists _, _; vm_compute; reflexivity).
  exists resp, w'. split; [exact Hg|].
  destruct (@get_decisions_page WindowSource StableEngine 7%nat 100%nat None None
              2 3 recorded_world resp w' ltac:(lia) ltac:(lia) Hg)
    as (_ & Ht & Hl & _).
  assert (StepDecisionListResponse.total resp = 4) as Hfour
    by (rewrite Ht; vm_compute; reflexivity).
  split; [exact Hfour|]. rewrite Hl, Hfour. reflexivity.
Defined.

Lemma get_decisions_pages_witness :
  Db.OStep recorded_step ∈ database recorded_world
  ∧ NoDup (Db.Decision.sequence_order
           <$> @matching WindowSource 100%nat None None recorded_world)
  ∧ length (@pages_upto WindowSource StableEngine 7%nat 100%nat None None 3
              recorded_world 2) = 4%nat.
Proof.
  assert (Db.OStep recorded_step ∈ database recorded_world) as Hin.
  { apply list_elem_of_In. vm_compute. right. left. reflexivity. }
  assert (NoDup (Db.Decision.sequence_order
                 <$> @matching WindowSource 100%nat None None recorded_world))
    as Hnd.
  { apply NoDup_ListNoDup. vm_compute.
    repeat (constructor; [cbn; intuition discriminate|]). constructor. }
  split_and!; [exact Hin | exact Hnd |].
  destruct (@get_decisions_pages WindowSource StableEngine 7%nat 100%nat None None
              3 recorded_world 2 recorded_step ltac:(lia) Hin eq_refl eq_refl Hnd)
    as [_ Hall].
  rewrite Hall by (vm_compute; discriminate).
  vm_compute. reflexivity.
Defined.

Lemma post_step_then_get_witness :
  @unused WindowSource (uuid_supply one_run_world) one_run_world
  ∧ ∃ resp w' page,
      @post_step WindowSource 7%nat step_of_decisions one_run_world = (Ok resp, w')
      ∧ @get_decisions WindowSource StableEngine 7%nat 100%nat None None 1 2 w'
        = (Ok page, w')
      ∧ StepDecisionListResponse.total page = 4
      ∧ length (StepDecisionListResponse.decisions page) = 2%nat.
Proof.
  assert (@unused WindowSource (uuid_supply one_run_world) one_run_world)
    as Hfresh.
  { unfold unused. cbn. constructor; [|constructor]. split; [discriminate|done]. }
  split; [exact Hfresh|].
  destruct post_step_without_evidence as (resp & w' & Hp & Hid & _).
  destruct (@post_step_then_get WindowSource StableEngine 7%nat step_of_decisions
              one_run_world resp w' 2 ltac:(lia) Hfresh Hp)
    as (sid & page & Hsid & Hg & _ & Ht & Hrows).
  rewrite Hid in Hsid. injection Hsid as <-.
  exists resp, w', page. split_and!; [exact Hp | exact Hg | |].
  - rewrite Ht. vm_compute. reflexivity.
  - apply Forall2_length in Hrows. rewrite <- Hrows. vm_compute. reflexivity.
Defined.

Lemma query_steps_zero_bound_witness :
  (0 == 0)%Q
  ∧ @post_query_steps WindowSource StableEngine
      (with_bounds (steps_request None None 10) None (Some 0%Q)) recorded_world
    = @post_query_steps WindowSource StableEngine
        (with_bounds (steps_request None None 10) None None) recorded_world.
Proof.
  assert (0 == 0)%Q as Hz by reflexivity.
  split; [exact Hz|].
  exact (proj2 (@query_steps_zero_bound WindowSource StableEngine
                  (steps_request None None 10) None None 0%Q recorded_world Hz)).
Defined.

Lemma query_steps_page_witness :
  0 ≤ StepQueryRequest.offset (steps_request (Some 1%Q) None 10)
  ∧ 0 ≤ StepQueryRequest.limit (steps_request (Some 1%Q) None 10)
  ∧ ∃ resp page,
      @post_query_steps WindowSource StableEngine
        (steps_request (Some 1%Q) None 10) recorded_world
        = (Ok resp, close_session recorded_world)
      ∧ @post_query_steps WindowSource StableEngine
          (steps_request None None 10) recorded_world
        = (Ok page, close_session recorded_world)
      ∧ StepQueryResponse.count resp ≤ StepQueryResponse.count page.
Proof.
  assert (0 ≤ StepQueryRequest.offset (steps_request (Some 1%Q) None 10))
    as Hoffset by (cbn; lia).
  assert (0 ≤ StepQueryRequest.limit (steps_request (Some 1%Q) None 10))
    as Hlimit by (cbn; lia).
  split_and!; [exact Hoffset | exact Hlimit |].
  destruct (@query_steps_page WindowSource StableEngine
              (steps_request (Some 1%Q) None 10) recorded_world Hoffset Hlimit)
    as (resp & page & Hr & Hp & _ & _ & Hle & _).
  exists resp, page. split_and!; [exact Hr | exact Hp | exact Hle].
Defined.

(** The step of the four decisions has a rejection rate of 3/4: asked
    for with a rate of at least 1 it is not returned, asked for with
    a rate of at most 0 it is. *)
Example query_steps_on_recorded :
  (∃ resp,
     @post_query_steps WindowSource StableEngine
       (steps_request (Some 1%Q) None 10) recorded_world
       = (Ok resp, close_session recorded_world)
     ∧ StepQueryResponse.count resp = 0)
  ∧ (∃ resp,
       @post_query_steps WindowSource StableEngine
         (steps_request None (Some 0%Q) 10) recorded_world
         = (Ok resp, close_session recorded_world)
       ∧ StepQueryResponse.count resp = 1).
Proof. split; eexists; split; vm_compute; reflexivity. Qed.
